(** * PySearchTool: search engine and atomic replacement

    A shallow embedding of [src/core.py] ([SearchEngine]), [src/utils.py]
    ([is_binary_file], [atomic_write], [read_file_lines]) and of the
    replacement thread and the front-end computations of [src/ui.py],
    followed by the properties of the specification that are stated about
    them.

    Conventions of the model.
    - A Python [str] is held as its UTF-8 encoding, a [string] of 8-bit
      characters: an ASCII character is one of them, any other character is
      a lead followed by one to three continuations.  [decode] is the UTF-8
      decoder with [errors="replace"]; [str.splitlines], [str.strip] and
      slicing work on the characters of the text, not on the bytes.
    - Python exceptions are values of [exn]; a call that can raise returns
      [exn + A].
    - Library behaviour the repository does not define is a parameter, the
      class [PyLib]; nothing is assumed about it: the [re] parser for
      patterns outside the literal fragment, [re.sub], [fnmatch], and the
      outcome of a case-insensitive or word-boundary search that depends on
      characters outside ASCII (Unicode case folding, the Unicode word
      class).
    - The file system, the stop event and the scheduler are explicit.  The
      platform is POSIX.  The files are regular files, each under one path:
      there are no links, no devices and no pipes. *)

From Stdlib Require Import ZArith String Ascii List Bool Lia.
From stdpp Require Import base option list gmap strings pretty.
Import ListNotations.


(** ** Exceptions *)

Inductive exn : Type :=
| ReError (msg : string)          (* re.error *)
| OverflowError (msg : string)
| RecursionError (msg : string)
| ValueError (msg : string)
| OSError (msg : string)          (* FileNotFoundError, PermissionError, ... *)
| KeyError (msg : string)
| BadArchive (msg : string).      (* zipfile.BadZipFile, tarfile.ReadError *)

(** [str(e)] *)
Definition exn_str (e : exn) : string :=
  match e with
  | ReError m | OverflowError m | RecursionError m | ValueError m | OSError m
  | KeyError m | BadArchive m => m
  end.

(** ** Characters and [str] methods *)

Definition code (c : ascii) : N := N_of_ascii c.

Definition in_range (lo hi : N) (c : ascii) : bool :=
  ((lo <=? code c) && (code c <=? hi))%N.

(** One byte of the encoding: an ASCII character, or a continuation of a
    character of several bytes. *)
Definition is_ascii (c : ascii) : bool := (code c <? 128)%N.
Definition is_cont (c : ascii) : bool := in_range 128 191 c.

(** The text has ASCII characters only. *)
Fixpoint is_ascii_str (s : string) : bool :=
  match s with
  | String c s' => is_ascii c && is_ascii_str s'
  | EmptyString => true
  end.

(** [len(s)]: the continuations do not count. *)
Fixpoint str_len (s : string) : nat :=
  match s with
  | String c s' => (if is_cont c then 0 else 1) + str_len s'
  | EmptyString => 0
  end.

(** The ASCII letters and digits. *)
Definition is_upper (c : ascii) : bool := in_range 65 90 c.
Definition is_lower (c : ascii) : bool := in_range 97 122 c.
Definition is_digit (c : ascii) : bool := in_range 48 57 c.
Definition is_alpha (c : ascii) : bool := is_upper c || is_lower c.
Definition is_alnum (c : ascii) : bool := is_upper c || is_lower c || is_digit c.

(** The class [\w] among the ASCII characters: letters, digits and the
    underscore. *)
Definition is_word (c : ascii) : bool := is_alnum c || (code c =? 95)%N.

(** The lower case of an ASCII character. *)
Definition lower (c : ascii) : ascii :=
  if is_upper c then ascii_of_N (code c + 32) else c.

(** White space, as [str.isspace] and [str.strip] have it.  In one byte:
    TAB..CR, FS..US and the space.  In two: U+0085 and U+00A0.  In three:
    U+1680, U+2000..U+200A, U+2028, U+2029, U+202F, U+205F and U+3000. *)
Definition is_space (c : ascii) : bool :=
  in_range 9 13 c || in_range 28 32 c.

Definition is_space2 (c d : ascii) : bool :=
  (code c =? 194)%N && ((code d =? 133) || (code d =? 160))%N.

Definition is_space3 (c d e : ascii) : bool :=
  ((code c =? 225) && (code d =? 154) && (code e =? 128))%N ||
  ((code c =? 226) && (code d =? 128) &&
   (in_range 128 138 e || in_range 168 169 e || (code e =? 175)))%N ||
  ((code c =? 226) && (code d =? 129) && (code e =? 159))%N ||
  ((code c =? 227) && (code d =? 128) && (code e =? 128))%N.

Definition LF : ascii := ascii_of_N 10.
Definition CR : ascii := ascii_of_N 13.
Definition is_LF (c : ascii) : bool := (code c =? 10)%N.
Definition is_CR (c : ascii) : bool := (code c =? 13)%N.

(** The line boundaries of [str.splitlines] other than CR.  In one byte:
    LF, VT, FF, FS, GS, RS.  In two: U+0085.  In three: U+2028, U+2029. *)
Definition is_linebreak (c : ascii) : bool :=
  in_range 10 12 c || in_range 28 30 c.

Definition is_linebreak2 (c d : ascii) : bool :=
  ((code c =? 194) && (code d =? 133))%N.

Definition is_linebreak3 (c d e : ascii) : bool :=
  ((code c =? 226) && (code d =? 128))%N && in_range 168 169 e.

(** [s.lstrip()] *)
Fixpoint lstrip (s : string) : string :=
  match s with
  | String c s1 =>
      if is_space c then lstrip s1
      else
        match s1 with
        | String d s2 =>
            if is_space2 c d then lstrip s2
            else
              match s2 with
              | String e s3 => if is_space3 c d e then lstrip s3 else s
              | EmptyString => s
              end
        | EmptyString => s
        end
  | EmptyString => EmptyString
  end.

(** The text is made of white space only. *)
Definition all_space (s : string) : bool := String.eqb (lstrip s) EmptyString.

(** [s.rstrip()]: the text is cut where only white space follows. *)
Fixpoint rstrip (s : string) : string :=
  match s with
  | String c s' => if all_space s then EmptyString else String c (rstrip s')
  | EmptyString => EmptyString
  end.

(** [s.strip()] *)
Definition strip (s : string) : string := rstrip (lstrip s).

(** [s[:n]]: the first [n] characters, each with its continuations. *)
Fixpoint str_take (n : nat) (s : string) : string :=
  match s with
  | String c s' =>
      if is_cont c then String c (str_take n s')
      else
        match n with
        | S n' => String c (str_take n' s')
        | O => EmptyString
        end
  | EmptyString => EmptyString
  end.

(** [s.startswith(p)] *)
Fixpoint startswith (p s : string) : bool :=
  match p, s with
  | EmptyString, _ => true
  | String a p', String b s' => Ascii.eqb a b && startswith p' s'
  | String _ _, EmptyString => false
  end.

(** [s.endswith(p)] *)
Fixpoint endswith (p s : string) : bool :=
  String.eqb p s ||
  match s with
  | String _ s' => endswith p s'
  | EmptyString => false
  end.

(** ["".join(lines)] *)
Definition str_join (lines : list string) : string :=
  fold_right String.append EmptyString lines.

(** [s.replace(old, new)].  [skip] counts the bytes of the occurrence of
    [old] just replaced that are still to be passed over. *)
Fixpoint replace_go (old new : string) (skip : nat) (s : string) : string :=
  match s with
  | EmptyString => EmptyString
  | String c s' =>
      match skip with
      | S k => replace_go old new k s'
      | O =>
          if startswith old s
          then new +:+ replace_go old new (String.length old - 1) s'
          else String c (replace_go old new O s')
      end
  end.

(** With an empty [old], Python puts [new] before every character and at
    the end. *)
Fixpoint replace_empty (new s : string) : string :=
  match s with
  | EmptyString => new
  | String c s' =>
      if is_cont c then String c (replace_empty new s')
      else new +:+ String c (replace_empty new s')
  end.

Definition str_replace (old new s : string) : string :=
  match old with
  | EmptyString => replace_empty new s
  | _ => replace_go old new O s
  end.

(** Universal newlines of a file opened in text mode: CR LF and a lone CR
    are read as LF. *)
Fixpoint universal_newlines (s : string) : string :=
  match s with
  | EmptyString => EmptyString
  | String c s' =>
      if is_CR c then
        match s' with
        | String d s'' =>
            if is_LF d then String LF (universal_newlines s'')
            else String LF (universal_newlines s')
        | EmptyString => String LF EmptyString
        end
      else String c (universal_newlines s')
  end.

(** Puts [c] in front of the first line of [ls]. *)
Definition cons_line (c : ascii) (ls : list string) : list string :=
  match ls with
  | [] => [String c EmptyString]
  | l :: ls' => String c l :: ls'
  end.

(** [f.readlines()] once the newlines are translated: the text is cut after
    every LF, which stays on its line. *)
Fixpoint lines_keepends (s : string) : list string :=
  match s with
  | EmptyString => []
  | String c s' =>
      if is_LF c then String c EmptyString :: lines_keepends s'
      else cons_line c (lines_keepends s')
  end.

(** The end of a line, as it stays on the line with [keepends]. *)
Definition line_end (keepends : bool) (ending : string) : string :=
  if keepends then ending else EmptyString.

(** [s.splitlines(keepends)] *)
Fixpoint splitlines (keepends : bool) (s : string) : list string :=
  match s with
  | EmptyString => []
  | String c s1 =>
      if is_CR c then
        match s1 with
        | String d s2 =>
            if is_LF d
            then line_end keepends (String c (String d EmptyString))
                   :: splitlines keepends s2
            else line_end keepends (String c EmptyString)
                   :: splitlines keepends s1
        | EmptyString => [line_end keepends (String c EmptyString)]
        end
      else if is_linebreak c then
        line_end keepends (String c EmptyString) :: splitlines keepends s1
      else
        match s1 with
        | String d s2 =>
            if is_linebreak2 c d then
              line_end keepends (String c (String d EmptyString))
                :: splitlines keepends s2
            else
              match s2 with
              | String e s3 =>
                  if is_linebreak3 c d e then
                    line_end keepends
                      (String c (String d (String e EmptyString)))
                      :: splitlines keepends s3
                  else cons_line c (splitlines keepends s1)
              | EmptyString => cons_line c (splitlines keepends s1)
              end
        | EmptyString => cons_line c (splitlines keepends s1)
        end
  end.

(** [s.split(sep)] for a separator of one ASCII character. *)
Fixpoint str_split (sep : ascii) (s : string) : list string :=
  match s with
  | EmptyString => [EmptyString]
  | String c s' =>
      if Ascii.eqb c sep then EmptyString :: str_split sep s'
      else cons_line c (str_split sep s')
  end.

(** [sep.join(parts)] *)
Fixpoint str_join_with (sep : string) (parts : list string) : string :=
  match parts with
  | [] => EmptyString
  | [x] => x
  | x :: rest => x +:+ sep +:+ str_join_with sep rest
  end.

(** *** The UTF-8 codec *)

Definition byte_code (b : Byte.byte) : N := Byte.to_N b.

Definition byte_in (lo hi : N) (b : Byte.byte) : bool :=
  ((lo <=? byte_code b) && (byte_code b <=? hi))%N.

(** The second byte that a lead admits: a continuation, within the bounds
    that exclude the overlong forms (after E0 and F0), the surrogates
    (after ED) and what lies beyond U+10FFFF (after F4). *)
Definition second_ok (lead b : Byte.byte) : bool :=
  byte_in 128 191 b &&
  (if (byte_code lead =? 224)%N then (160 <=? byte_code b)%N
   else if (byte_code lead =? 237)%N then (byte_code b <? 160)%N
   else if (byte_code lead =? 240)%N then (144 <=? byte_code b)%N
   else if (byte_code lead =? 244)%N then (byte_code b <? 144)%N
   else true).

(** U+FFFD, the replacement character. *)
Definition REPLACEMENT : string :=
  String (ascii_of_N 239) (String (ascii_of_N 191) (String (ascii_of_N 189)
    EmptyString)).

Definition chr (b : Byte.byte) : ascii := ascii_of_byte b.

(** [bytes.decode("utf-8", errors="replace")]: a well-formed sequence is
    kept; of an ill-formed one the longest beginning of a well-formed
    sequence, or its first byte when there is none, becomes one U+FFFD, and
    decoding goes on after it. *)
Fixpoint decode (b : list Byte.byte) : string :=
  match b with
  | [] => EmptyString
  | b1 :: r1 =>
      if byte_in 0 127 b1 then String (chr b1) (decode r1)
      else if byte_in 194 223 b1 then
        match r1 with
        | b2 :: r2 =>
            if byte_in 128 191 b2
            then String (chr b1) (String (chr b2) (decode r2))
            else REPLACEMENT +:+ decode r1
        | [] => REPLACEMENT
        end
      else if byte_in 224 239 b1 then
        match r1 with
        | b2 :: r2 =>
            if second_ok b1 b2 then
              match r2 with
              | b3 :: r3 =>
                  if byte_in 128 191 b3
                  then String (chr b1) (String (chr b2) (String (chr b3)
                         (decode r3)))
                  else REPLACEMENT +:+ decode r2
              | [] => REPLACEMENT
              end
            else REPLACEMENT +:+ decode r1
        | [] => REPLACEMENT
        end
      else if byte_in 240 244 b1 then
        match r1 with
        | b2 :: r2 =>
            if second_ok b1 b2 then
              match r2 with
              | b3 :: r3 =>
                  if byte_in 128 191 b3 then
                    match r3 with
                    | b4 :: r4 =>
                        if byte_in 128 191 b4
                        then String (chr b1) (String (chr b2) (String (chr b3)
                               (String (chr b4) (decode r4))))
                        else REPLACEMENT +:+ decode r3
                    | [] => REPLACEMENT
                    end
                  else REPLACEMENT +:+ decode r2
              | [] => REPLACEMENT
              end
            else REPLACEMENT +:+ decode r1
        | [] => REPLACEMENT
        end
      else REPLACEMENT +:+ decode r1
  end.

(** The bytes of a text written with [encoding="utf-8"]. *)
Definition encode (s : string) : list Byte.byte := list_byte_of_string s.

(** ** The [re] module *)

(** The compiled form of a pattern of the literal fragment: the bytes of
    the characters to match and word-boundary assertions. *)
Inductive atom : Type :=
| AChar (c : ascii)
| AWordB.

(** The characters [re.escape] puts a backslash before (Python 3.7 and
    later): [()[]{}?*+-|^$\.&~#], space, TAB, LF, CR, VT, FF. *)
Definition re_special (c : ascii) : bool :=
  existsb (N.eqb (code c))
    [40; 41; 91; 93; 123; 125; 63; 42; 43; 45; 124; 94; 36; 92; 46; 38; 126; 35;
     32; 9; 10; 13; 11; 12]%N.

Definition backslash : ascii := ascii_of_N 92.

(** [re.escape(pattern)] *)
Fixpoint re_escape (s : string) : string :=
  match s with
  | EmptyString => EmptyString
  | String c s' =>
      if re_special c then String backslash (String c (re_escape s'))
      else String c (re_escape s')
  end.

(** The characters with a meaning of their own in a pattern. *)
Definition re_meta (c : ascii) : bool :=
  existsb (N.eqb (code c))
    [46; 94; 36; 42; 43; 63; 123; 125; 91; 93; 92; 124; 40; 41]%N.

(** The parser on the literal fragment: ordinary characters, a backslash
    before a character that is neither an ASCII letter nor a digit (that
    character, literally) and [\b].  [None]: the pattern is outside the
    fragment. *)
Fixpoint parse_atoms (s : string) : option (list atom) :=
  match s with
  | EmptyString => Some []
  | String c s' =>
      if (code c =? 92)%N then
        match s' with
        | String d s'' =>
            if (code d =? 98)%N then cons AWordB <$> parse_atoms s''
            else if is_alnum d then None
            else cons (AChar d) <$> parse_atoms s''
        | EmptyString => None
        end
      else if re_meta c then None
      else cons (AChar c) <$> parse_atoms s'
  end.

(** A compiled pattern: of the literal fragment, or one of the library's
    own ([X] is the library's type of those). *)
Inductive Pattern (X : Type) : Type :=
| PAtoms (atoms : list atom) (ignorecase : bool)
| PExt (x : X).
Arguments PAtoms {X} atoms ignorecase.
Arguments PExt {X} x.

(** What the repository takes from Python's libraries without defining it. *)
Class PyLib : Type := {
  (** compiled patterns outside the literal fragment *)
  ExtPattern : Type;
  (** [re.compile(pattern, flags)] outside the literal fragment, with the
      exception it raises: [re.error], or another one ([OverflowError] for
      a repetition count that is too large, [RecursionError]) *)
  ext_compile : string -> bool -> exn + ExtPattern;
  ext_search : ExtPattern -> string -> bool;
  (** [bool(regex.search(line))] for a pattern of the literal fragment when
      the outcome depends on characters outside ASCII: on their case
      folding or on whether they are word characters *)
  ext_search_atoms : list atom -> bool -> string -> bool;
  (** [regex.sub(repl, text)]: template expansion and the rule for empty
      matches are the library's *)
  re_sub : Pattern ExtPattern -> string -> string -> exn + string;
  (** [fnmatch.fnmatch(name, pat)] *)
  fnmatch : string -> string -> bool
}.

Abbreviation Regex := (Pattern ExtPattern).

(** [re.compile(pattern, flags)]; [ignorecase] is [flags == re.IGNORECASE]. *)
Definition re_compile `{PyLib} (pattern : string) (ignorecase : bool)
  : exn + Regex :=
  match parse_atoms pattern with
  | Some atoms => inr (PAtoms atoms ignorecase)
  | None =>
      match ext_compile pattern ignorecase with
      | inl e => inl e
      | inr x => inr (PExt x)
      end
  end.

(** Equality of two ASCII characters, up to case with [ignorecase]. *)
Definition char_eq (ignorecase : bool) (c d : ascii) : bool :=
  if ignorecase then Ascii.eqb (lower c) (lower d) else Ascii.eqb c d.

Definition word_before (prev : option ascii) : bool :=
  match prev with Some c => is_word c | None => false end.

Definition word_after (s : string) : bool :=
  match s with String c _ => is_word c | EmptyString => false end.

(** Matches the atoms at the current position; [prev] is the character
    before it, [s] the text from it on. *)
Fixpoint match_here (ignorecase : bool) (atoms : list atom)
  (prev : option ascii) (s : string) : bool :=
  match atoms with
  | [] => true
  | AChar c :: k =>
      match s with
      | String d s' => char_eq ignorecase c d && match_here ignorecase k (Some d) s'
      | EmptyString => false
      end
  | AWordB :: k =>
      xorb (word_before prev) (word_after s) && match_here ignorecase k prev s
  end.

Fixpoint search_from (ignorecase : bool) (atoms : list atom)
  (prev : option ascii) (s : string) : bool :=
  match_here ignorecase atoms prev s ||
  match s with
  | String c s' => search_from ignorecase atoms (Some c) s'
  | EmptyString => false
  end.

Definition is_wordb (a : atom) : bool :=
  match a with AWordB => true | AChar _ => false end.

(** The atom is an ASCII letter. *)
Definition atom_alpha (a : atom) : bool :=
  match a with AChar c => is_alpha c | AWordB => false end.

(** The atom is a byte of a character outside ASCII. *)
Definition atom_non_ascii (a : atom) : bool :=
  match a with AChar c => negb (is_ascii c) | AWordB => false end.

(** Whether the search of [atoms] in [line] depends on characters outside
    ASCII otherwise than by their equality.  A word boundary looks at the
    word class of the characters of the line.  With [ignorecase] a cased
    character of the pattern is compared up to case folding, and an ASCII
    letter has folded forms outside ASCII: a character of the pattern
    outside ASCII may be cased, and an ASCII letter of the pattern may
    match a character of the line outside ASCII. *)
Definition unicode_dependent (atoms : list atom) (ignorecase : bool)
  (line : string) : bool :=
  (existsb is_wordb atoms && negb (is_ascii_str line)) ||
  (ignorecase &&
   (existsb atom_non_ascii atoms ||
    (existsb atom_alpha atoms && negb (is_ascii_str line)))).

(** [bool(regex.search(line))].  A pattern of the literal fragment is
    searched byte by byte, which on UTF-8 is character by character, unless
    the outcome depends on the Unicode tables of the library. *)
Definition re_search `{PyLib} (regex : Regex) (line : string) : bool :=
  match regex with
  | PAtoms atoms ignorecase =>
      if unicode_dependent atoms ignorecase line
      then ext_search_atoms atoms ignorecase line
      else search_from ignorecase atoms None line
  | PExt x => ext_search x line
  end.

(** ** Results of calls that can raise *)

#[global] Instance exn_ret : MRet (sum exn) := fun A a => inr a.
#[global] Instance exn_bind : MBind (sum exn) := fun A B f m =>
  match m with
  | inl e => inl e
  | inr a => f a
  end.

(** ** The file system *)

(** [Path(parent) / name] *)
Record Path : Type := { parent : string; name : string }.

#[global] Instance Path_eq_dec : EqDecision Path.
Proof. solve_decision. Defined.

#[global] Instance Path_countable : Countable Path :=
  inj_countable' (fun p => (parent p, name p))
                 (fun q => {| parent := q.1; name := q.2 |})
                 (fun p => match p with Build_Path _ _ => eq_refl end).

(** [os.path.join(top, n)] for a name [n] of a directory entry: a slash
    is put between the two unless [top] is empty or ends with one. *)
Definition path_join (top n : string) : string :=
  if String.eqb top EmptyString || endswith "/" top then top +:+ n
  else top +:+ "/" +:+ n.

(** [str(Path(s))]: [pathlib] drops the empty components and the
    components ["."], keeps one leading slash, or two when there are
    exactly two, and writes the empty path ["."]. *)
Definition pathlib_str (s : string) : string :=
  let parts :=
    List.filter (fun x => negb (String.eqb x EmptyString || String.eqb x "."))
      (str_split "/" s) in
  let anchor :=
    if startswith "//" s && negb (startswith "///" s) then "//"
    else if startswith "/" s then "/"
    else EmptyString in
  match anchor, parts with
  | EmptyString, [] => "."
  | _, _ => anchor +:+ str_join_with "/" parts
  end.

(** [str(path)] *)
Definition path_str (p : Path) : string :=
  if String.eqb (parent p) "." then name p else path_join (parent p) (name p).

(** The text from the last dot of [s] on, when [s] has a dot. *)
Fixpoint last_dot (s : string) : option string :=
  match s with
  | EmptyString => None
  | String c s' =>
      match last_dot s' with
      | Some r => Some r
      | None => if (code c =? 46)%N then Some s else None
      end
  end.

(** [path.suffix]: from the last dot of the name on, when that dot is
    neither the first nor the last character. *)
Definition path_suffix (p : Path) : string :=
  match name p with
  | EmptyString => EmptyString
  | String _ rest =>
      match last_dot rest with
      | Some (String d (String e r)) => String d (String e r)
      | _ => EmptyString
      end
  end.

(** [path.with_suffix(path.suffix + ext)], for an [ext] that starts with a
    dot: the name followed by [ext]; a path without a name is refused. *)
Definition with_added_suffix (p : Path) (ext : string) : exn + Path :=
  match name p with
  | EmptyString => inl (ValueError "has an empty name")
  | n => inr {| parent := parent p; name := n +:+ ext |}
  end.

(** What [zipfile] and [tarfile] read in a file: the members in order, a
    zip member with its bytes, a tar member with its bytes when it is a
    regular file. *)
Inductive archive : Type :=
| NoArchive
| Zip (entries : list (string * list Byte.byte))
| Tar (entries : list (string * option (list Byte.byte))).

(** A file: the size [stat] reports, whether it can be opened for reading,
    its bytes, and its members when it is an archive. *)
Record file : Type := {
  st_size : Z;
  readable : bool;
  data : list Byte.byte;
  arch : archive
}.

(** A file as [open(..., "w", encoding="utf-8")] leaves it; a newline is
    written as it is, as on POSIX. *)
Definition text_file (content : string) : file :=
  {| st_size := Z.of_nat (length (encode content));
     readable := true;
     data := encode content;
     arch := NoArchive |}.

Abbreviation FS := (gmap Path file).

(** [path.stat().st_size] *)
Definition stat_size (fs : FS) (p : Path) : exn + Z :=
  match fs !! p with
  | Some f => inr (st_size f)
  | None => inl (OSError "No such file or directory")
  end.

(** Opening for reading: the file, or the error. *)
Definition open_read (fs : FS) (p : Path) : exn + file :=
  match fs !! p with
  | Some f => if readable f then inr f else inl (OSError "Permission denied")
  | None => inl (OSError "No such file or directory")
  end.

(** [zipfile.ZipFile(path)] *)
Definition zip_open (fs : FS) (p : Path) : exn + list (string * list Byte.byte) :=
  f ← open_read fs p;
  match arch f with
  | Zip entries => inr entries
  | _ => inl (BadArchive "File is not a zip file")
  end.

(** [tarfile.open(path)] *)
Definition tar_open (fs : FS) (p : Path)
  : exn + list (string * option (list Byte.byte)) :=
  f ← open_read fs p;
  match arch f with
  | Tar entries => inr entries
  | _ => inl (BadArchive "file could not be opened successfully")
  end.

(** The member of that name: the last one when the name is repeated. *)
Fixpoint get_member {A} (entries : list (string * A)) (member : string) : option A :=
  match entries with
  | [] => None
  | (n, a) :: rest =>
      match get_member rest member with
      | Some b => Some b
      | None => if String.eqb n member then Some a else None
      end
  end.

(** [z.open(member).read()] *)
Definition zip_read (entries : list (string * list Byte.byte)) (member : string)
  : exn + list Byte.byte :=
  match get_member entries member with
  | Some b => inr b
  | None => inl (KeyError "There is no item named in the archive")
  end.

(** [t.extractfile(member)]: [None] for a member that is not a regular
    file. *)
Definition tar_extractfile (entries : list (string * option (list Byte.byte)))
  (member : string) : exn + option (list Byte.byte) :=
  match get_member entries member with
  | Some b => inr b
  | None => inl (KeyError "filename not found")
  end.

(** [info.is_dir()] *)
Definition zip_is_dir (filename : string) : bool := endswith "/" filename.

(** The directories [os.walk] sees: the sub-directories in listing order,
    each with its name and whether it is a symbolic link, and the names of
    the other entries. *)
Inductive dirtree : Type :=
| Dir (subdirs : list subdir) (files : list string)
with subdir : Type :=
| Sub (n : string) (link : bool) (t : dirtree).

(** [os.walk(top, followlinks)] with the pruning of the caller, which keeps
    the directory names satisfying [keep]: the pairs (dirpath, filenames) in
    the order they are yielded. *)
Fixpoint os_walk (followlinks : bool) (keep : string -> bool) (top : string)
  (t : dirtree) : list (string * list string) :=
  match t with
  | Dir subdirs files =>
      (top, files) ::
      (fix go (l : list subdir) : list (string * list string) :=
         match l with
         | [] => []
         | Sub n link sub :: l' =>
             (if keep n && (followlinks || negb link)
              then os_walk followlinks keep (path_join top n) sub
              else []) ++ go l'
         end) subdirs
  end.

(** ** utils.py: is_binary_file *)

Definition is_NUL (b : Byte.byte) : bool := Byte.eqb b Byte.x00.

(** [is_binary_file(path, block_size)] *)
Definition is_binary_file (fs : FS) (path : Path) (block_size : nat) : bool :=
  match open_read fs path with
  | inr f => existsb is_NUL (firstn block_size (data f))
  | inl _ => true
  end.

(** ** core.py: the search engine *)

(** [Match] *)
Record Match : Type := {
  path : Path;
  line_no : nat;
  preview : string;
  is_archive : bool;
  member : option string
}.

(** [SearchStats], without the start time. *)
Record SearchStats : Type := {
  scanned_files : Z;
  total_candidates : Z;
  matches_found : Z
}.

(** The [opts] dictionary.  A flag that is absent reads as false with
    [opts.get]; [text] and [max_matches] have defaults of their own. *)
Record Opts : Type := {
  o_text : option string;
  o_case : bool;
  o_regex : bool;
  o_whole_word : bool;
  o_include_hidden : bool;
  o_use_default_ignores : bool;
  o_follow_symlinks : bool;
  o_search_archives : bool;
  o_max_matches : option Z
}.

Definition MAX_FILE_SIZE_MB : Z := 10.
Definition DEFAULT_MAX_MATCHES : Z := 5000.

(** A unit of work: [(path, is_archive, member)]. *)
Definition candidate : Type := Path * bool * option string.

(** The events put on [out_q].  [progress] and [done] carry the one
    [SearchStats] object of the engine, not a copy of it: its value is the
    one in the state. *)
Inductive event : Type :=
| EvProgress
| EvMatch (m : Match)
| EvWarn (msg : string)
| EvDone.

(** The lines of an archive member, as [_search_content] ([keepends] unset)
    and [read_file_lines] ([keepends] set) read them. *)
Definition archive_member_lines (fs : FS) (path : Path) (member : option string)
  (keepends : bool) : exn + list string :=
  if String.eqb (path_suffix path) ".zip" then
    z ← zip_open fs path;
    m ← from_option inr (inl (KeyError "None")) member;
    b ← zip_read z m;
    mret (splitlines keepends (decode b))
  else if endswith "tar.gz" (path_str path) || endswith ".tgz" (path_str path) then
    t ← tar_open fs path;
    m ← from_option inr (inl (KeyError "None")) member;
    f ← tar_extractfile t m;
    match f with
    | Some b => mret (splitlines keepends (decode b))
    | None => mret []
    end
  else mret [].

(** The stop event as one worker sees it: [Some k] when the event is set
    by the time of the worker's check number [k] (from 0), [None] when the
    worker never sees it set.  Once set the event stays set. *)
Definition stop_is_set (stop_at : option nat) : bool :=
  match stop_at with
  | Some O => true
  | _ => false
  end.

Definition stop_tick (stop_at : option nat) : option nat :=
  match stop_at with
  | Some (S k) => Some k
  | other => other
  end.

Module SearchEngine.
Section WithLib.
Context `{PyLib}.

(** The attributes fixed by [__init__].  The stop event and the statistics,
    which change, are in the state of [run]. *)
Record t : Type := {
  root : string;
  opts : Opts;
  include : list string;
  exclude : list string;
  regex : Regex
}.

Definition __init__ (root : string) (opts : Opts) (include exclude : list string)
  : exn + t :=
  let ignorecase := negb (o_case opts) in
  let pattern := default EmptyString (o_text opts) in
  let compiled :=
    if o_regex opts then re_compile pattern ignorecase
    else if o_whole_word opts then
      re_compile ("\b" +:+ re_escape pattern +:+ "\b") ignorecase
    else re_compile (re_escape pattern) ignorecase in
  match compiled with
  | inr rx =>
      inr {| root := root; opts := opts; include := include;
             exclude := exclude; regex := rx |}
  | inl (ReError e) => inl (ValueError ("Invalid regex: " +:+ e))
  | inl e => inl e
  end.

Definition _matches_globs (self : t) (name : string) : bool :=
  if negb (bool_decide (include self = [])) &&
     negb (existsb (fnmatch name) (include self))
  then false
  else if existsb (fnmatch name) (exclude self) then false
  else true.

Definition mk_match (path : Path) (is_archive : bool) (member : option string)
  (i : nat) (line : string) : Match :=
  {| path := path; line_no := i; preview := str_take 200 (strip line);
     is_archive := is_archive; member := member |}.

(** The loop over [enumerate(lines, start=1)], from line number [i] on. *)
Fixpoint search_lines (self : t) (path : Path) (is_archive : bool)
  (member : option string) (stop_at : option nat) (i : nat)
  (lines : list string) : list Match :=
  match lines with
  | [] => []
  | line :: rest =>
      if stop_is_set stop_at then []
      else
        (if re_search (regex self) line
         then [mk_match path is_archive member i line]
         else [])
        ++ search_lines self path is_archive member (stop_tick stop_at) (S i) rest
  end.

(** The body of the [try] of [_search_content]: the exception that leaves
    it, or the value of [matches] when it ends or returns. *)
Definition search_body (self : t) (fs : FS) (path : Path) (is_archive : bool)
  (member : option string) (stop_at : option nat) : exn + list Match :=
  if is_archive then
    lines ← archive_member_lines fs path member false;
    mret (search_lines self path is_archive member stop_at 1 lines)
  else
    size ← stat_size fs path;
    if (size >? MAX_FILE_SIZE_MB * 1024 * 1024)%Z then mret []
    else if is_binary_file fs path 1024 then mret []
    else
      f ← open_read fs path;
      mret (search_lines self path is_archive member stop_at 1
              (lines_keepends (universal_newlines (decode (data f))))).

(** [_search_content]: an exception can only leave the body before the
    loop starts, when [matches] is still empty. *)
Definition _search_content (self : t) (fs : FS) (path : Path) (is_archive : bool)
  (member : option string) (stop_at : option nat) : list Match :=
  match search_body self fs path is_archive member stop_at with
  | inr matches => matches
  | inl _ => []
  end.

(** *** The scan phase of [run] *)

Definition default_ignores : list string :=
  [".git"; "venv"; "__pycache__"; "node_modules"; ".idea"; ".vscode"].

(** The two prunings of [dirnames]. *)
Definition keep_dir (self : t) (d : string) : bool :=
  (o_include_hidden (opts self) || negb (startswith "." d)) &&
  (negb (o_use_default_ignores (opts self)) ||
   negb (existsb (String.eqb d) default_ignores)).

Definition is_archive_name (name : string) : bool :=
  endswith ".zip" name || endswith ".tar.gz" name || endswith ".tgz" name.

(** The members listed for an archive; an error while listing is
    swallowed. *)
Definition archive_candidates (self : t) (fs : FS) (path : Path) : list candidate :=
  if endswith ".zip" (name path) then
    match zip_open fs path with
    | inr entries =>
        omap (fun e : string * list Byte.byte =>
                if negb (zip_is_dir e.1) && _matches_globs self e.1
                then Some (path, true, Some e.1) else None) entries
    | inl _ => []
    end
  else [].

(** The body of [for name in filenames]; [path] is [Path(dirpath) / name]. *)
Definition file_candidates (self : t) (fs : FS) (dirpath name : string)
  : list candidate :=
  if negb (o_include_hidden (opts self)) && startswith "." name then []
  else if negb (_matches_globs self name) then []
  else
    let path := {| parent := pathlib_str dirpath; name := name |} in
    (path, false, None) ::
    (if o_search_archives (opts self) && is_archive_name name
     then archive_candidates self fs path else []).

(** The scan phase.  [scan_stop = Some k]: the stop event is found set at
    the top of iteration [k] of the walk, which ends there. *)
Definition scan (self : t) (fs : FS) (tree : dirtree) (scan_stop : option nat)
  : list candidate :=
  let dirs := os_walk (o_follow_symlinks (opts self)) (keep_dir self)
                (root self) tree in
  let visited := match scan_stop with
                 | Some k => take k dirs
                 | None => dirs
                 end in
  concat (map (fun d : string * list string =>
                 concat (map (file_candidates self fs d.1) d.2)) visited).

(** *** The execution phase of [run] *)

(** A future of the pool: its candidate, its result once the worker has
    returned, and whether [as_completed] has handed it to the loop. *)
Record future : Type := {
  f_cand : candidate;
  f_result : option (list Match);
  f_yielded : bool
}.

Inductive phase : Type :=
| Looping      (* in [for f in as_completed(futures)] *)
| Draining     (* the loop is left; the pool is shutting down *)
| Finished.    (* [done] is on the queue *)

Record state : Type := {
  stop_event : bool;
  futures : list future;
  stats : SearchStats;
  out_q : list event;
  phase_of : phase
}.

(** What can happen next.  Every future is submitted before the loop
    starts, so no action submits one. *)
Inductive action : Type :=
| Complete (i : nat) (stop_at : option nat)  (* worker [i] returns *)
| Yield (i : nat)          (* [as_completed] yields future [i]; loop body *)
| Exhaust                  (* [as_completed] has nothing left to yield *)
| Shutdown                 (* the pool has joined its workers; [done] *)
| ExternalStop.            (* the owner of the stop event sets it *)

Definition max_matches_of (self : t) : Z :=
  default DEFAULT_MAX_MATCHES (o_max_matches (opts self)).

Definition warn_msg (max_matches : Z) : string :=
  "Max matches (" +:+ pretty max_matches +:+ ") reached. Search stopped.".

Definition search_candidate (self : t) (fs : FS) (c : candidate)
  (stop_at : option nat) : list Match :=
  _search_content self fs c.1.1 c.1.2 c.2 stop_at.

Definition set_result (f : future) (r : list Match) : future :=
  {| f_cand := f_cand f; f_result := Some r; f_yielded := f_yielded f |}.

Definition set_yielded (f : future) : future :=
  {| f_cand := f_cand f; f_result := f_result f; f_yielded := true |}.

(** One iteration of the body of the [as_completed] loop on a future whose
    result is [res].  The body reads the stop event once, at its top, and
    nothing else that another thread writes: a stop request that arrives
    while the body runs changes nothing of what the body does, and is the
    [ExternalStop] that follows this step. *)
Definition loop_body (self : t) (i : nat) (f : future) (res : list Match)
  (s : state) : state :=
  if stop_event s then
    {| stop_event := stop_event s; futures := futures s; stats := stats s;
       out_q := out_q s; phase_of := Draining |}
  else if (matches_found (stats s) >=? max_matches_of self)%Z then
    {| stop_event := true; futures := futures s; stats := stats s;
       out_q := out_q s ++ [EvWarn (warn_msg (max_matches_of self))];
       phase_of := Draining |}
  else
    let scanned := (scanned_files (stats s) + 1)%Z in
    let q1 := if (scanned mod 50 =? 0)%Z then out_q s ++ [EvProgress] else out_q s in
    let found := match res with
                 | [] => matches_found (stats s)
                 | _ => (matches_found (stats s) + Z.of_nat (length res))%Z
                 end in
    {| stop_event := false;
       futures := <[i := set_yielded f]> (futures s);
       stats := {| scanned_files := scanned;
                   total_candidates := total_candidates (stats s);
                   matches_found := found |};
       out_q := q1 ++ map EvMatch res;
       phase_of := Looping |}.

(** One step of the execution phase; [None] when the action cannot happen
    in that state.  A worker that returns while the stop event is not set
    has never seen it set.  A worker can always return: the files are
    regular files, and reading one ends. *)
Definition run_step (self : t) (fs : FS) (a : action) (s : state) : option state :=
  match a with
  | Complete i stop_at =>
      f ← futures s !! i;
      match f_result f with
      | Some _ => None
      | None =>
          if stop_event s || bool_decide (stop_at = None) then
            Some {| stop_event := stop_event s;
                    futures := <[i := set_result f
                                   (search_candidate self fs (f_cand f) stop_at)]>
                                 (futures s);
                    stats := stats s; out_q := out_q s; phase_of := phase_of s |}
          else None
      end
  | Yield i =>
      match phase_of s with
      | Looping =>
          f ← futures s !! i;
          res ← f_result f;
          if f_yielded f then None else Some (loop_body self i f res s)
      | _ => None
      end
  | Exhaust =>
      match phase_of s with
      | Looping =>
          if forallb f_yielded (futures s) then
            Some {| stop_event := stop_event s; futures := futures s;
                    stats := stats s; out_q := out_q s; phase_of := Draining |}
          else None
      | _ => None
      end
  | Shutdown =>
      match phase_of s with
      | Draining =>
          if forallb (fun f => bool_decide (is_Some (f_result f))) (futures s) then
            Some {| stop_event := stop_event s; futures := futures s;
                    stats := stats s; out_q := out_q s ++ [EvDone];
                    phase_of := Finished |}
          else None
      | _ => None
      end
  | ExternalStop =>
      Some {| stop_event := true; futures := futures s; stats := stats s;
              out_q := out_q s; phase_of := phase_of s |}
  end.

Definition submit (c : candidate) : future :=
  {| f_cand := c; f_result := None; f_yielded := false |}.

(** [run] up to the start of the [as_completed] loop: the scan, the first
    [progress] event and the submission of every candidate. *)
Definition run_start (self : t) (fs : FS) (tree : dirtree) (scan_stop : option nat)
  : state :=
  let candidates := scan self fs tree scan_stop in
  {| stop_event := bool_decide (is_Some scan_stop);
     futures := map submit candidates;
     stats := {| scanned_files := 0;
                 total_candidates := Z.of_nat (length candidates);
                 matches_found := 0 |};
     out_q := [EvProgress];
     phase_of := Looping |}.

Fixpoint run_steps (self : t) (fs : FS) (acts : list action) (s : state)
  : option state :=
  match acts with
  | [] => Some s
  | a :: rest => s' ← run_step self fs a s; run_steps self fs rest s'
  end.

(** [run] under a schedule: the state it reaches, when the schedule is one
    the program can follow. *)
Definition run (self : t) (fs : FS) (tree : dirtree) (scan_stop : option nat)
  (acts : list action) : option state :=
  run_steps self fs acts (run_start self fs tree scan_stop).

End WithLib.
End SearchEngine.

(** ** utils.py: atomic_write and read_file_lines *)

(** Calls that change the file system and can raise. *)
Definition IO (A : Type) : Type := FS -> FS * (exn + A).

#[global] Instance IO_ret : MRet IO := fun A a fs => (fs, inr a).
#[global] Instance IO_bind : MBind IO := fun A B f m fs =>
  match m fs with
  | (fs', inr a) => f a fs'
  | (fs', inl e) => (fs', inl e)
  end.

Definition raise {A} (e : exn) : IO A := fun fs => (fs, inl e).

Definition lift {A} (r : exn + A) : IO A := fun fs => (fs, r).

(** [try: m except Exception as e: h e] *)
Definition try_except {A} (m : IO A) (h : exn -> IO A) : IO A := fun fs =>
  match m fs with
  | (fs', inl e) => h e fs'
  | ok => ok
  end.

(** What the operating system decides during one call of [atomic_write]:
    the name of the temporary file, and for each operation whether it fails
    and with which error.  A write that fails leaves the text that reached
    the temporary file; a copy that fails leaves what it wrote of the
    backup, if anything. *)
Record os_env : Type := {
  temp_name : string;
  create_fault : option exn;
  write_fault : option (exn * string);
  copy_fault : option (exn * option file);
  replace_fault : option exn;
  remove_fault : option exn
}.

(** [tempfile.NamedTemporaryFile(mode="w", dir=dir, delete=False)]: a new,
    empty file; a name that is taken is refused. *)
Definition named_temporary_file (env : os_env) (dir : string) : IO Path := fun fs =>
  let tmp := {| parent := dir; name := temp_name env |} in
  match create_fault env with
  | Some e => (fs, inl e)
  | None =>
      match fs !! tmp with
      | Some _ => (fs, inl (OSError "No usable temporary file name found"))
      | None => (<[tmp := text_file EmptyString]> fs, inr tmp)
      end
  end.

(** [tf.write(content)] and the closing of [tf]. *)
Definition tf_write (env : os_env) (tmp : Path) (content : string) : IO unit := fun fs =>
  match write_fault env with
  | Some (e, written) => (<[tmp := text_file written]> fs, inl e)
  | None => (<[tmp := text_file content]> fs, inr ())
  end.

(** [path.exists()], [os.path.exists(path)] *)
Definition path_exists (p : Path) : IO bool := fun fs =>
  (fs, inr (bool_decide (is_Some (fs !! p)))).

(** [shutil.copy2(src, dst)]; [dst] names a file of its own or nothing,
    since there are no links. *)
Definition shutil_copy2 (env : os_env) (src dst : Path) : IO unit := fun fs =>
  match copy_fault env with
  | Some (e, Some partial) => (<[dst := partial]> fs, inl e)
  | Some (e, None) => (fs, inl e)
  | None =>
      match open_read fs src with
      | inr f => (<[dst := f]> fs, inr ())
      | inl e => (fs, inl e)
      end
  end.

(** [os.replace(src, dst)] *)
Definition os_replace (env : os_env) (src dst : Path) : IO unit := fun fs =>
  match replace_fault env with
  | Some e => (fs, inl e)
  | None =>
      match fs !! src with
      | Some f => (<[dst := f]> (delete src fs), inr ())
      | None => (fs, inl (OSError "No such file or directory"))
      end
  end.

(** [os.remove(path)] *)
Definition os_remove (env : os_env) (p : Path) : IO unit := fun fs =>
  match remove_fault env with
  | Some e => (fs, inl e)
  | None =>
      match fs !! p with
      | Some _ => (delete p fs, inr ())
      | None => (fs, inl (OSError "No such file or directory"))
      end
  end.

(** The [try] block of [atomic_write]. *)
Definition backup_and_rename (env : os_env) (path temp : Path) (make_backup : bool)
  : IO unit :=
  (if make_backup then
     ex ← path_exists path;
     if ex : bool then
       bak_path ← lift (with_added_suffix path ".bak");
       shutil_copy2 env path bak_path
     else mret ()
   else mret ());;
  os_replace env temp path.

(** The [except] block of [atomic_write]. *)
Definition cleanup_and_reraise (env : os_env) (temp : Path) (e : exn) : IO unit :=
  ex ← path_exists temp;
  (if ex : bool then os_remove env temp else mret ());;
  raise e.

Definition atomic_write (env : os_env) (path : Path) (content : string)
  (make_backup : bool) : IO unit :=
  temp ← named_temporary_file env (parent path);
  tf_write env temp content;;
  try_except (backup_and_rename env path temp make_backup)
             (cleanup_and_reraise env temp).

(** [read_file_lines(path, is_archive, member)] *)
Definition read_file_lines (fs : FS) (path : Path) (is_archive : bool)
  (member : option string) : list string :=
  let body : exn + list string :=
    if is_archive then archive_member_lines fs path member true
    else
      f ← open_read fs path;
      mret (lines_keepends (universal_newlines (decode (data f)))) in
  match body with
  | inr lines => lines
  | inl _ => []
  end.

(** ** ui.py: the replacement worker *)

(** [find_opts]: the four keys the dialog always sets. *)
Record FindOpts : Type := {
  f_text : string;
  f_case : bool;
  f_regex : bool;
  f_whole : bool
}.

(** The events put on [progress_q]. *)
Inductive revent : Type :=
| RStep (index : nat) (name : string)
| RError (msg : string)
| RDone (count : nat)
| RFatal (msg : string).

Module ReplacementWorker.
Section WithLib.
Context `{PyLib}.

(** The pattern [rx] compiled before the loop: none on the literal path. *)
Definition compile_rx (find_opts : FindOpts) : exn + option Regex :=
  let ignorecase := negb (f_case find_opts) in
  if f_regex find_opts then
    rx ← re_compile (f_text find_opts) ignorecase; mret (Some rx)
  else if f_whole find_opts then
    rx ← re_compile ("\b" +:+ re_escape (f_text find_opts) +:+ "\b") ignorecase;
    mret (Some rx)
  else mret None.

(** The new text of a file. *)
Definition substitute (rx : option Regex) (find_opts : FindOpts)
  (repl_text old_text : string) : exn + string :=
  match rx with
  | Some r => re_sub r repl_text old_text
  | None =>
      if f_case find_opts
      then mret (str_replace (f_text find_opts) repl_text old_text)
      else
        r ← re_compile (re_escape (f_text find_opts)) true;
        re_sub r repl_text old_text
  end.

(** The body of the inner [try], up to the [step] event: whether the file
    was written. *)
Definition replace_file (rx : option Regex) (find_opts : FindOpts)
  (repl_text : string) (backup : bool) (env : os_env) (path : Path) : IO bool :=
  fun fs =>
    let lines := read_file_lines fs path false None in
    let old_text := str_join lines in
    (new_text ← lift (substitute rx find_opts repl_text old_text);
     if bool_decide (new_text = old_text) then mret false
     else atomic_write env path new_text backup;; mret true) fs.

(** The loop over [enumerate(self.file_map.items())], from index [i] on;
    [envs k] is what the operating system decides for the file of
    index [k]. *)
Fixpoint replace_loop (rx : option Regex) (find_opts : FindOpts)
  (repl_text : string) (backup : bool) (envs : nat -> os_env) (i : nat)
  (items : list (string * Path)) (count : nat) (q : list revent) (fs : FS)
  : FS * nat * list revent :=
  match items with
  | [] => (fs, count, q)
  | (item_id, path) :: rest =>
      match replace_file rx find_opts repl_text backup (envs i) path fs with
      | (fs', inr changed) =>
          replace_loop rx find_opts repl_text backup envs (S i) rest
            (if changed : bool then S count else count)
            (q ++ [RStep (S i) (name path)]) fs'
      | (fs', inl e) =>
          replace_loop rx find_opts repl_text backup envs (S i) rest count
            (q ++ [RError (name path +:+ ": " +:+ exn_str e)]) fs'
      end
  end.

(** [run]: the file system it leaves and the events it puts. *)
Definition run (file_map : list (string * Path)) (find_opts : FindOpts)
  (repl_text : string) (backup : bool) (envs : nat -> os_env) (fs : FS)
  : FS * list revent :=
  match compile_rx find_opts with
  | inl e => (fs, [RFatal (exn_str e)])
  | inr rx =>
      let '(fs', count, q) :=
        replace_loop rx find_opts repl_text backup envs 0 file_map 0 [] fs in
      (fs', q ++ [RDone count])
  end.

End WithLib.
End ReplacementWorker.

(** ** ui.py: computations of the front end *)

(** [[p.strip() for p in text.split(";") if p.strip()]], the include and
    exclude lists of [_run_engine]. *)
Definition parse_globs (text : string) : list string :=
  List.filter (fun p => negb (String.eqb p EmptyString))
    (map strip (str_split ";" text)).

(** [_on_select] for the selected match [m]: the lines it puts in the
    preview pane, [None] when it returns before touching the pane. *)
Definition _on_select (fs : FS) (m : Match) : option (list string) :=
  let lines := read_file_lines fs (path m) (is_archive m) (member m) in
  match lines with
  | [] => None
  | _ =>
      let start := (line_no m - 5)%nat in
      let stop := Nat.min (length lines) (line_no m + 5) in
      Some (map (fun i =>
                   (if (S i =? line_no m)%nat then ">> " else "   ")
                   +:+ pretty (S i) +:+ ": " +:+ default EmptyString (lines !! i))
              (seq start (stop - start)))
  end.

(** The new text that [show_diff] compares with the old one in the replace
    dialog; the whole-word option plays no part in it. *)
Definition show_diff_new `{PyLib} (find_opts : FindOpts) (repl old : string)
  : exn + string :=
  if f_regex find_opts then
    rx ← re_compile (f_text find_opts) (negb (f_case find_opts));
    re_sub rx repl old
  else if f_case find_opts then mret (str_replace (f_text find_opts) repl old)
  else
    rx ← re_compile (re_escape (f_text find_opts)) true;
    re_sub rx repl old.

(** ** A sample library and sample data *)

(** Shell patterns with [*] and [?]. *)
Fixpoint glob (pat : list ascii) (s : list ascii) : bool :=
  match pat with
  | [] => bool_decide (s = [])
  | c :: pat' =>
      if (code c =? 42)%N then
        (fix star (s : list ascii) : bool :=
           glob pat' s ||
           match s with
           | [] => false
           | _ :: s' => star s'
           end) s
      else
        match s with
        | [] => false
        | d :: s' => ((code c =? 63)%N || Ascii.eqb c d) && glob pat' s'
        end
  end.

(** The first parenthesis that is never closed: its position. *)
Fixpoint unclosed (s : string) (pos : nat) (open : list nat) : option nat :=
  match s with
  | EmptyString => last open
  | String c s' =>
      if (code c =? 40)%N then unclosed s' (S pos) (open ++ [pos])
      else if (code c =? 41)%N then unclosed s' (S pos) (removelast open)
      else unclosed s' (S pos) open
  end.

(** The greatest number written in braces, as in [{m}] and [{m,n}]. *)
Fixpoint max_repeat (s : string) (inside : bool) (acc best : N) : N :=
  match s with
  | EmptyString => best
  | String c s' =>
      if (code c =? 123)%N then max_repeat s' true 0%N best
      else if inside && is_digit c then
        max_repeat s' true (acc * 10 + (code c - 48))%N
          (N.max best (acc * 10 + (code c - 48)))%N
      else if inside && (code c =? 44)%N then max_repeat s' true 0%N best
      else max_repeat s' false 0%N best
  end.

(** The repetition count [re] does not accept. *)
Definition MAXREPEAT : N := 4294967295.

(** A library for the examples: outside the literal fragment its [re]
    raises [OverflowError] for a repetition count of [MAXREPEAT] or more,
    refuses an unclosed parenthesis with [re.error], and otherwise gives a
    pattern that matches nothing and substitutes nothing; its [fnmatch]
    knows [*] and [?]. *)
#[local] Instance sample_lib : PyLib := {|
  ExtPattern := unit;
  ext_compile := fun pattern _ =>
    if (MAXREPEAT <=? max_repeat pattern false 0 0)%N
    then inl (OverflowError "the repetition number is too large")
    else
      match unclosed pattern 0 [] with
      | Some pos =>
          inl (ReError ("missing ), unterminated subpattern at position "
                        +:+ pretty pos))
      | None => inr ()
      end;
  ext_search := fun _ _ => false;
  ext_search_atoms := fun _ _ _ => false;
  re_sub := fun _ _ text => inr text;
  fnmatch := fun name pat =>
    glob (list_ascii_of_string pat) (list_ascii_of_string name)
|}.

Definition nl : string := String LF EmptyString.

(** Options of the examples: a case-sensitive literal, the default
    ignores. *)
Definition sample_opts (text : string) (max_matches : Z) (archives : bool) : Opts :=
  {| o_text := Some text; o_case := true; o_regex := false;
     o_whole_word := false; o_include_hidden := false;
     o_use_default_ignores := true; o_follow_symlinks := false;
     o_search_archives := archives; o_max_matches := Some max_matches |}.

(** A directory [r] with two text files: [a.txt] has two lines "x",
    [b.txt] has one. *)
Definition a_txt : Path := {| parent := "r"; name := "a.txt" |}.
Definition b_txt : Path := {| parent := "r"; name := "b.txt" |}.

Definition two_files_fs : FS :=
  <[a_txt := text_file ("x" +:+ nl +:+ "x" +:+ nl)]>
    (<[b_txt := text_file ("x" +:+ nl)]> ∅).

Definition two_files_tree : dirtree := Dir [] ["a.txt"; "b.txt"].

(** The engine [SearchEngine("r", sample_opts("x", 1, False), [], [], _)]. *)
Definition x_engine : SearchEngine.t :=
  {| SearchEngine.root := "r";
     SearchEngine.opts := sample_opts "x" 1 false;
     SearchEngine.include := [];
     SearchEngine.exclude := [];
     SearchEngine.regex := PAtoms [AChar "x"] false |}.

(** The same engine with a ceiling of 5000. *)
Definition wide_engine : SearchEngine.t :=
  {| SearchEngine.root := "r";
     SearchEngine.opts := sample_opts "x" 5000 false;
     SearchEngine.include := [];
     SearchEngine.exclude := [];
     SearchEngine.regex := PAtoms [AChar "x"] false |}.

(** The engine for "line" that looks into archives. *)
Definition zip_engine : SearchEngine.t :=
  {| SearchEngine.root := "r";
     SearchEngine.opts := sample_opts "line" 5000 true;
     SearchEngine.include := ["*.zip"; "*.txt"];
     SearchEngine.exclude := [];
     SearchEngine.regex := PAtoms (map AChar (list_ascii_of_string "line")) false |}.

(** A zip archive [r/docs.zip] with the one member [hello.txt], of three
    lines; its first bytes are those of a local file header. *)
Definition docs_zip : Path := {| parent := "r"; name := "docs.zip" |}.

Definition hello_txt : list Byte.byte :=
  encode ("first line" +:+ nl +:+ "  a needle here" +:+ nl +:+ "last line" +:+ nl).

Definition zip_header : list Byte.byte :=
  [Byte.x50; Byte.x4b; Byte.x03; Byte.x04; Byte.x14; Byte.x00; Byte.x00;
   Byte.x00; Byte.x08; Byte.x00].

Definition docs_zip_file : file :=
  {| st_size := 180; readable := true; data := zip_header;
     arch := Zip [("hello.txt", hello_txt)] |}.

Definition zip_fs : FS := <[docs_zip := docs_zip_file]> ∅.


(** A text file [r/notes.txt] and two behaviours of the operating system:
    nothing fails; the disk fills up while the temporary file is written. *)
Definition notes_txt : Path := {| parent := "r"; name := "notes.txt" |}.

Definition notes_fs : FS := <[notes_txt := text_file "foo bar foo"]> ∅.

Definition quiet_env : os_env :=
  {| temp_name := "tmpk3v9x_2a"; create_fault := None; write_fault := None;
     copy_fault := None; replace_fault := None; remove_fault := None |}.

Definition disk_full_env : os_env :=
  {| temp_name := "tmpk3v9x_2a"; create_fault := None;
     write_fault := Some (OSError "No space left on device", "baz b");
     copy_fault := None; replace_fault := None; remove_fault := None |}.

(** The rename fails. *)
Definition rename_fails_env : os_env :=
  {| temp_name := "tmpk3v9x_2a"; create_fault := None; write_fault := None;
     copy_fault := None; replace_fault := Some (OSError "Access is denied");
     remove_fault := None |}.

(** The same file, which cannot be opened. *)
Definition locked_fs : FS :=
  <[notes_txt := {| st_size := 11; readable := false;
                    data := encode "foo bar foo"; arch := NoArchive |}]> ∅.

(** Literal, case-sensitive [find_opts]. *)
Definition literal_find (text : string) : FindOpts :=
  {| f_text := text; f_case := true; f_regex := false; f_whole := false |}.

(** The replacement of "foo" by "baz" in [notes_fs]: the file system it
    leaves and its events. *)
Definition notes_replaced : FS * list revent :=
  ReplacementWorker.run [("I001", notes_txt)] (literal_find "foo") "baz" true
    (fun _ => quiet_env) notes_fs.

(** A job of two files; the rename of the first one fails. *)
Definition todo_txt : Path := {| parent := "r"; name := "todo.txt" |}.

Definition job_fs : FS :=
  <[notes_txt := text_file "foo bar foo"]> (<[todo_txt := text_file "foo"]> ∅).

Definition job_envs (i : nat) : os_env :=
  match i with
  | O => rename_fails_env
  | _ => quiet_env
  end.

(** The engine for "x" with a ceiling of -1, which the code accepts. *)
Definition neg_engine : SearchEngine.t :=
  {| SearchEngine.root := "r";
     SearchEngine.opts := sample_opts "x" (-1) false;
     SearchEngine.include := [];
     SearchEngine.exclude := [];
     SearchEngine.regex := PAtoms [AChar "x"] false |}.

(** A self-extracting archive [r/docs.zip]: a shell stub of 1024 bytes
    without a NUL, then the bytes of a zip archive whose one member
    [hello.txt], stored without compression, is the line "a needle here". *)
Definition byte_of (n : N) : Byte.byte := default Byte.x00 (Byte.of_N n).





(** Text outside ASCII: a no-break space, U+2028 and an e with an acute
    accent, in UTF-8. *)
Definition NBSP : string :=
  String (ascii_of_N 194) (String (ascii_of_N 160) EmptyString).
Definition LSEP : string :=
  String (ascii_of_N 226) (String (ascii_of_N 128) (String (ascii_of_N 168)
    EmptyString)).
Definition E_ACUTE : string :=
  String (ascii_of_N 195) (String (ascii_of_N 169) EmptyString).

(** A zip archive [r/memo.zip] whose member [memo.txt] is "x", U+2028, a
    no-break space, "x", a space, an e with an acute accent and a newline:
    two lines for [splitlines]. *)
Definition memo_zip : Path := {| parent := "r"; name := "memo.zip" |}.

Definition memo_txt : list Byte.byte :=
  encode ("x" +:+ LSEP +:+ NBSP +:+ "x " +:+ E_ACUTE +:+ nl).

Definition memo_zip_file : file :=
  {| st_size := 180; readable := true; data := zip_header;
     arch := Zip [("memo.txt", memo_txt)] |}.

Definition memo_fs : FS := <[memo_zip := memo_zip_file]> ∅.

(** A file [r/raw.txt] that is not UTF-8: "foo ", the byte FF, a newline. *)
Definition raw_txt : Path := {| parent := "r"; name := "raw.txt" |}.

Definition raw_file : file :=
  {| st_size := 6; readable := true;
     data := map byte_of [102; 111; 111; 32; 255; 10]%N;
     arch := NoArchive |}.

Definition raw_fs : FS := <[raw_txt := raw_file]> ∅.





(** ** Vocabulary of the statements *)

(** The options [o] with the four keys of the pattern set. *)
Definition with_pattern (o : Opts) (text : string) (case regex whole_word : bool)
  : Opts :=
  {| o_text := Some text; o_case := case; o_regex := regex;
     o_whole_word := whole_word;
     o_include_hidden := o_include_hidden o;
     o_use_default_ignores := o_use_default_ignores o;
     o_follow_symlinks := o_follow_symlinks o;
     o_search_archives := o_search_archives o;
     o_max_matches := o_max_matches o |}.


(** The lines the loop of [_search_content] runs over, for a candidate
    that is neither skipped nor failing. *)
Definition scanned_lines (fs : FS) (path : Path) (is_archive : bool)
  (member : option string) : option (list string) :=
  if is_archive then
    match archive_member_lines fs path member false with
    | inr lines => Some lines
    | inl _ => None
    end
  else
    match fs !! path with
    | Some f =>
        if (st_size f >? MAX_FILE_SIZE_MB * 1024 * 1024)%Z then None
        else if negb (readable f) then None
        else if existsb is_NUL (firstn 1024 (data f)) then None
        else Some (lines_keepends (universal_newlines (decode (data f))))
    | None => None
    end.

(** The lines a worker gets through before it sees the stop event. *)
Definition lines_before_stop (stop_at : option nat) (lines : list string)
  : list string :=
  match stop_at with
  | Some k => take k lines
  | None => lines
  end.

(** The [match] events of a queue, in order, and its [warn] events. *)
Definition match_events (q : list event) : list Match :=
  omap (fun e => match e with EvMatch m => Some m | _ => None end) q.

Definition warn_events (q : list event) : list string :=
  omap (fun e => match e with EvWarn msg => Some msg | _ => None end) q.

(** The actions of the program itself: all but the setting of the stop
    event from outside. *)
Definition is_internal (a : SearchEngine.action) : bool :=
  match a with
  | SearchEngine.ExternalStop => false
  | _ => true
  end.

(** What candidate number [i] of [cs] gives when its worker never sees the
    stop event. *)
Definition full_result `{PyLib} (self : SearchEngine.t) (fs : FS)
  (cs : list candidate) (i : nat) : list Match :=
  match cs !! i with
  | Some c => SearchEngine.search_candidate self fs c None
  | None => []
  end.

(** The bound of the match ceiling: the count is within the ceiling, or
    some future handed to the loop has a result without which the count was
    still under it. *)
Definition ceiling_bound `{PyLib} (self : SearchEngine.t)
  (s : SearchEngine.state) : Prop :=
  (matches_found (SearchEngine.stats s) <= SearchEngine.max_matches_of self)%Z \/
  exists i f r,
    SearchEngine.futures s !! i = Some f /\
    SearchEngine.f_yielded f = true /\
    SearchEngine.f_result f = Some r /\
    (matches_found (SearchEngine.stats s) - Z.of_nat (length r)
     < SearchEngine.max_matches_of self)%Z.

(** What one step does to the count and to the [match] events: nothing, or
    it is the loop body on a future, entered under the ceiling, and the
    whole result of that future is counted and put on the queue. *)
Definition whole_result_step `{PyLib} (self : SearchEngine.t)
  (a : SearchEngine.action) (s s' : SearchEngine.state) : Prop :=
  (matches_found (SearchEngine.stats s') = matches_found (SearchEngine.stats s) /\
   match_events (SearchEngine.out_q s') = match_events (SearchEngine.out_q s)) \/
  exists i f r,
    a = SearchEngine.Yield i /\
    SearchEngine.futures s !! i = Some f /\
    SearchEngine.f_result f = Some r /\
    (matches_found (SearchEngine.stats s) < SearchEngine.max_matches_of self)%Z /\
    matches_found (SearchEngine.stats s')
      = (matches_found (SearchEngine.stats s) + Z.of_nat (length r))%Z /\
    match_events (SearchEngine.out_q s')
      = match_events (SearchEngine.out_q s) ++ r.

(** The state of a run that nobody stops from outside, over the candidates
    [cs]; [ys] lists the futures the loop body has taken, in the order it
    took them. *)
Definition quiet_inv `{PyLib} (self : SearchEngine.t) (fs : FS)
  (cs : list candidate) (s : SearchEngine.state) (ys : list nat) : Prop :=
  NoDup ys /\
  (forall i, i ∈ ys -> (i < length (SearchEngine.futures s))%nat) /\
  map SearchEngine.f_cand (SearchEngine.futures s) = cs /\
  (forall i f, SearchEngine.futures s !! i = Some f ->
     (SearchEngine.f_yielded f = true <-> i ∈ ys)) /\
  (forall i f, SearchEngine.futures s !! i = Some f ->
     SearchEngine.f_yielded f = true -> is_Some (SearchEngine.f_result f)) /\
  (forall i f r, SearchEngine.futures s !! i = Some f ->
     SearchEngine.f_result f = Some r ->
     SearchEngine.f_yielded f = true \/ SearchEngine.stop_event s = false ->
     r = full_result self fs cs i) /\
  match_events (SearchEngine.out_q s)
    = concat (map (full_result self fs cs) ys) /\
  matches_found (SearchEngine.stats s)
    = Z.of_nat (length (match_events (SearchEngine.out_q s))) /\
  (forall ys' l, ys = ys' ++ [l] ->
     (Z.of_nat (length (concat (map (full_result self fs cs) ys')))
      < SearchEngine.max_matches_of self)%Z) /\
  warn_events (SearchEngine.out_q s)
    = (if SearchEngine.stop_event s
       then [SearchEngine.warn_msg (SearchEngine.max_matches_of self)]
       else []) /\
  (SearchEngine.stop_event s = true ->
     (SearchEngine.max_matches_of self
      <= matches_found (SearchEngine.stats s))%Z /\
     SearchEngine.phase_of s <> SearchEngine.Looping) /\
  (SearchEngine.stop_event s = false ->
     SearchEngine.phase_of s <> SearchEngine.Looping ->
     forall i f, SearchEngine.futures s !! i = Some f ->
                 SearchEngine.f_yielded f = true).

(** The text starts with a white-space character. *)
Definition starts_with_space (s : string) : bool :=
  match s with
  | String c s1 =>
      is_space c ||
      match s1 with
      | String d s2 =>
          is_space2 c d ||
          match s2 with
          | String e _ => is_space3 c d e
          | EmptyString => false
          end
      | EmptyString => false
      end
  | EmptyString => false
  end.

(** [needle] occurs in [line]. *)
Fixpoint contains (needle line : string) : bool :=
  startswith needle line ||
  match line with
  | String _ rest => contains needle rest
  | EmptyString => false
  end.

Fixpoint lower_str (s : string) : string :=
  match s with
  | String c s' => String (lower c) (lower_str s')
  | EmptyString => EmptyString
  end.

(** [needle] occurs in [line], letter case counting or not. *)
Definition line_contains (case : bool) (needle line : string) : bool :=
  if case then contains needle line
  else contains (lower_str needle) (lower_str line).

(** The temporary file of a call of [atomic_write] and the backup. *)
Definition temp_path (env : os_env) (path : Path) : Path :=
  {| parent := parent path; name := temp_name env |}.

Definition bak_path (path : Path) : Path :=
  {| parent := parent path; name := name path +:+ ".bak" |}.

(** Nothing fails. *)
Definition no_fault (env : os_env) : Prop :=
  create_fault env = None /\ write_fault env = None /\ copy_fault env = None /\
  replace_fault env = None /\ remove_fault env = None.

(** The event that reports the file [p] of index [i]: its step, or an
    error with its name in front. *)
Definition reports (i : nat) (p : Path) (ev : revent) : Prop :=
  ev = RStep i (name p) \/
  exists e, ev = RError (name p +:+ ": " +:+ exn_str e).

(** A scheduler that brings a run to its end: it lets the workers return,
    then hands the futures to the loop, then shuts the pool down. *)
Fixpoint find_index {A} (P : A -> bool) (l : list A) : option nat :=
  match l with
  | [] => None
  | x :: l' => if P x then Some O else S <$> find_index P l'
  end.

Fixpoint count_if {A} (P : A -> bool) (l : list A) : nat :=
  match l with
  | [] => O
  | x :: l' => (if P x then 1 else 0) + count_if P l'
  end.

Definition unfinished (f : SearchEngine.future) : bool :=
  bool_decide (SearchEngine.f_result f = None).

Definition unyielded (f : SearchEngine.future) : bool :=
  negb (SearchEngine.f_yielded f).

Definition next_action (s : SearchEngine.state) : option SearchEngine.action :=
  match find_index unfinished (SearchEngine.futures s) with
  | Some i => Some (SearchEngine.Complete i None)
  | None =>
      match SearchEngine.phase_of s with
      | SearchEngine.Looping =>
          match find_index unyielded (SearchEngine.futures s) with
          | Some i => Some (SearchEngine.Yield i)
          | None => Some SearchEngine.Exhaust
          end
      | SearchEngine.Draining => Some SearchEngine.Shutdown
      | SearchEngine.Finished => None
      end
  end.

(** What is left to do in a state. *)
Definition work_left (s : SearchEngine.state) : nat :=
  count_if unfinished (SearchEngine.futures s) +
  count_if unyielded (SearchEngine.futures s) +
  match SearchEngine.phase_of s with
  | SearchEngine.Looping => 2
  | SearchEngine.Draining => 1
  | SearchEngine.Finished => 0
  end.

Definition is_progress (e : event) : bool :=
  match e with EvProgress => true | _ => false end.

Definition is_done (e : event) : bool :=
  match e with EvDone => true | _ => false end.

(** What the counters of [SearchStats] and the queue have to do with each
    other in every state of a run. *)
Definition counters_inv `{PyLib} (self : SearchEngine.t)
  (s : SearchEngine.state) : Prop :=
  matches_found (SearchEngine.stats s)
    = Z.of_nat (length (match_events (SearchEngine.out_q s))) /\
  scanned_files (SearchEngine.stats s)
    = Z.of_nat (count_if SearchEngine.f_yielded (SearchEngine.futures s)) /\
  total_candidates (SearchEngine.stats s)
    = Z.of_nat (length (SearchEngine.futures s)) /\
  Z.of_nat (count_if is_progress (SearchEngine.out_q s))
    = (1 + scanned_files (SearchEngine.stats s) / 50)%Z /\
  (warn_events (SearchEngine.out_q s) = [] \/
   (warn_events (SearchEngine.out_q s)
      = [SearchEngine.warn_msg (SearchEngine.max_matches_of self)] /\
    SearchEngine.stop_event s = true /\
    SearchEngine.phase_of s <> SearchEngine.Looping /\
    (SearchEngine.max_matches_of self
     <= matches_found (SearchEngine.stats s))%Z)) /\
  count_if is_done (SearchEngine.out_q s)
    = (match SearchEngine.phase_of s with
       | SearchEngine.Finished => 1
       | _ => 0
       end)%nat /\
  (SearchEngine.phase_of s = SearchEngine.Finished ->
   exists q, SearchEngine.out_q s = q ++ [EvDone]).

(** Where the warning is on the queue, when there is one: it was the last
    event put by the loop, and only [done] can follow it. *)
Definition warn_last (s : SearchEngine.state) : Prop :=
  warn_events (SearchEngine.out_q s) = [] \/
  (SearchEngine.phase_of s = SearchEngine.Draining /\
   exists q w, SearchEngine.out_q s = q ++ [EvWarn w] /\ warn_events q = []) \/
  (SearchEngine.phase_of s = SearchEngine.Finished /\
   exists q w, SearchEngine.out_q s = q ++ [EvWarn w; EvDone] /\
               warn_events q = []).

(** * Properties *)

Section Matcher.
Context `{PyLib}.

Lemma parse_atoms_escape (s : string) :
  parse_atoms (re_escape s) = Some (map AChar (list_ascii_of_string s)).
Proof.
  induction s as [|c s IH]; [reflexivity|].
  cbn [re_escape list_ascii_of_string map].
  destruct (re_special c) eqn:Hs.
  - cbn [parse_atoms].
    replace (code backslash =? 92)%N with true by reflexivity.
    assert (Hc : (code c =? 98)%N = false /\ is_alnum c = false).
    { clear -Hs. destruct c as [[] [] [] [] [] [] [] []]; vm_compute in Hs |- *;
        first [discriminate Hs | split; reflexivity]. }
    destruct Hc as [-> ->]. rewrite IH. reflexivity.
  - cbn [parse_atoms].
    assert (Hc : (code c =? 92)%N = false /\ re_meta c = false).
    { clear -Hs. destruct c as [[] [] [] [] [] [] [] []]; vm_compute in Hs |- *;
        first [discriminate Hs | split; reflexivity]. }
    destruct Hc as [-> ->]. rewrite IH. reflexivity.
Qed.

(** An escaped literal always compiles, to the characters of the literal. *)
Lemma re_compile_escape (s : string) (ignorecase : bool) :
  re_compile (re_escape s) ignorecase
  = inr (PAtoms (map AChar (list_ascii_of_string s)) ignorecase).
Proof. unfold re_compile. rewrite parse_atoms_escape. reflexivity. Qed.

Lemma search_from_nil (ignorecase : bool) (prev : option ascii) (line : string) :
  search_from ignorecase [] prev line = true.
Proof. destruct line; reflexivity. Qed.

(** The empty sequence is found in every line, whatever its characters. *)
Lemma re_search_nil (ignorecase : bool) (line : string) :
  re_search (PAtoms [] ignorecase) line = true.
Proof.
  unfold re_search, unicode_dependent. cbn [existsb andb orb].
  rewrite andb_false_r. apply search_from_nil.
Qed.

End Matcher.

Section ContentSearch.
Context `{PyLib}.

Lemma search_content_scanned (self : SearchEngine.t) (fs : FS) (p : Path)
  (a : bool) (m : option string) (stop_at : option nat) (lines : list string) :
  scanned_lines fs p a m = Some lines ->
  SearchEngine._search_content self fs p a m stop_at
  = SearchEngine.search_lines self p a m stop_at 1 lines.
Proof.
  unfold scanned_lines, SearchEngine._search_content, SearchEngine.search_body.
  destruct a.
  - destruct (archive_member_lines fs p m false) as [e|ls]; [discriminate|].
    intros [= ->]. reflexivity.
  - unfold stat_size, is_binary_file, open_read.
    destruct (fs !! p) as [f|]; [|discriminate]. cbn.
    destruct (st_size f >? _)%Z; [discriminate|].
    destruct (readable f); [|discriminate]. cbn.
    destruct (existsb is_NUL _); [discriminate|].
    intros [= ->]. reflexivity.
Qed.

(** When every line matches, the loop gives one [Match] per line it gets
    through, numbered from [i]. *)
Lemma search_lines_all (self : SearchEngine.t) (p : Path) (a : bool)
  (m : option string) (lines : list string) :
  (forall line, re_search (SearchEngine.regex self) line = true) ->
  forall (stop_at : option nat) (i : nat),
    SearchEngine.search_lines self p a m stop_at i lines
    = imap (fun k line => SearchEngine.mk_match p a m (i + k) line)
        (lines_before_stop stop_at lines).
Proof.
  intros Hall. induction lines as [|line rest IH]; intros stop_at i.
  - destruct stop_at as [[|k]|]; reflexivity.
  - cbn [SearchEngine.search_lines]. rewrite Hall.
    destruct stop_at as [[|k]|]; cbn [stop_is_set stop_tick lines_before_stop take].
    + reflexivity.
    + rewrite IH. cbn [lines_before_stop imap app]. rewrite Nat.add_0_r.
      f_equal. apply imap_ext. intros j x _. cbn. f_equal. lia.
    + rewrite IH. cbn [lines_before_stop imap app]. rewrite Nat.add_0_r.
      f_equal. apply imap_ext. intros j x _. cbn. f_equal. lia.
Qed.


(** C7: the literal pattern "World" matches the line "world" exactly when
    [case] is unset; with [whole_word] the pattern "cat" does not match
    "concatenate", matches "the cat sat", and a file made of that line
    gives one [Match]. *)
Theorem C7_case_flag_and_whole_word
  (o : Opts) (root : string) (include exclude : list string) (case : bool)
  (fs : FS) (p : Path) (m : option string) :
  (exists self,
     SearchEngine.__init__ root (with_pattern o "World" case false false)
       include exclude = inr self /\
     re_search (SearchEngine.regex self) "world" = negb case) /\
  (exists self,
     SearchEngine.__init__ root (with_pattern o "cat" case false true)
       include exclude = inr self /\
     re_search (SearchEngine.regex self) "concatenate" = false /\
     re_search (SearchEngine.regex self) "the cat sat" = true /\
     SearchEngine._search_content self (<[p := text_file "the cat sat"]> fs)
       p false m None
     = [ {| path := p; line_no := 1; preview := "the cat sat";
            is_archive := false; member := m |} ]).
Proof.
  split.
  - eexists. split; [reflexivity|]. destruct case; reflexivity.
  - eexists. split; [reflexivity|]. split; [destruct case; reflexivity|].
    split; [destruct case; reflexivity|].
    erewrite search_content_scanned.
    2:{ unfold scanned_lines. rewrite lookup_insert_eq. reflexivity. }
    destruct case; reflexivity.
Qed.

Lemma skipped_plain_file (self : SearchEngine.t) (fs : FS) (p : Path)
  (m : option string) (stop_at : option nat) (f : file) :
  fs !! p = Some f ->
  (st_size f > 10 * 1024 * 1024)%Z \/
  existsb is_NUL (firstn 1024 (data f)) = true \/
  readable f = false ->
  SearchEngine.search_body self fs p false m stop_at = inr [] /\
  SearchEngine._search_content self fs p false m stop_at = [].
Proof.
  intros Hf Hc.
  assert (Hb : SearchEngine.search_body self fs p false m stop_at = inr []).
  { unfold SearchEngine.search_body, stat_size, is_binary_file, open_read.
    rewrite Hf. cbn.
    destruct (st_size f >? MAX_FILE_SIZE_MB * 1024 * 1024)%Z eqn:Hsz; [reflexivity|].
    destruct Hc as [Hc|[Hc|Hc]].
    - rewrite Z.gtb_ltb in Hsz. unfold MAX_FILE_SIZE_MB in Hsz.
      apply Z.ltb_ge in Hsz. lia.
    - destruct (readable f); [rewrite Hc|]; reflexivity.
    - rewrite Hc. reflexivity. }
  split; [exact Hb|].
  unfold SearchEngine._search_content. rewrite Hb. reflexivity.
Qed.

(** C8: a plain candidate whose size is over 10 MiB, or with a NUL byte in
    its first 1024 bytes, or that cannot be opened, gives no match whatever
    it contains; the body of [_search_content] returns the empty list, it
    does not leave by an exception. *)
Theorem C8_oversize_binary_unreadable_give_nothing
  (self : SearchEngine.t) (fs : FS) (p : Path) (m : option string)
  (stop_at : option nat) (f : file) :
  fs !! p = Some f ->
  (st_size f > 10 * 1024 * 1024)%Z \/
  existsb is_NUL (firstn 1024 (data f)) = true \/
  readable f = false ->
  SearchEngine.search_body self fs p false m stop_at = inr [] /\
  SearchEngine._search_content self fs p false m stop_at = [].
Proof. apply skipped_plain_file. Qed.

(** C10: with the empty text and neither [regex] nor [whole_word], the
    compiled matcher matches every line, and a candidate that is scanned
    gives one [Match] per line, in order and numbered from 1, for the lines
    the worker gets through before it sees the stop event. *)
Theorem C10_empty_pattern_matches_every_line
  (o : Opts) (root : string) (include exclude : list string) (case : bool)
  (fs : FS) (p : Path) (a : bool) (m : option string) (stop_at : option nat)
  (lines : list string) :
  scanned_lines fs p a m = Some lines ->
  exists self,
    SearchEngine.__init__ root (with_pattern o EmptyString case false false)
      include exclude = inr self /\
    (forall line, re_search (SearchEngine.regex self) line = true) /\
    SearchEngine._search_content self fs p a m stop_at
    = imap (fun k line => SearchEngine.mk_match p a m (S k) line)
        (lines_before_stop stop_at lines).
Proof.
  intros Hl. eexists. split; [reflexivity|].
  assert (Hall : forall line : string,
             re_search (PAtoms [] (negb case)) line = true)
    by (intros; apply re_search_nil).
  split; [exact Hall|].
  rewrite (search_content_scanned _ _ _ _ _ _ _ Hl).
  apply search_lines_all. exact Hall.
Qed.

End ContentSearch.

Section MatchCeiling.
Context `{PyLib}.
Import SearchEngine.

Lemma match_events_app (q1 q2 : list event) :
  match_events (q1 ++ q2) = match_events q1 ++ match_events q2.
Proof. unfold match_events. apply omap_app. Qed.

Lemma match_events_matches (ms : list Match) :
  match_events (map EvMatch ms) = ms.
Proof. induction ms as [|m ms IH]; [reflexivity|]. cbn. f_equal. exact IH. Qed.

Lemma warn_events_app (q1 q2 : list event) :
  warn_events (q1 ++ q2) = warn_events q1 ++ warn_events q2.
Proof. unfold warn_events. apply omap_app. Qed.

Lemma warn_events_matches (ms : list Match) :
  warn_events (map EvMatch ms) = [].
Proof. induction ms as [|m ms IH]; [reflexivity|]. exact IH. Qed.

(** The loop body, branch by branch. *)
Lemma loop_body_cases (self : t) (i : nat) (f : future) (res : list Match)
  (s : state) :
  (stop_event s = true /\
   loop_body self i f res s
   = {| stop_event := stop_event s; futures := futures s; stats := stats s;
        out_q := out_q s; phase_of := Draining |}) \/
  (stop_event s = false /\
   (max_matches_of self <= matches_found (stats s))%Z /\
   loop_body self i f res s
   = {| stop_event := true; futures := futures s; stats := stats s;
        out_q := out_q s ++ [EvWarn (warn_msg (max_matches_of self))];
        phase_of := Draining |}) \/
  (stop_event s = false /\
   (matches_found (stats s) < max_matches_of self)%Z /\
   exists q1,
     match_events q1 = match_events (out_q s) /\
     warn_events q1 = warn_events (out_q s) /\
     loop_body self i f res s
     = {| stop_event := false;
          futures := <[i := set_yielded f]> (futures s);
          stats := {| scanned_files := (scanned_files (stats s) + 1)%Z;
                      total_candidates := total_candidates (stats s);
                      matches_found :=
                        (matches_found (stats s) + Z.of_nat (length res))%Z |};
          out_q := q1 ++ map EvMatch res;
          phase_of := Looping |}).
Proof.
  unfold loop_body. destruct (stop_event s) eqn:Hstop; [left; auto|].
  destruct (matches_found (stats s) >=? max_matches_of self)%Z eqn:Hge.
  - right; left. split; [reflexivity|]. split; [|reflexivity].
    apply Z.geb_le in Hge. lia.
  - right; right. split; [reflexivity|].
    split; [rewrite Z.geb_leb in Hge; apply Z.leb_gt in Hge; lia|].
    eexists. split; [|split; [|f_equal]].
    3:{ f_equal. destruct res; [cbn; lia | reflexivity]. }
    + destruct (_ =? 0)%Z; [|reflexivity].
      rewrite match_events_app. cbn. apply app_nil_r.
    + destruct (_ =? 0)%Z; [|reflexivity].
      rewrite warn_events_app. cbn. apply app_nil_r.
Qed.

Lemma whole_result_of_step (self : t) (fs : FS) (a : action) (s s' : state) :
  run_step self fs a s = Some s' -> whole_result_step self a s s'.
Proof.
  unfold whole_result_step. destruct a as [i cut|i| | |]; cbn.
  - destruct (futures s !! i) as [f|]; [|discriminate]. cbn.
    destruct (f_result f); [discriminate|].
    destruct (_ || _); [|discriminate]. intros [= <-]. left. auto.
  - destruct (phase_of s); try discriminate.
    destruct (futures s !! i) as [f|] eqn:Hf; [|discriminate]. cbn.
    destruct (f_result f) as [res|] eqn:Hr; [|discriminate]. cbn.
    destruct (f_yielded f); [discriminate|]. intros [= <-].
    destruct (loop_body_cases self i f res s)
      as [[_ ->]|[(_ & _ & ->)|(_ & Hlt & q1 & Hq1 & _ & ->)]]; cbn.
    + left. auto.
    + left. split; [reflexivity|]. rewrite match_events_app. cbn. apply app_nil_r.
    + right. exists i, f, res. repeat split; try assumption.
      rewrite match_events_app, match_events_matches, Hq1. reflexivity.
  - destruct (phase_of s); try discriminate.
    destruct (forallb _ _); [|discriminate]. intros [= <-]. left. auto.
  - destruct (phase_of s); try discriminate.
    destruct (forallb _ _); [|discriminate]. intros [= <-]. left.
    split; [reflexivity|]. cbn. rewrite match_events_app. cbn. apply app_nil_r.
  - intros [= <-]. left. auto.
Qed.

Lemma ceiling_bound_step (self : t) (fs : FS) (a : action) (s s' : state) :
  ceiling_bound self s -> run_step self fs a s = Some s' -> ceiling_bound self s'.
Proof.
  unfold ceiling_bound. intros Hb. destruct a as [i cut|i| | |]; cbn.
  - destruct (futures s !! i) as [f|] eqn:Hf; [|discriminate]. cbn.
    destruct (f_result f) eqn:Hr; [discriminate|].
    destruct (_ || _); [|discriminate]. intros [= <-]. cbn.
    destruct Hb as [Hb|(j & fj & r & Hj & Hy & Hrj & Hlt)]; [left; exact Hb|].
    right. exists j, fj, r. repeat split; try assumption.
    rewrite list_lookup_insert_ne; [exact Hj|].
    intros ->. rewrite Hf in Hj. injection Hj as <-. congruence.
  - destruct (phase_of s); try discriminate.
    destruct (futures s !! i) as [f|] eqn:Hf; [|discriminate]. cbn.
    destruct (f_result f) as [res|] eqn:Hr; [|discriminate]. cbn.
    destruct (f_yielded f) eqn:Hy; [discriminate|]. intros [= <-].
    destruct (loop_body_cases self i f res s)
      as [[_ ->]|[(_ & _ & ->)|(_ & Hlt & q1 & _ & _ & ->)]]; cbn;
      [exact Hb | exact Hb |].
    right. exists i, (set_yielded f), res. repeat split.
    + apply list_lookup_insert_eq. eapply lookup_lt_Some. exact Hf.
    + exact Hr.
    + lia.
  - destruct (phase_of s); try discriminate.
    destruct (forallb _ _); [|discriminate]. intros [= <-]. exact Hb.
  - destruct (phase_of s); try discriminate.
    destruct (forallb _ _); [|discriminate]. intros [= <-]. exact Hb.
  - intros [= <-]. exact Hb.
Qed.

Lemma ceiling_bound_steps (self : t) (fs : FS) (acts : list action) :
  forall s s', ceiling_bound self s -> run_steps self fs acts s = Some s' ->
               ceiling_bound self s'.
Proof.
  induction acts as [|a acts IH]; intros s s' Hb; cbn.
  - intros [= <-]. exact Hb.
  - destruct (run_step self fs a s) as [s1|] eqn:Hs; [|discriminate]. cbn.
    apply IH. eapply ceiling_bound_step; eassumption.
Qed.

(** C3: in every state of every run, with a ceiling that is not negative,
    [matches_found] is within [max_matches], or exceeds it by less than the
    number of matches of one future handed to the loop, the one whose
    result took the count over; and a step either leaves the count and the
    [match] events alone or is the loop body on one future, entered under
    the ceiling, which counts and puts the whole result of that future: the
    ceiling is looked at between results only. *)
Theorem C3_ceiling_checked_between_tasks
  (self : t) (fs : FS) (tree : dirtree) (scan_stop : option nat)
  (acts : list action) (s : state) :
  (0 <= max_matches_of self)%Z ->
  run self fs tree scan_stop acts = Some s ->
  ceiling_bound self s /\
  forall a s', run_step self fs a s = Some s' -> whole_result_step self a s s'.
Proof.
  intros Hmax Hrun. split.
  - eapply ceiling_bound_steps; [|exact Hrun]. left. cbn. exact Hmax.
  - intros a s'. apply whole_result_of_step.
Qed.

End MatchCeiling.

Section QuietRuns.
Context `{PyLib}.
Import SearchEngine.

Lemma f_cand_insert (l : list future) (i : nat) (f f' : future) :
  l !! i = Some f -> f_cand f' = f_cand f ->
  map f_cand (<[i := f']> l) = map f_cand l.
Proof.
  intros Hl Hc. change (map f_cand) with (fmap (M:=list) f_cand).
  rewrite list_fmap_insert, Hc. apply list_insert_id.
  rewrite list_lookup_fmap, Hl. reflexivity.
Qed.

Lemma full_result_cand (self : t) (fs : FS) (s : state) (i : nat) (f : future) :
  futures s !! i = Some f ->
  full_result self fs (map f_cand (futures s)) i
  = search_candidate self fs (f_cand f) None.
Proof.
  intros Hf. unfold full_result.
  change (map f_cand) with (fmap (M:=list) f_cand).
  rewrite list_lookup_fmap, Hf. reflexivity.
Qed.

Lemma quiet_inv_start (self : t) (fs : FS) (tree : dirtree) :
  quiet_inv self fs (scan self fs tree None) (run_start self fs tree None) [].
Proof.
  unfold quiet_inv, run_start. cbn.
  split; [constructor|].
  split; [intros i Hi; inversion Hi|].
  split.
  { change (map f_cand) with (fmap (M:=list) f_cand).
    change (map submit) with (fmap (M:=list) submit).
    rewrite <- list_fmap_compose. apply list_fmap_id. }
  assert (Hsub : forall i f, map submit (scan self fs tree None) !! i = Some f ->
                             f_result f = None /\ f_yielded f = false).
  { intros i f. change (map submit) with (fmap (M:=list) submit).
    rewrite list_lookup_fmap. destruct (_ !! i); [|discriminate].
    intros [= <-]. auto. }
  split.
  { intros i f Hf. destruct (Hsub i f Hf) as [_ ->]. split; [discriminate|].
    intros Hi. inversion Hi. }
  split.
  { intros i f Hf Hy. destruct (Hsub i f Hf) as [_ Hn]. congruence. }
  split.
  { intros i f r Hf Hr. destruct (Hsub i f Hf) as [Hn _]. congruence. }
  split; [reflexivity|]. split; [reflexivity|].
  split.
  { intros ys' l Hys. destruct ys'; discriminate. }
  split; [reflexivity|]. split; [discriminate|].
  intros _ Hph. contradiction Hph. reflexivity.
Qed.

Lemma quiet_inv_step (self : t) (fs : FS) (cs : list candidate) (a : action)
  (s s' : state) (ys : list nat) :
  is_internal a = true ->
  quiet_inv self fs cs s ys ->
  run_step self fs a s = Some s' ->
  exists ys', quiet_inv self fs cs s' ys'.
Proof.
  intros Hint (Hnd & Hin & Hcs & Hyl & Hyr & Hres & Hme & Hmf & Hpre & Hw & Hst & Hall).
  destruct a as [i cut|i| | |]; cbn; try discriminate Hint.
  - (* a worker returns *)
    destruct (futures s !! i) as [f|] eqn:Hf; [|discriminate]. cbn.
    destruct (f_result f) eqn:Hr; [discriminate|].
    destruct (stop_event s || bool_decide (cut = None)) eqn:Hen; [|discriminate].
    intros [= <-]. exists ys. unfold quiet_inv. cbn.
    assert (Hlt : (i < length (futures s))%nat) by (eapply lookup_lt_Some; eauto).
    assert (Hny : f_yielded f = false).
    { destruct (f_yielded f) eqn:Hy; [|reflexivity].
      destruct (Hyr i f Hf Hy) as [r Hr']. congruence. }
    split; [exact Hnd|].
    split; [intros j Hj; rewrite length_insert; auto|].
    split; [rewrite (f_cand_insert _ _ f); [exact Hcs|exact Hf|reflexivity]|].
    split.
    { intros j fj Hj. destruct (decide (j = i)) as [->|Hne].
      - rewrite list_lookup_insert_eq in Hj by exact Hlt. injection Hj as <-.
        cbn. apply Hyl. exact Hf.
      - rewrite list_lookup_insert_ne in Hj by auto. apply Hyl. exact Hj. }
    split.
    { intros j fj Hj. destruct (decide (j = i)) as [->|Hne].
      - rewrite list_lookup_insert_eq in Hj by exact Hlt. injection Hj as <-.
        cbn. eauto.
      - rewrite list_lookup_insert_ne in Hj by auto. apply (Hyr j). exact Hj. }
    split.
    { intros j fj r Hj. destruct (decide (j = i)) as [->|Hne].
      - rewrite list_lookup_insert_eq in Hj by exact Hlt. injection Hj as <-.
        cbn. intros [= <-] [Hy|Hs]; [congruence|].
        rewrite Hs in Hen. cbn in Hen. apply bool_decide_eq_true in Hen. subst cut.
        rewrite <- Hcs. symmetry. apply full_result_cand. exact Hf.
      - rewrite list_lookup_insert_ne in Hj by auto. apply (Hres j). exact Hj. }
    split; [exact Hme|]. split; [exact Hmf|]. split; [exact Hpre|].
    split; [exact Hw|]. split; [exact Hst|].
    intros Hs Hph j fj Hj. destruct (decide (j = i)) as [->|Hne].
    + rewrite list_lookup_insert_eq in Hj by exact Hlt. injection Hj as <-.
      cbn. eapply Hall; eauto.
    + rewrite list_lookup_insert_ne in Hj by auto. eapply Hall; eauto.
  - (* the loop body *)
    destruct (phase_of s) eqn:Hph; try discriminate.
    destruct (futures s !! i) as [f|] eqn:Hf; [|discriminate]. cbn.
    destruct (f_result f) as [res|] eqn:Hr; [|discriminate]. cbn.
    destruct (f_yielded f) eqn:Hy; [discriminate|]. intros [= <-].
    assert (Hlt : (i < length (futures s))%nat) by (eapply lookup_lt_Some; eauto).
    destruct (loop_body_cases self i f res s)
      as [[Hs _]|[(Hs & Hge & ->)|(Hs & Hlt' & q1 & Hq1 & Hw1 & ->)]].
    + destruct (Hst Hs) as [_ Hne]. congruence.
    + exists ys. unfold quiet_inv. cbn.
      rewrite match_events_app, warn_events_app, Hw, Hs. cbn.
      rewrite app_nil_r.
      split; [exact Hnd|]. split; [exact Hin|]. split; [exact Hcs|].
      split; [exact Hyl|].
      split; [exact Hyr|].
      split. { intros j fj r Hj Hrj [Hyj|Hfalse]; [eauto|discriminate]. }
      split; [exact Hme|]. split; [exact Hmf|]. split; [exact Hpre|].
      split; [reflexivity|]. split; [intros _; split; [exact Hge|discriminate]|].
      discriminate.
    + assert (Hfull : res = full_result self fs cs i) by eauto.
      assert (Hni : i ∉ ys).
      { intros Hi. apply (Hyl i f Hf) in Hi. congruence. }
      exists (ys ++ [i]). unfold quiet_inv. cbn.
      rewrite match_events_app, match_events_matches, Hq1.
      rewrite warn_events_app, warn_events_matches, Hw1, Hw, Hs, app_nil_r.
      split. { apply NoDup_app. split; [exact Hnd|]. split; [|apply NoDup_singleton].
               intros x Hx Hx'. apply list_elem_of_singleton in Hx'. subst x. auto. }
      split.
      { intros j Hj. rewrite length_insert.
        apply elem_of_app in Hj as [Hj|Hj]; [auto|].
        apply list_elem_of_singleton in Hj. subst j. exact Hlt. }
      split; [rewrite (f_cand_insert _ _ f); [exact Hcs|exact Hf|reflexivity]|].
      split.
      { intros j fj Hj. rewrite elem_of_app, list_elem_of_singleton.
        destruct (decide (j = i)) as [->|Hne].
        - rewrite list_lookup_insert_eq in Hj by exact Hlt. injection Hj as <-.
          cbn. tauto.
        - rewrite list_lookup_insert_ne in Hj by auto.
          rewrite (Hyl j fj Hj). tauto. }
      split.
      { intros j fj Hj. destruct (decide (j = i)) as [->|Hne].
        - rewrite list_lookup_insert_eq in Hj by exact Hlt. injection Hj as <-.
          cbn. eauto.
        - rewrite list_lookup_insert_ne in Hj by auto. apply (Hyr j). exact Hj. }
      split.
      { intros j fj r Hj. destruct (decide (j = i)) as [->|Hne].
        - rewrite list_lookup_insert_eq in Hj by exact Hlt. injection Hj as <-.
          cbn. intros Hrj _. congruence.
        - rewrite list_lookup_insert_ne in Hj by auto. intros Hrj _.
          eapply Hres; eauto. }
      split.
      { rewrite map_app, concat_app, Hme, Hfull. cbn. rewrite app_nil_r.
        reflexivity. }
      split. { rewrite length_app, Hmf. lia. }
      split.
      { intros ys' l Hys. apply app_inj_tail in Hys as [<- _].
        rewrite <- Hme, <- Hmf. exact Hlt'. }
      split; [reflexivity|]. split; [discriminate|].
      intros _ Hne. contradiction Hne. reflexivity.
  - (* nothing left to yield *)
    destruct (phase_of s) eqn:Hph; try discriminate.
    destruct (forallb f_yielded (futures s)) eqn:Hfa; [|discriminate].
    intros [= <-]. exists ys. unfold quiet_inv. cbn.
    assert (Hs : stop_event s = false).
    { destruct (stop_event s) eqn:Hs; [|reflexivity].
      destruct (Hst eq_refl) as [_ Hne]. congruence. }
    rewrite Hs in *.
    repeat (split; [assumption|]). split; [discriminate|].
    intros _ _ j fj Hj. rewrite forallb_forall in Hfa. apply Hfa.
    apply list_elem_of_In. eapply list_elem_of_lookup_2. exact Hj.
  - (* the pool has shut down *)
    destruct (phase_of s) eqn:Hph; try discriminate.
    destruct (forallb _ (futures s)) eqn:Hfa; [|discriminate].
    intros [= <-]. exists ys. unfold quiet_inv. cbn.
    rewrite match_events_app, warn_events_app. cbn. rewrite !app_nil_r.
    repeat (split; [assumption|]).
    split.
    { intros Hs. destruct (Hst Hs) as [Hge _]. split; [exact Hge|discriminate]. }
    intros Hs _. apply Hall; [exact Hs|discriminate].
Qed.

Lemma quiet_inv_steps (self : t) (fs : FS) (cs : list candidate)
  (acts : list action) :
  forallb is_internal acts = true ->
  forall s s' ys, quiet_inv self fs cs s ys ->
                  run_steps self fs acts s = Some s' ->
                  exists ys', quiet_inv self fs cs s' ys'.
Proof.
  induction acts as [|a acts IH]; cbn; intros Hint s s' ys Hinv.
  - intros [= <-]. eauto.
  - apply andb_prop in Hint as [Ha Hrest].
    destruct (run_step self fs a s) as [s1|] eqn:Hs; [|discriminate]. cbn.
    destruct (quiet_inv_step _ _ _ _ _ _ _ Ha Hinv Hs) as [ys1 Hinv1].
    eapply IH; eassumption.
Qed.

End QuietRuns.

Section Termination.
Context `{PyLib}.
Import SearchEngine.

Lemma find_index_Some {A} (P : A -> bool) (l : list A) (i : nat) :
  find_index P l = Some i -> exists x, l !! i = Some x /\ P x = true.
Proof.
  revert i. induction l as [|x l IH]; intros i; cbn; [discriminate|].
  destruct (P x) eqn:HP.
  - intros [= <-]. eauto.
  - destruct (find_index P l) as [j|]; [|discriminate].
    intros [= <-]. apply IH. reflexivity.
Qed.

Lemma find_index_None {A} (P : A -> bool) (l : list A) :
  find_index P l = None -> forallb (fun x => negb (P x)) l = true.
Proof.
  induction l as [|x l IH]; cbn; [reflexivity|].
  destruct (P x); [discriminate|].
  destruct (find_index P l); [discriminate|]. intros _. apply IH. reflexivity.
Qed.

Lemma count_if_insert_same {A} (P : A -> bool) (l : list A) (i : nat) (x y : A) :
  l !! i = Some x -> P y = P x -> count_if P (<[i := y]> l) = count_if P l.
Proof.
  revert i. induction l as [|z l IH]; intros [|i]; cbn; try discriminate.
  - intros [= ->] ->. reflexivity.
  - intros Hl Hy. f_equal. apply IH; assumption.
Qed.

Lemma count_if_insert_less {A} (P : A -> bool) (l : list A) (i : nat) (x y : A) :
  l !! i = Some x -> P x = true -> P y = false ->
  S (count_if P (<[i := y]> l)) = count_if P l.
Proof.
  revert i. induction l as [|z l IH]; intros [|i]; cbn; try discriminate.
  - intros [= ->] -> ->. reflexivity.
  - intros Hl Hx Hy. rewrite <- Nat.add_succ_r. f_equal. apply IH; assumption.
Qed.

(** The scheduler's action can be taken, is the program's own, and leaves
    less to do. *)
Lemma next_action_step (self : t) (fs : FS) (s : state) (a : action) :
  next_action s = Some a ->
  is_internal a = true /\
  exists s', run_step self fs a s = Some s' /\ (work_left s' < work_left s)%nat.
Proof.
  unfold next_action.
  destruct (find_index unfinished (futures s)) as [i|] eqn:Hun.
  - intros [= <-]. split; [reflexivity|].
    destruct (find_index_Some _ _ _ Hun) as (f & Hf & Hu).
    unfold unfinished in Hu. apply bool_decide_eq_true in Hu.
    cbn. rewrite Hf. cbn. rewrite Hu, orb_true_r.
    eexists. split; [reflexivity|]. unfold work_left. cbn.
    rewrite (count_if_insert_same unyielded _ _ f) by (exact Hf || reflexivity).
    rewrite <- (count_if_insert_less unfinished (futures s) i f
                  (set_result f (search_candidate self fs (f_cand f) None)));
      [lia|exact Hf| |reflexivity].
    unfold unfinished. rewrite Hu. reflexivity.
  - pose proof (find_index_None _ _ Hun) as Hfin.
    destruct (phase_of s) eqn:Hph.
    + destruct (find_index unyielded (futures s)) as [i|] eqn:Hy.
      * intros [= <-]. split; [reflexivity|].
        destruct (find_index_Some _ _ _ Hy) as (f & Hf & Hu).
        unfold unyielded in Hu. apply negb_true_iff in Hu.
        assert (Hres : exists res, f_result f = Some res).
        { rewrite forallb_forall in Hfin.
          specialize (Hfin f). unfold unfinished in Hfin.
          destruct (f_result f) as [res|]; [eauto|].
          exfalso. rewrite bool_decide_eq_true_2 in Hfin by reflexivity.
          specialize (Hfin ltac:(apply list_elem_of_In;
                                  eapply list_elem_of_lookup_2; exact Hf)).
          discriminate. }
        destruct Hres as [res Hres].
        cbn. rewrite Hph, Hf. cbn. rewrite Hres. cbn. rewrite Hu.
        eexists. split; [reflexivity|]. unfold work_left. rewrite Hph.
        destruct (loop_body_cases self i f res s)
          as [[_ ->]|[(_ & _ & ->)|(_ & _ & q1 & _ & _ & ->)]]; cbn; try lia.
        rewrite (count_if_insert_same unfinished _ _ f) by (exact Hf || reflexivity).
        rewrite <- (count_if_insert_less unyielded (futures s) i f (set_yielded f));
          [lia|exact Hf| |reflexivity].
        unfold unyielded. rewrite Hu. reflexivity.
      * intros [= <-]. split; [reflexivity|].
        pose proof (find_index_None _ _ Hy) as Hall.
        cbn. rewrite Hph.
        replace (forallb f_yielded (futures s)) with true.
        2:{ symmetry. rewrite forallb_forall in Hall |- *. intros f Hf.
            specialize (Hall f Hf). unfold unyielded in Hall.
            rewrite negb_involutive in Hall. exact Hall. }
        eexists. split; [reflexivity|]. unfold work_left. rewrite Hph. cbn. lia.
    + intros [= <-]. split; [reflexivity|]. cbn. rewrite Hph.
      replace (forallb (fun f => bool_decide (is_Some (f_result f))) (futures s))
        with true.
      2:{ symmetry. rewrite forallb_forall in Hfin |- *. intros f Hf.
          specialize (Hfin f Hf). unfold unfinished in Hfin.
          apply negb_true_iff, bool_decide_eq_false in Hfin.
          apply bool_decide_eq_true. destruct (f_result f); [eauto|congruence]. }
      eexists. split; [reflexivity|]. unfold work_left. rewrite Hph. cbn. lia.
    + discriminate.
Qed.

Lemma next_action_None (s : state) :
  next_action s = None -> phase_of s = Finished.
Proof.
  unfold next_action. destruct (find_index unfinished _); [discriminate|].
  destruct (phase_of s); [|discriminate|reflexivity].
  destruct (find_index unyielded _); discriminate.
Qed.

(** From every state the program can go on, by actions of its own, until
    [done] is on the queue. *)
Lemma run_steps_can_finish (self : t) (fs : FS) (n : nat) :
  forall s, (work_left s <= n)%nat ->
    exists acts s',
      forallb is_internal acts = true /\
      run_steps self fs acts s = Some s' /\
      phase_of s' = Finished.
Proof.
  induction n as [|n IH]; intros s Hn.
  - destruct (next_action s) as [a|] eqn:Ha.
    + destruct (next_action_step self fs s a Ha) as (_ & s' & _ & Hlt). lia.
    + exists [], s. repeat split. apply next_action_None. exact Ha.
  - destruct (next_action s) as [a|] eqn:Ha.
    + destruct (next_action_step self fs s a Ha) as (Hint & s1 & Hs1 & Hlt).
      destruct (IH s1 ltac:(lia)) as (acts & s' & Hall & Hrun & Hph).
      exists (a :: acts), s'. cbn. rewrite Hint, Hs1. auto.
    + exists [], s. repeat split. apply next_action_None. exact Ha.
Qed.

Lemma run_steps_app (self : t) (fs : FS) (acts1 acts2 : list action) :
  forall s,
    run_steps self fs (acts1 ++ acts2) s
    = s1 ← run_steps self fs acts1 s; run_steps self fs acts2 s1.
Proof.
  induction acts1 as [|a acts1 IH]; intros s; cbn; [reflexivity|].
  destruct (run_step self fs a s) as [s1|]; cbn; [apply IH|reflexivity].
Qed.

(** Every run can be brought to its end: whatever has happened so far,
    the schedule has a continuation, made of actions of the program, after
    which [done] is on the queue. *)
Theorem run_can_always_finish (self : t) (fs : FS) (tree : dirtree)
  (scan_stop : option nat) (acts : list action) (s : state) :
  run self fs tree scan_stop acts = Some s ->
  exists more s',
    forallb is_internal more = true /\
    run self fs tree scan_stop (acts ++ more) = Some s' /\
    phase_of s' = Finished.
Proof.
  intros Hrun.
  destruct (run_steps_can_finish self fs (work_left s) s (le_n _))
    as (more & s' & Hint & Hmore & Hph).
  exists more, s'. split; [exact Hint|]. split; [|exact Hph].
  unfold run in *. rewrite run_steps_app, Hrun. exact Hmore.
Qed.

End Termination.

Section TwoCandidates.
Context `{PyLib}.
Import SearchEngine.

(** The orders in which the loop can have taken futures out of two. *)
Lemma NoDup_below_two (ys : list nat) :
  NoDup ys -> (forall i, i ∈ ys -> (i < 2)%nat) ->
  ys = [] \/ ys = [0%nat] \/ ys = [1%nat] \/ ys = [0%nat; 1%nat] \/ ys = [1%nat; 0%nat].
Proof.
  intros Hnd Hlt.
  destruct ys as [|a [|b [|c ys]]].
  - auto.
  - assert (a < 2)%nat by (apply Hlt; set_solver).
    destruct a as [|[|a]]; [auto | auto 6 | lia].
  - assert (a < 2)%nat by (apply Hlt; set_solver).
    assert (b < 2)%nat by (apply Hlt; set_solver).
    assert (a <> b).
    { apply NoDup_cons in Hnd as [Hab _]. set_solver. }
    destruct a as [|[|a]], b as [|[|b]]; try lia; auto 8.
  - assert (a < 2)%nat by (apply Hlt; set_solver).
    assert (b < 2)%nat by (apply Hlt; set_solver).
    assert (c < 2)%nat by (apply Hlt; set_solver).
    apply NoDup_cons in Hnd as [Hab Hnd].
    apply NoDup_cons in Hnd as [Hbc _].
    assert (a <> b /\ a <> c /\ b <> c) by set_solver. lia.
Qed.

(** A finished run that nobody stopped from outside: it raised the warning
    once, with the count at the ceiling or over, or it took every future,
    without a warning. *)
Lemma quiet_finished (self : t) (fs : FS) (cs : list candidate) (s : state)
  (ys : list nat) :
  quiet_inv self fs cs s ys ->
  phase_of s = Finished ->
  (warn_events (out_q s) = [warn_msg (max_matches_of self)] /\
   (max_matches_of self <= Z.of_nat (length (match_events (out_q s))))%Z) \/
  (warn_events (out_q s) = [] /\
   forall i, (i < length cs)%nat -> i ∈ ys).
Proof.
  intros (Hnd & Hin & Hcs & Hyl & Hyr & Hres & Hme & Hmf & Hpre & Hw & Hst & Hall) Hph.
  destruct (stop_event s) eqn:Hs.
  - left. split; [exact Hw|]. rewrite <- Hmf. apply Hst. reflexivity.
  - right. split; [exact Hw|]. intros i Hi.
    rewrite <- Hcs, length_map in Hi.
    destruct (lookup_lt_is_Some_2 _ _ Hi) as [f Hf].
    apply (Hyl i f Hf). eapply Hall; [reflexivity| |exact Hf]. congruence.
Qed.

End TwoCandidates.

Section CeilingOfOne.
Context `{PyLib}.
Import SearchEngine.

(** C4, as the program has it: with a ceiling of 1 and two candidates that
    both have a matching line, in a run nobody stops from outside the two
    futures submitted before the loop stay the only ones, and once the run
    has finished, whatever the order in which the workers returned, there
    is one [warn] event and the [match] events are the whole result of one
    of the two candidates, the first the loop took: one event when each
    file has one matching line. *)
Theorem C4_ceiling_one_two_matching_files
  (self : t) (fs : FS) (tree : dirtree) (c0 c1 : candidate)
  (acts : list action) (s : state) :
  max_matches_of self = 1%Z ->
  scan self fs tree None = [c0; c1] ->
  search_candidate self fs c0 None <> [] ->
  search_candidate self fs c1 None <> [] ->
  forallb is_internal acts = true ->
  run self fs tree None acts = Some s ->
  map f_cand (futures s) = [c0; c1] /\
  (phase_of s = Finished ->
   warn_events (out_q s) = [warn_msg 1] /\
   (match_events (out_q s) = search_candidate self fs c0 None \/
    match_events (out_q s) = search_candidate self fs c1 None) /\
   (length (search_candidate self fs c0 None) = 1%nat ->
    length (search_candidate self fs c1 None) = 1%nat ->
    length (match_events (out_q s)) = 1%nat)).
Proof.
  intros Hmax Hscan Hc0 Hc1 Hint Hrun.
  destruct (quiet_inv_steps self fs _ acts Hint _ _ _
              (quiet_inv_start self fs tree) Hrun) as [ys Hinv].
  rewrite Hscan in Hinv.
  pose proof Hinv as
    (Hnd & Hin & Hcs & _ & _ & _ & Hme & _ & Hpre & _ & _ & _).
  split; [exact Hcs|]. intros Hph.
  assert (Hlen : length (futures s) = 2%nat).
  { rewrite <- (length_map f_cand), Hcs. reflexivity. }
  rewrite Hlen in Hin. rewrite Hmax in Hpre.
  assert (Hone : ys = [0%nat] \/ ys = [1%nat]).
  { destruct (NoDup_below_two ys Hnd Hin) as [->|[->|[->|[->| ->]]]]; auto.
    - destruct (quiet_finished _ _ _ _ _ Hinv Hph) as [[_ Hge]|[_ Hall]].
      + rewrite Hme, Hmax in Hge. cbn in Hge. lia.
      + specialize (Hall 0%nat ltac:(cbn; lia)). inversion Hall.
    - specialize (Hpre [0%nat] 1%nat eq_refl). cbn in Hpre.
      rewrite app_nil_r in Hpre.
      destruct (search_candidate self fs c0 None); [congruence|cbn in Hpre; lia].
    - specialize (Hpre [1%nat] 0%nat eq_refl). cbn in Hpre.
      rewrite app_nil_r in Hpre.
      destruct (search_candidate self fs c1 None); [congruence|cbn in Hpre; lia]. }
  assert (Hev : match_events (out_q s) = search_candidate self fs c0 None \/
                match_events (out_q s) = search_candidate self fs c1 None).
  { rewrite Hme. destruct Hone as [-> | ->]; cbn; rewrite app_nil_r; auto. }
  split.
  - destruct (quiet_finished _ _ _ _ _ Hinv Hph) as [[Hw _]|[_ Hall]].
    + rewrite Hw, Hmax. reflexivity.
    + destruct Hone as [-> | ->].
      * specialize (Hall 1%nat ltac:(cbn; lia)).
        apply list_elem_of_singleton in Hall. discriminate.
      * specialize (Hall 0%nat ltac:(cbn; lia)).
        apply list_elem_of_singleton in Hall. discriminate.
  - split; [exact Hev|]. intros H0 H1. destruct Hev as [-> | ->]; assumption.
Qed.

End CeilingOfOne.

(** The claim of C4 fails when a file has more than one matching line:
    with the two files of [two_files_fs], a ceiling of 1 and the pattern
    "x", the run in which the worker of [a.txt] is taken first puts two
    [match] events before the warning. *)
Lemma C4_two_match_events_under_ceiling_one :
  SearchEngine.__init__ "r" (sample_opts "x" 1 false) [] [] = inr x_engine /\
  SearchEngine.scan x_engine two_files_fs two_files_tree None
    = [(a_txt, false, None); (b_txt, false, None)] /\
  SearchEngine.out_q <$>
    SearchEngine.run x_engine two_files_fs two_files_tree None
      [SearchEngine.Complete 0 None; SearchEngine.Complete 1 None;
       SearchEngine.Yield 0; SearchEngine.Yield 1; SearchEngine.Shutdown]
  = Some [EvProgress;
          EvMatch {| path := a_txt; line_no := 1; preview := "x";
                     is_archive := false; member := None |};
          EvMatch {| path := a_txt; line_no := 2; preview := "x";
                     is_archive := false; member := None |};
          EvWarn "Max matches (1) reached. Search stopped.";
          EvDone].
Proof. split; [reflexivity|]. split; vm_compute; reflexivity. Qed.

(** C4 on the two files of [two_files_fs]. *)
Lemma C4_ceiling_one_witness :
  exists s,
    SearchEngine.run x_engine two_files_fs two_files_tree None
      [SearchEngine.Complete 1 None; SearchEngine.Complete 0 None;
       SearchEngine.Yield 1; SearchEngine.Yield 0; SearchEngine.Shutdown]
    = Some s /\
    SearchEngine.phase_of s = SearchEngine.Finished /\
    warn_events (SearchEngine.out_q s) = [SearchEngine.warn_msg 1] /\
    (match_events (SearchEngine.out_q s)
     = SearchEngine.search_candidate x_engine two_files_fs (a_txt, false, None) None \/
     match_events (SearchEngine.out_q s)
     = SearchEngine.search_candidate x_engine two_files_fs (b_txt, false, None) None).
Proof.
  eexists. split; [vm_compute; reflexivity|]. split; [reflexivity|].
  pose proof (C4_ceiling_one_two_matching_files x_engine two_files_fs
                two_files_tree (a_txt, false, None) (b_txt, false, None)
                [SearchEngine.Complete 1 None; SearchEngine.Complete 0 None;
                 SearchEngine.Yield 1; SearchEngine.Yield 0; SearchEngine.Shutdown]
                _ eq_refl ltac:(vm_compute; reflexivity)
                ltac:(vm_compute; discriminate) ltac:(vm_compute; discriminate)
                eq_refl ltac:(vm_compute; reflexivity)) as [_ Hfin].
  destruct (Hfin eq_refl) as (Hw & Hm & _). split; [exact Hw|exact Hm].
Defined.

Section LiteralSearch.
Context `{PyLib}.

Lemma match_here_literal (ignorecase : bool) (needle : string) :
  forall (prev : option ascii) (s : string),
    match_here ignorecase (map AChar (list_ascii_of_string needle)) prev s
    = if ignorecase then startswith (lower_str needle) (lower_str s)
      else startswith needle s.
Proof.
  induction needle as [|c needle IH]; intros prev s; cbn.
  - destruct ignorecase; reflexivity.
  - destruct s as [|d s]; [destruct ignorecase; reflexivity|].
    rewrite IH. destruct ignorecase; reflexivity.
Qed.

Lemma search_from_literal (ignorecase : bool) (needle : string) :
  forall (prev : option ascii) (s : string),
    search_from ignorecase (map AChar (list_ascii_of_string needle)) prev s
    = line_contains (negb ignorecase) needle s.
Proof.
  intros prev s. revert prev. induction s as [|d s IH]; intros prev.
  - cbn [search_from]. rewrite match_here_literal.
    destruct ignorecase; cbn; reflexivity.
  - cbn [search_from]. rewrite match_here_literal, IH.
    destruct ignorecase; cbn; reflexivity.
Qed.

Lemma no_wordb_in_chars (l : list ascii) :
  existsb is_wordb (map AChar l) = false.
Proof. induction l as [|c l IH]; [reflexivity|exact IH]. Qed.

Lemma ascii_chars (text : string) :
  is_ascii_str text = true ->
  existsb atom_non_ascii (map AChar (list_ascii_of_string text)) = false.
Proof.
  induction text as [|c text IH]; [reflexivity|]. cbn.
  intros Hc. apply andb_prop in Hc as [Hc Ht].
  rewrite Hc, (IH Ht). reflexivity.
Qed.

(** The search of the characters of a literal does not depend on the
    Unicode tables when letter case counts, or when the literal and the
    line are ASCII. *)
Lemma literal_not_unicode_dependent (text : string) (case : bool) (line : string) :
  case = true \/ (is_ascii_str text = true /\ is_ascii_str line = true) ->
  unicode_dependent (map AChar (list_ascii_of_string text)) (negb case) line
  = false.
Proof.
  unfold unicode_dependent. rewrite no_wordb_in_chars. cbn [andb orb].
  intros [->|[Ht Hl]]; [reflexivity|].
  rewrite (ascii_chars _ Ht), Hl. cbn. rewrite andb_false_r.
  apply andb_false_r.
Qed.

(** The matcher of a literal pattern is the substring test, when letter
    case counts or the literal and the line are ASCII. *)
Lemma literal_engine (root : string) (o : Opts) (include exclude : list string)
  (text : string) (case : bool) :
  exists self,
    SearchEngine.__init__ root (with_pattern o text case false false)
      include exclude = inr self /\
    SearchEngine.root self = root /\
    SearchEngine.opts self = with_pattern o text case false false /\
    SearchEngine.include self = include /\
    SearchEngine.exclude self = exclude /\
    forall line,
      case = true \/ (is_ascii_str text = true /\ is_ascii_str line = true) ->
      re_search (SearchEngine.regex self) line = line_contains case text line.
Proof.
  eexists. split.
  { unfold SearchEngine.__init__, with_pattern. cbn.
    rewrite re_compile_escape. reflexivity. }
  cbn. repeat split. intros line Hc.
  rewrite (literal_not_unicode_dependent text case line Hc).
  rewrite search_from_literal, negb_involutive. reflexivity.
Qed.





End LiteralSearch.

Section ZipArchive.
Context `{PyLib}.
Import SearchEngine.




End ZipArchive.

Section AtomicWrite.

Lemma str_length_append (s1 s2 : string) :
  String.length (s1 +:+ s2) = (String.length s1 + String.length s2)%nat.
Proof.
  induction s1 as [|c s1 IH]; [reflexivity|].
  change (S (String.length (s1 +:+ s2))
          = S (String.length s1 + String.length s2)).
  f_equal. exact IH.
Qed.

Lemma append_ne_self (s ext : string) : ext <> EmptyString -> s +:+ ext <> s.
Proof.
  intros Hne Heq. apply (f_equal String.length) in Heq.
  rewrite str_length_append in Heq.
  destruct ext; [congruence|]. cbn in Heq. lia.
Qed.

Lemma bak_path_ne (path : Path) : bak_path path <> path.
Proof.
  destruct path as [d n]. unfold bak_path. cbn. intros [= Heq].
  revert Heq. apply append_ne_self. discriminate.
Qed.

Lemma with_added_suffix_bak (path : Path) (q : Path) :
  with_added_suffix path ".bak" = inr q -> q = bak_path path.
Proof.
  unfold with_added_suffix, bak_path. destruct (name path); [discriminate|].
  intros [= <-]. reflexivity.
Qed.

(** When the [try] block raises, it leaves the target as it was. *)
Lemma backup_and_rename_failure (env : os_env) (path temp : Path)
  (make_backup : bool) (fs fs1 : FS) (e : exn) :
  backup_and_rename env path temp make_backup fs = (fs1, inl e) ->
  fs1 !! path = fs !! path.
Proof.
  unfold backup_and_rename, mbind, IO_bind.
  assert (Hrep : forall fs0 fs1, os_replace env temp path fs0 = (fs1, inl e) ->
                                 fs1 = fs0).
  { intros fs0 fs2. unfold os_replace.
    destruct (replace_fault env); [intros [= <- _]; reflexivity|].
    destruct (fs0 !! temp); [discriminate|]. intros [= <- _]. reflexivity. }
  destruct make_backup; cbn.
  2:{ intros Hr. apply Hrep in Hr. subst. reflexivity. }
  destruct (bool_decide (is_Some (fs !! path))); cbn.
  2:{ intros Hr. apply Hrep in Hr. subst. reflexivity. }
  unfold lift. destruct (with_added_suffix path ".bak") as [e'|bak] eqn:Hbak;
    [intros [= <- _]; reflexivity|].
  apply with_added_suffix_bak in Hbak. subst bak.
  unfold shutil_copy2. destruct (copy_fault env) as [[e' [partial|]]|].
  - intros [= <- _]. apply lookup_insert_ne. apply bak_path_ne.
  - intros [= <- _]. reflexivity.
  - destruct (open_read fs path) as [e'|f]; [intros [= <- _]; reflexivity|].
    intros Hr. destruct (os_replace env temp path _) as [fs2 [e2|[]]] eqn:Hrp;
      [|discriminate].
    injection Hr as <- <-. apply Hrep in Hrp. subst fs2.
    apply lookup_insert_ne. apply bak_path_ne.
Qed.

(** A failure inside the [try] block of [atomic_write], the backup or the
    rename: the temporary file is removed, the error of the block is the
    error of [atomic_write], and the target is as it was. *)
Lemma atomic_write_guarded_failure (env : os_env) (path : Path) (content : string)
  (make_backup : bool) (fs fs1 : FS) (e : exn) :
  create_fault env = None -> write_fault env = None -> remove_fault env = None ->
  fs !! temp_path env path = None ->
  backup_and_rename env path (temp_path env path) make_backup
    (<[temp_path env path := text_file content]> fs) = (fs1, inl e) ->
  exists fs',
    atomic_write env path content make_backup fs = (fs', inl e) /\
    fs' !! temp_path env path = None /\
    fs' !! path = fs !! path.
Proof.
  intros Hc Hw Hrm Hfresh Hblock.
  pose proof (backup_and_rename_failure _ _ _ _ _ _ _ Hblock) as Hpath.
  unfold atomic_write, mbind, IO_bind, named_temporary_file, tf_write.
  rewrite Hc, Hw. fold (temp_path env path). rewrite Hfresh.
  rewrite insert_insert_eq. unfold try_except. rewrite Hblock.
  unfold cleanup_and_reraise, mbind, IO_bind, path_exists, os_remove, raise.
  rewrite Hrm.
  destruct (fs1 !! temp_path env path) as [tf|] eqn:Htmp; cbn.
  - rewrite Htmp. eexists. split; [reflexivity|]. split; [apply lookup_delete_eq|].
    destruct (decide (temp_path env path = path)) as [Heq|Hne].
    + rewrite <- Heq at 1 3. rewrite lookup_delete_eq. symmetry. exact Hfresh.
    + rewrite lookup_delete_ne by exact Hne. rewrite Hpath.
      apply lookup_insert_ne. exact Hne.
  - eexists. split; [reflexivity|]. split; [exact Htmp|].
    rewrite Hpath. destruct (decide (temp_path env path = path)) as [Heq|Hne].
    + rewrite <- Heq in Hpath. rewrite lookup_insert_eq in Hpath. congruence.
    + apply lookup_insert_ne. exact Hne.
Qed.

(** C1, on the program: when the disk fills up while the temporary file is
    written, after it was created and before the rename, [atomic_write]
    raises the error and leaves the target as it was, but the temporary
    file stays, with the text that reached it. *)
Theorem C1_write_failure_leaves_temporary_file :
  (atomic_write disk_full_env notes_txt "baz bar baz" true notes_fs).2
  = inl (OSError "No space left on device") /\
  (atomic_write disk_full_env notes_txt "baz bar baz" true notes_fs).1
    !! notes_txt = notes_fs !! notes_txt /\
  (atomic_write disk_full_env notes_txt "baz bar baz" true notes_fs).1
    !! temp_path disk_full_env notes_txt = Some (text_file "baz b").
Proof. split; [reflexivity|]. split; vm_compute; reflexivity. Qed.

End AtomicWrite.

(** The rename fails: the temporary file is removed, the error comes out
    and the target keeps its bytes ([atomic_write_guarded_failure] on
    [notes_fs]). *)
Lemma atomic_write_rename_failure_example :
  exists fs',
    atomic_write rename_fails_env notes_txt "baz bar baz" true notes_fs
    = (fs', inl (OSError "Access is denied")) /\
    fs' !! temp_path rename_fails_env notes_txt = None /\
    fs' !! notes_txt = notes_fs !! notes_txt.
Proof.
  eapply (atomic_write_guarded_failure rename_fails_env notes_txt "baz bar baz"
            true notes_fs); reflexivity.
Defined.

Section Replacement.
Context `{PyLib}.
Import ReplacementWorker.

(** [atomic_write] when nothing fails: the target has the new text and the
    temporary file is gone. *)
Lemma atomic_write_ok (env : os_env) (path : Path) (content : string)
  (make_backup : bool) (fs : FS) (f0 : file) :
  no_fault env ->
  fs !! temp_path env path = None ->
  fs !! path = Some f0 -> readable f0 = true ->
  name path <> EmptyString ->
  temp_name env <> name path +:+ ".bak" ->
  exists fs',
    atomic_write env path content make_backup fs = (fs', inr ()) /\
    fs' !! path = Some (text_file content) /\
    fs' !! temp_path env path = None.
Proof.
  intros (Hc & Hw & Hcp & Hrp & Hrm) Hfresh Hp Hr Hname Hbak.
  assert (Hne : temp_path env path <> path) by congruence.
  assert (Hnb : temp_path env path <> bak_path path).
  { unfold temp_path, bak_path. intros [= Heq]. contradiction. }
  unfold atomic_write, mbind, IO_bind, named_temporary_file, tf_write.
  rewrite Hc, Hw. fold (temp_path env path). rewrite Hfresh.
  rewrite insert_insert_eq. unfold try_except.
  remember (<[temp_path env path := text_file content]> fs) as fs2 eqn:Hfs2.
  assert (Hp2 : fs2 !! path = Some f0).
  { subst fs2. rewrite lookup_insert_ne by exact Hne. exact Hp. }
  assert (Ht2 : fs2 !! temp_path env path = Some (text_file content)).
  { subst fs2. apply lookup_insert_eq. }
  clear Hfs2.
  assert (Hblock : exists fs3,
             backup_and_rename env path (temp_path env path) make_backup fs2
             = (fs3, inr ()) /\
             fs3 !! path = Some (text_file content) /\
             fs3 !! temp_path env path = None).
  { unfold backup_and_rename, mbind, IO_bind, path_exists, lift.
    assert (Hrep : forall fs0, fs0 !! temp_path env path = Some (text_file content) ->
              exists fs3, os_replace env (temp_path env path) path fs0 = (fs3, inr ()) /\
                          fs3 !! path = Some (text_file content) /\
                          fs3 !! temp_path env path = None).
    { intros fs0 H0. unfold os_replace. rewrite Hrp, H0. eexists.
      split; [reflexivity|]. split; [apply lookup_insert_eq|].
      rewrite lookup_insert_ne by auto. apply lookup_delete_eq. }
    destruct make_backup.
    - rewrite Hp2. cbn. unfold with_added_suffix.
      destruct (name path) as [|c n] eqn:Hn; [contradiction|]. rewrite <- Hn.
      fold (bak_path path). unfold shutil_copy2, open_read.
      rewrite Hcp, Hp2, Hr. apply Hrep.
      rewrite lookup_insert_ne by auto. exact Ht2.
    - apply Hrep. exact Ht2. }
  destruct Hblock as (fs3 & -> & H3p & H3t). eauto.
Qed.

(** C2, as the program has it: replacing the literal "foo" by "baz", case
    counting, in a file that is "foo bar foo" writes "baz bar baz", and the
    search for the literal "baz" in the file then gives one [Match], the
    one of line 1, for the line has the two occurrences. *)
Theorem C2_replace_then_search_one_match_per_line
  (o : Opts) (root : string) (include exclude : list string) (case : bool)
  (fs : FS) (item_id : string) (p : Path) (backup : bool) (env : os_env) :
  no_fault env ->
  fs !! temp_path env p = None ->
  temp_name env <> name p ->
  temp_name env <> name p +:+ ".bak" ->
  name p <> EmptyString ->
  exists fs1 self,
    run [(item_id, p)] (literal_find "foo") "baz" backup (fun _ => env)
      (<[p := text_file "foo bar foo"]> fs)
    = (fs1, [RStep 1 (name p); RDone 1]) /\
    fs1 !! p = Some (text_file "baz bar baz") /\
    SearchEngine.__init__ root (with_pattern o "baz" case false false)
      include exclude = inr self /\
    SearchEngine._search_content self fs1 p false None None
    = [ {| path := p; line_no := 1; preview := "baz bar baz";
           is_archive := false; member := None |} ].
Proof.
  intros Hnf Hfresh Htmp Hbak Hname.
  set (fs0 := <[p := text_file "foo bar foo"]> fs).
  assert (Hp0 : fs0 !! p = Some (text_file "foo bar foo"))
    by apply lookup_insert_eq.
  assert (Hne : temp_path env p <> p).
  { unfold temp_path. destruct p as [d n]. cbn in *. congruence. }
  assert (Hfresh0 : fs0 !! temp_path env p = None).
  { unfold fs0. rewrite lookup_insert_ne by auto. exact Hfresh. }
  destruct (atomic_write_ok env p "baz bar baz" backup fs0
              (text_file "foo bar foo") Hnf Hfresh0 Hp0 eq_refl Hname Hbak)
    as (fs1 & Haw & H1p & _).
  exists fs1. eexists. split; [|split; [exact H1p|split; [reflexivity|]]].
  - assert (Hread : read_file_lines fs0 p false None = ["foo bar foo"]).
    { unfold read_file_lines, open_read. rewrite Hp0. vm_compute. reflexivity. }
    assert (Hsub : substitute None (literal_find "foo") "baz"
                     (str_join ["foo bar foo"]) = inr "baz bar baz")
      by (vm_compute; reflexivity).
    assert (Hfile : replace_file None (literal_find "foo") "baz" backup env p fs0
                    = (fs1, inr true)).
    { unfold replace_file. rewrite Hread, Hsub.
      unfold mbind, IO_bind, lift. cbv beta iota.
      rewrite bool_decide_eq_false_2 by (cbv; discriminate).
      rewrite Haw. reflexivity. }
    unfold run. change (compile_rx (literal_find "foo")) with (inr None : exn + option Regex).
    cbv beta iota. unfold replace_loop. rewrite Hfile. reflexivity.
  - erewrite search_content_scanned.
    2:{ unfold scanned_lines. rewrite H1p. reflexivity. }
    destruct case; reflexivity.
Qed.

(** The loop puts its events after those already on the queue. *)
Lemma replace_loop_queue (rx : option Regex) (fo : FindOpts) (repl : string)
  (backup : bool) (envs : nat -> os_env) (items : list (string * Path)) :
  forall i count q fs,
    replace_loop rx fo repl backup envs i items count q fs
    = let '(fs', c', q') := replace_loop rx fo repl backup envs i items count [] fs in
      (fs', c', q ++ q').
Proof.
  induction items as [|[id p] items IH]; intros i count q fs; cbn.
  - rewrite app_nil_r. reflexivity.
  - destruct (replace_file rx fo repl backup (envs i) p fs) as [fs' [e|changed]].
    + rewrite IH.
      rewrite (IH _ _ [RError _]).
      destruct (replace_loop rx fo repl backup envs (S i) items count [] fs')
        as [[fs2 c2] q2]. rewrite <- app_assoc. reflexivity.
    + rewrite IH.
      rewrite (IH _ _ [RStep _ _]).
      destruct (replace_loop rx fo repl backup envs (S i) items _ [] fs')
        as [[fs2 c2] q2]. rewrite <- app_assoc. reflexivity.
Qed.

(** The loop over a job in two parts. *)
Lemma replace_loop_app (rx : option Regex) (fo : FindOpts) (repl : string)
  (backup : bool) (envs : nat -> os_env) (items1 items2 : list (string * Path)) :
  forall i count q fs,
    replace_loop rx fo repl backup envs i (items1 ++ items2) count q fs
    = let '(fs1, c1, q1) :=
        replace_loop rx fo repl backup envs i items1 count q fs in
      replace_loop rx fo repl backup envs (i + length items1) items2 c1 q1 fs1.
Proof.
  induction items1 as [|[id p] items1 IH]; intros i count q fs; cbn.
  - rewrite Nat.add_0_r. reflexivity.
  - destruct (replace_file rx fo repl backup (envs i) p fs) as [fs' [e|changed]];
      rewrite IH; replace (S i + length items1)%nat
        with (i + S (length items1))%nat by lia; reflexivity.
Qed.

(** Every file of the job is reported, in order, by one event. *)
Lemma replace_loop_reports (rx : option Regex) (fo : FindOpts) (repl : string)
  (backup : bool) (envs : nat -> os_env) (items : list (string * Path)) :
  forall i count fs fs' c' q',
    replace_loop rx fo repl backup envs i items count [] fs = (fs', c', q') ->
    length q' = length items /\
    forall k it ev, items !! k = Some it -> q' !! k = Some ev ->
                    reports (S (i + k)) it.2 ev.
Proof.
  induction items as [|[id p] items IH]; intros i count fs fs' c' q'; cbn.
  - intros [= <- <- <-]. split; [reflexivity|]. intros k it ev Hk. discriminate.
  - destruct (replace_file rx fo repl backup (envs i) p fs) as [fs1 [e|changed]];
      rewrite replace_loop_queue;
      destruct (replace_loop rx fo repl backup envs (S i) items _ [] fs1)
        as [[fs2 c2] q2] eqn:Hrest;
      intros [= <- <- <-]; destruct (IH _ _ _ _ _ _ Hrest) as [Hlen Hrep];
      (split; [cbn; rewrite Hlen; reflexivity|]);
      intros [|k] it ev; cbn.
    + intros [= <-] [= <-]. right. eauto.
    + intros Hk Hev. replace (i + S k)%nat with (S i + k)%nat by lia. eauto.
    + intros [= <-] [= <-]. left. rewrite Nat.add_0_r. reflexivity.
    + intros Hk Hev. replace (i + S k)%nat with (S i + k)%nat by lia. eauto.
Qed.

(** C5, as the program has it: an exception that leaves the processing of
    one file, from the substitution or from [atomic_write], is put on the
    queue as an [error] event made of the name of the file and the message,
    after the events of the files before; every file after it is then
    processed and reported by one event, and [done] ends the queue.  A file
    that cannot be opened raises nothing: [read_file_lines] gives no
    line. *)
Theorem C5_file_error_reported_and_job_continues
  (rx : option Regex) (fo : FindOpts) (repl : string) (backup : bool)
  (envs : nat -> os_env) (items1 items2 : list (string * Path))
  (item_id : string) (p : Path) (fs fs1 : FS) (c1 : nat)
  (q1 : list revent) (e : exn) :
  compile_rx fo = inr rx ->
  replace_loop rx fo repl backup envs 0 items1 0 [] fs = (fs1, c1, q1) ->
  (replace_file rx fo repl backup (envs (length items1)) p fs1).2 = inl e ->
  exists fs3 c3 q3,
    run (items1 ++ (item_id, p) :: items2) fo repl backup envs fs
    = (fs3, q1 ++ RError (name p +:+ ": " +:+ exn_str e) :: q3 ++ [RDone c3]) /\
    length q3 = length items2 /\
    (forall k it ev, items2 !! k = Some it -> q3 !! k = Some ev ->
                     reports (S (S (length items1 + k))) it.2 ev) /\
    (forall fs0 p0 err, open_read fs0 p0 = inl err ->
                        read_file_lines fs0 p0 false None = []).
Proof.
  intros Hrx H1 Hfile.
  destruct (replace_file rx fo repl backup (envs (length items1)) p fs1)
    as [fs2 r] eqn:Hfile'. cbn in Hfile. subst r. rename Hfile' into Hfile.
  destruct (replace_loop rx fo repl backup envs (S (length items1)) items2 c1 [] fs2)
    as [[fs3 c3] q3] eqn:H2.
  exists fs3, c3, q3.
  destruct (replace_loop_reports _ _ _ _ _ _ _ _ _ _ _ _ H2) as [Hlen Hrep].
  split; [|split; [exact Hlen|split; [exact Hrep|]]].
  2:{ intros fs0 p0 err Hopen. unfold read_file_lines. rewrite Hopen.
      reflexivity. }
  unfold run. rewrite Hrx, replace_loop_app, H1. cbn.
  rewrite Hfile, replace_loop_queue, H2.
  rewrite <- !app_assoc. reflexivity.
Qed.

End Replacement.

(** * The properties on the sample data *)

(** The claim of C2 fails on its own example: after the replacement the
    file is the one line "baz bar baz", and the search for "baz" gives one
    [Match], not two. *)
Lemma C2_search_after_replace_gives_one_match :
  notes_replaced.2 = [RStep 1 "notes.txt"; RDone 1] /\
  data <$> notes_replaced.1 !! notes_txt = Some (encode "baz bar baz") /\
  exists self,
    SearchEngine.__init__ "r" (sample_opts "baz" 5000 false) [] [] = inr self /\
    SearchEngine._search_content self notes_replaced.1 notes_txt false None None
    = [ {| path := notes_txt; line_no := 1; preview := "baz bar baz";
           is_archive := false; member := None |} ] /\
    length (SearchEngine._search_content self notes_replaced.1 notes_txt
              false None None) <> 2%nat.
Proof.
  split; [vm_compute; reflexivity|]. split; [vm_compute; reflexivity|].
  eexists. split; [reflexivity|].
  split; [vm_compute; reflexivity|]. vm_compute. discriminate.
Qed.

(** C2 on [r/notes.txt]. *)
Lemma C2_replace_then_search_witness :
  exists fs1 self,
    ReplacementWorker.run [("I001", notes_txt)] (literal_find "foo") "baz" true
      (fun _ => quiet_env) (<[notes_txt := text_file "foo bar foo"]> ∅)
    = (fs1, [RStep 1 "notes.txt"; RDone 1]) /\
    fs1 !! notes_txt = Some (text_file "baz bar baz") /\
    SearchEngine.__init__ "r"
      (with_pattern (sample_opts "" 5000 false) "baz" true false false) [] []
    = inr self /\
    SearchEngine._search_content self fs1 notes_txt false None None
    = [ {| path := notes_txt; line_no := 1; preview := "baz bar baz";
           is_archive := false; member := None |} ].
Proof.
  apply (C2_replace_then_search_one_match_per_line
           (sample_opts "" 5000 false) "r" [] [] true ∅ "I001" notes_txt true
           quiet_env).
  - repeat split.
  - reflexivity.
  - discriminate.
  - discriminate.
  - discriminate.
Defined.

(** The claim of C3 fails for a ceiling the code accepts: with
    [max_matches] of -1 the count, 0, is over the ceiling when the loop
    starts, before any task has been handed to it, so that no task took it
    over. *)
Lemma C3_negative_ceiling_is_exceeded_before_any_task :
  SearchEngine.max_matches_of neg_engine = (-1)%Z /\
  exists s,
    SearchEngine.run neg_engine two_files_fs two_files_tree None [] = Some s /\
    matches_found (SearchEngine.stats s) = 0%Z /\
    Forall (fun f => SearchEngine.f_yielded f = false) (SearchEngine.futures s) /\
    ~ ceiling_bound neg_engine s.
Proof.
  split; [reflexivity|]. eexists. split; [reflexivity|].
  split; [reflexivity|]. split; [repeat constructor|].
  intros [Hle|(i & f & r & Hf & Hy & _)].
  - vm_compute in Hle. apply Hle. reflexivity.
  - destruct i as [|[|i]]; cbn in Hf; [| |discriminate Hf];
      injection Hf as <-; discriminate Hy.
Qed.

(** C3 on the two files of [two_files_fs]: after the loop has taken
    [a.txt] the count is 2, over the ceiling of 1 by less than the two
    matches of that file. *)
Lemma C3_ceiling_witness :
  exists s,
    SearchEngine.run x_engine two_files_fs two_files_tree None
      [SearchEngine.Complete 0 None; SearchEngine.Yield 0] = Some s /\
    matches_found (SearchEngine.stats s) = 2%Z /\
    ceiling_bound x_engine s.
Proof.
  eexists. split; [vm_compute; reflexivity|]. split; [reflexivity|].
  refine (proj1 (C3_ceiling_checked_between_tasks x_engine two_files_fs
                   two_files_tree None
                   [SearchEngine.Complete 0 None; SearchEngine.Yield 0] _ _ _)).
  - vm_compute. discriminate.
  - vm_compute. reflexivity.
Defined.

(** The claim of C5 fails for a read failure: [read_file_lines] swallows
    it, the file counts as empty and is reported by a [step] event, and no
    [error] event is put. *)
Lemma C5_read_failure_is_not_reported :
  open_read locked_fs notes_txt = inl (OSError "Permission denied") /\
  (ReplacementWorker.run [("I001", notes_txt)] (literal_find "foo") "baz" true
     (fun _ => quiet_env) locked_fs).2
  = [RStep 1 "notes.txt"; RDone 0].
Proof. split; vm_compute; reflexivity. Qed.

(** C5 on a job of two files: the rename of the first fails, the second is
    processed. *)
Lemma C5_file_error_witness :
  exists fs3 c3 q3,
    ReplacementWorker.run ([] ++ ("I001", notes_txt) :: [("I002", todo_txt)])
      (literal_find "foo") "baz" true job_envs job_fs
    = (fs3, [] ++ RError ("notes.txt" +:+ ": " +:+ "Access is denied")
                 :: q3 ++ [RDone c3]) /\
    length q3 = 1%nat /\
    (forall k it ev, [("I002", todo_txt)] !! k = Some it -> q3 !! k = Some ev ->
                     reports (S (S (0 + k))) it.2 ev) /\
    (forall fs0 p0 err, open_read fs0 p0 = inl err ->
                        read_file_lines fs0 p0 false None = []).
Proof.
  eapply (C5_file_error_reported_and_job_continues None (literal_find "foo")
            "baz" true job_envs [] [("I002", todo_txt)] "I001" notes_txt
            job_fs job_fs 0 [] (OSError "Access is denied")).
  - reflexivity.
  - reflexivity.
  - vm_compute. reflexivity.
Defined.



(** C8 on the archive of [zip_fs] read as a plain file: its header has a
    NUL byte. *)
Lemma C8_binary_file_witness :
  SearchEngine.search_body x_engine zip_fs docs_zip false None None = inr [] /\
  SearchEngine._search_content x_engine zip_fs docs_zip false None None = [].
Proof.
  apply (C8_oversize_binary_unreadable_give_nothing x_engine zip_fs docs_zip
           None None docs_zip_file).
  - reflexivity.
  - right. left. reflexivity.
Defined.



(** C10 on [a.txt] of [two_files_fs], two lines. *)
Lemma C10_empty_pattern_witness :
  exists self,
    SearchEngine.__init__ "r"
      (with_pattern (sample_opts "x" 5000 false) EmptyString true false false)
      [] [] = inr self /\
    (forall line, re_search (SearchEngine.regex self) line = true) /\
    SearchEngine._search_content self two_files_fs a_txt false None None
    = imap (fun k line => SearchEngine.mk_match a_txt false None (S k) line)
        (lines_before_stop None ["x" +:+ nl; "x" +:+ nl]).
Proof.
  apply (C10_empty_pattern_matches_every_line (sample_opts "x" 5000 false) "r"
           [] [] true two_files_fs a_txt false None None).
  vm_compute. reflexivity.
Defined.

(** * Further properties of the search engine *)

Section TextFunctions.

(** Induction on the length of a text, for the functions that look several
    bytes ahead. *)
Lemma string_len_ind (P : string -> Prop) :
  (forall s, (forall r, (String.length r < String.length s)%nat -> P r) -> P s) ->
  forall s, P s.
Proof.
  intros HP s. remember (String.length s) as n eqn:Hn. revert s Hn.
  induction n as [n IH] using lt_wf_ind. intros s ->.
  apply HP. intros r Hr. apply (IH _ Hr r eq_refl).
Qed.

Lemma str_take_length (n : nat) (s : string) : (str_len (str_take n s) <= n)%nat.
Proof.
  revert n. induction s as [|c s IH]; intros n; cbn [str_take]; [cbn; lia|].
  destruct (is_cont c) eqn:Hc.
  - cbn [str_len]. rewrite Hc. specialize (IH n). lia.
  - destruct n as [|n]; [cbn; lia|]. cbn [str_len]. rewrite Hc.
    specialize (IH n). lia.
Qed.

(** [s[:n]] is a beginning of [s]. *)
Lemma str_take_prefix (n : nat) (s : string) :
  exists t, s = str_take n s +:+ t.
Proof.
  revert n. induction s as [|c s IH]; intros n; cbn [str_take].
  - exists EmptyString. reflexivity.
  - destruct (is_cont c).
    + destruct (IH n) as [t Ht]. exists t.
      change (String c s = String c (str_take n s +:+ t)). f_equal. exact Ht.
    + destruct n as [|n].
      * exists (String c s). reflexivity.
      * destruct (IH n) as [t Ht]. exists t.
        change (String c s = String c (str_take n s +:+ t)). f_equal. exact Ht.
Qed.

Lemma lstrip_unfold (c : ascii) (s1 : string) :
  lstrip (String c s1)
  = if is_space c then lstrip s1
    else
      match s1 with
      | String d s2 =>
          if is_space2 c d then lstrip s2
          else
            match s2 with
            | String e s3 =>
                if is_space3 c d e then lstrip s3 else String c s1
            | EmptyString => String c s1
            end
      | EmptyString => String c s1
      end.
Proof. reflexivity. Qed.

(** A text that does not start with white space is left alone. *)
Lemma lstrip_fix (s : string) : starts_with_space s = false -> lstrip s = s.
Proof.
  destruct s as [|c [|d [|e s3]]]; [reflexivity|..]; rewrite lstrip_unfold;
    cbn [starts_with_space].
  - destruct (is_space c); [discriminate|reflexivity].
  - destruct (is_space c); [discriminate|]. cbn [orb].
    destruct (is_space2 c d); [discriminate|reflexivity].
  - destruct (is_space c); [discriminate|]. cbn [orb].
    destruct (is_space2 c d); [discriminate|]. cbn [orb].
    destruct (is_space3 c d e); [discriminate|reflexivity].
Qed.

(** What [lstrip] leaves does not start with white space. *)
Lemma lstrip_not_space (s : string) : starts_with_space (lstrip s) = false.
Proof.
  induction s as [s IH] using string_len_ind.
  destruct s as [|c s1]; [reflexivity|]. rewrite lstrip_unfold.
  destruct (is_space c) eqn:H1; [apply IH; cbn; lia|].
  destruct s1 as [|d s2]; [cbn [starts_with_space]; rewrite H1; reflexivity|].
  destruct (is_space2 c d) eqn:H2; [apply IH; cbn; lia|].
  destruct s2 as [|e s3];
    [cbn [starts_with_space]; rewrite H1, H2; reflexivity|].
  destruct (is_space3 c d e) eqn:H3; [apply IH; cbn; lia|].
  cbn [starts_with_space]. rewrite H1, H2, H3. reflexivity.
Qed.

Lemma lstrip_idem (s : string) : lstrip (lstrip s) = lstrip s.
Proof. apply lstrip_fix, lstrip_not_space. Qed.

(** A text that starts with white space still does so when it goes on. *)
Lemma starts_with_space_app (z t : string) :
  starts_with_space z = true -> starts_with_space (z +:+ t) = true.
Proof.
  destruct z as [|c [|d [|e z3]]]; [discriminate|..];
    cbn [starts_with_space String.append].
  - change (String c EmptyString +:+ t) with (String c t).
    cbn [starts_with_space]. rewrite orb_false_r. intros ->. reflexivity.
  - change (String c (String d EmptyString) +:+ t) with (String c (String d t)).
    cbn [starts_with_space]. rewrite orb_false_r. intros Hs.
    apply orb_prop in Hs as [->| ->]; [reflexivity|]. apply orb_true_r.
  - change (String c (String d (String e z3)) +:+ t)
      with (String c (String d (String e (z3 +:+ t)))).
    cbn [starts_with_space]. intros Hs. exact Hs.
Qed.

(** A beginning of a text that [lstrip] leaves alone is left alone too. *)
Lemma lstrip_fix_prefix (z t : string) :
  lstrip (z +:+ t) = z +:+ t -> lstrip z = z.
Proof.
  intros Hy. apply lstrip_fix.
  destruct (starts_with_space z) eqn:Hz; [|reflexivity].
  pose proof (lstrip_not_space (z +:+ t)) as Hn.
  rewrite Hy, (starts_with_space_app _ t Hz) in Hn. discriminate.
Qed.

(** White space in front of a text is stripped with it. *)
Lemma lstrip_app (a t : string) :
  lstrip a = EmptyString -> lstrip (a +:+ t) = lstrip t.
Proof.
  induction a as [a IH] using string_len_ind.
  destruct a as [|c a1]; [reflexivity|]. rewrite lstrip_unfold.
  change (String c a1 +:+ t) with (String c (a1 +:+ t)). rewrite lstrip_unfold.
  destruct (is_space c); [intros Ha; apply IH; [cbn; lia|exact Ha]|].
  destruct a1 as [|d a2]; [discriminate|].
  change (String d a2 +:+ t) with (String d (a2 +:+ t)). cbv iota.
  destruct (is_space2 c d); [intros Ha; apply IH; [cbn; lia|exact Ha]|].
  destruct a2 as [|e a3]; [discriminate|].
  change (String e a3 +:+ t) with (String e (a3 +:+ t)). cbv iota.
  destruct (is_space3 c d e); [intros Ha; apply IH; [cbn; lia|exact Ha]|].
  discriminate.
Qed.

Lemma rstrip_unfold (c : ascii) (s : string) :
  rstrip (String c s)
  = if all_space (String c s) then EmptyString else String c (rstrip s).
Proof. reflexivity. Qed.

Lemma all_space_true (s : string) : all_space s = true <-> lstrip s = EmptyString.
Proof. unfold all_space. apply String.eqb_eq. Qed.

(** [rstrip] cuts white space off. *)
Lemma rstrip_cut (s : string) :
  exists t, s = rstrip s +:+ t /\ lstrip t = EmptyString.
Proof.
  induction s as [|c s IH]; [exists EmptyString; split; reflexivity|].
  rewrite rstrip_unfold. destruct (all_space (String c s)) eqn:Ha.
  - exists (String c s). split; [reflexivity|]. apply all_space_true. exact Ha.
  - destruct IH as (t & Hs & Ht). exists t. split; [|exact Ht].
    change (String c s = String c (rstrip s +:+ t)). f_equal. exact Hs.
Qed.

Lemma rstrip_idem (s : string) : rstrip (rstrip s) = rstrip s.
Proof.
  induction s as [|c s IH]; [reflexivity|]. rewrite rstrip_unfold.
  destruct (all_space (String c s)) eqn:Ha; [reflexivity|].
  rewrite rstrip_unfold, IH.
  destruct (all_space (String c (rstrip s))) eqn:Hb; [|reflexivity].
  destruct (rstrip_cut s) as (t & Hs & Ht).
  apply all_space_true in Hb.
  pose proof (lstrip_app (String c (rstrip s)) t Hb) as Happ.
  change (String c (rstrip s) +:+ t) with (String c (rstrip s +:+ t)) in Happ.
  rewrite <- Hs, Ht in Happ.
  apply all_space_true in Happ. congruence.
Qed.

(** What [strip] gives has no white space at either end: [strip] leaves it
    alone. *)
Lemma lstrip_strip (s : string) : lstrip (strip s) = strip s.
Proof.
  unfold strip. destruct (rstrip_cut (lstrip s)) as (t & Hs & _).
  apply (lstrip_fix_prefix _ t). rewrite <- Hs. apply lstrip_idem.
Qed.

Lemma strip_idem (s : string) : strip (strip s) = strip s.
Proof.
  unfold strip at 1. rewrite lstrip_strip. unfold strip. apply rstrip_idem.
Qed.

Lemma str_join_cons_line (c : ascii) (ls : list string) :
  str_join (cons_line c ls) = String c (str_join ls).
Proof. destruct ls; reflexivity. Qed.

Lemma length_cons_line (c : ascii) (ls : list string) :
  length (cons_line c ls) = Nat.max 1 (length ls).
Proof. destruct ls; reflexivity. Qed.

Lemma str_join_cons (l : string) (ls : list string) :
  str_join (l :: ls) = l +:+ str_join ls.
Proof. reflexivity. Qed.

Lemma str_join_lines_keepends (s : string) : str_join (lines_keepends s) = s.
Proof.
  induction s as [|c s IH]; [reflexivity|]. cbn [lines_keepends].
  destruct (is_LF c).
  - rewrite str_join_cons, IH. reflexivity.
  - rewrite str_join_cons_line, IH. reflexivity.
Qed.

Lemma splitlines_unfold (keepends : bool) (c : ascii) (s1 : string) :
  splitlines keepends (String c s1)
  = if is_CR c then
      match s1 with
      | String d s2 =>
          if is_LF d
          then line_end keepends (String c (String d EmptyString))
                 :: splitlines keepends s2
          else line_end keepends (String c EmptyString)
                 :: splitlines keepends s1
      | EmptyString => [line_end keepends (String c EmptyString)]
      end
    else if is_linebreak c then
      line_end keepends (String c EmptyString) :: splitlines keepends s1
    else
      match s1 with
      | String d s2 =>
          if is_linebreak2 c d then
            line_end keepends (String c (String d EmptyString))
              :: splitlines keepends s2
          else
            match s2 with
            | String e s3 =>
                if is_linebreak3 c d e then
                  line_end keepends
                    (String c (String d (String e EmptyString)))
                    :: splitlines keepends s3
                else cons_line c (splitlines keepends s1)
            | EmptyString => cons_line c (splitlines keepends s1)
            end
      | EmptyString => cons_line c (splitlines keepends s1)
      end.
Proof. reflexivity. Qed.

(** With [keepends] the lines, joined, are the text. *)
Lemma str_join_splitlines_keepends (s : string) :
  str_join (splitlines true s) = s.
Proof.
  induction s as [s IH] using string_len_ind.
  destruct s as [|c s1]; [reflexivity|]. rewrite splitlines_unfold.
  assert (H1 : str_join (splitlines true s1) = s1) by (apply IH; cbn; lia).
  destruct (is_CR c).
  { destruct s1 as [|d s2]; [reflexivity|].
    destruct (is_LF d); rewrite str_join_cons; cbn [line_end].
    - rewrite IH by (cbn; lia). reflexivity.
    - rewrite H1. reflexivity. }
  destruct (is_linebreak c).
  { rewrite str_join_cons, H1. reflexivity. }
  destruct s1 as [|d s2]; [reflexivity|].
  destruct (is_linebreak2 c d).
  { rewrite str_join_cons, IH by (cbn; lia). reflexivity. }
  destruct s2 as [|e s3]; [rewrite str_join_cons_line, H1; reflexivity|].
  destruct (is_linebreak3 c d e).
  - rewrite str_join_cons, IH by (cbn; lia). reflexivity.
  - rewrite str_join_cons_line, H1. reflexivity.
Qed.

(** [keepends] does not change the number of lines. *)
Lemma length_splitlines (s : string) :
  length (splitlines true s) = length (splitlines false s).
Proof.
  induction s as [s IH] using string_len_ind.
  destruct s as [|c s1]; [reflexivity|].
  rewrite (splitlines_unfold true), (splitlines_unfold false).
  assert (H1 : length (splitlines true s1) = length (splitlines false s1))
    by (apply IH; cbn; lia).
  destruct (is_CR c).
  { destruct s1 as [|d s2]; [reflexivity|].
    destruct (is_LF d); cbn [length].
    - rewrite IH by (cbn; lia). reflexivity.
    - rewrite H1. reflexivity. }
  destruct (is_linebreak c).
  { cbn [length]. rewrite H1. reflexivity. }
  destruct s1 as [|d s2]; [reflexivity|].
  destruct (is_linebreak2 c d).
  { cbn [length]. rewrite IH by (cbn; lia). reflexivity. }
  destruct s2 as [|e s3]; [rewrite !length_cons_line, H1; reflexivity|].
  destruct (is_linebreak3 c d e).
  - cbn [length]. rewrite IH by (cbn; lia). reflexivity.
  - rewrite !length_cons_line, H1. reflexivity.
Qed.

Lemma contains_tail (needle : string) (c : ascii) (s : string) :
  contains needle (String c s) = false ->
  startswith needle (String c s) = false /\ contains needle s = false.
Proof. cbn [contains]. intros Hc. apply orb_false_elim in Hc. exact Hc. Qed.

Lemma replace_go_absent (old new : string) (s : string) :
  contains old s = false -> replace_go old new 0 s = s.
Proof.
  induction s as [|c s IH]; [reflexivity|]. intros Hc.
  apply contains_tail in Hc as [Hs Hc]. cbn [replace_go].
  rewrite Hs, (IH Hc). reflexivity.
Qed.

(** [s.replace(old, new)] is [s] when [old] does not occur in it. *)
Lemma str_replace_absent (old new s : string) :
  contains old s = false -> str_replace old new s = s.
Proof.
  destruct old as [|a old].
  - destruct s; cbn; discriminate.
  - intros Hc. unfold str_replace. apply replace_go_absent. exact Hc.
Qed.

End TextFunctions.

Section LiteralAndWholeWord.
Context `{PyLib}.

Lemma append_cons (c : ascii) (s r : string) :
  String c s +:+ r = String c (s +:+ r).
Proof. reflexivity. Qed.

Lemma parse_atoms_escape_app (s rest : string) :
  parse_atoms (re_escape s +:+ rest)
  = (fun l => map AChar (list_ascii_of_string s) ++ l) <$> parse_atoms rest.
Proof.
  induction s as [|c s IH].
  - change (re_escape EmptyString +:+ rest) with rest.
    destruct (parse_atoms rest); reflexivity.
  - cbn [re_escape list_ascii_of_string map].
    destruct (re_special c) eqn:Hs.
    + rewrite !append_cons. cbn [parse_atoms].
      replace (code backslash =? 92)%N with true by reflexivity.
      assert (Hc : (code c =? 98)%N = false /\ is_alnum c = false).
      { clear -Hs. destruct c as [[] [] [] [] [] [] [] []]; vm_compute in Hs |- *;
          first [discriminate Hs | split; reflexivity]. }
      destruct Hc as [-> ->]. rewrite IH.
      destruct (parse_atoms rest); reflexivity.
    + rewrite append_cons. cbn [parse_atoms].
      assert (Hc : (code c =? 92)%N = false /\ re_meta c = false).
      { clear -Hs. destruct c as [[] [] [] [] [] [] [] []]; vm_compute in Hs |- *;
          first [discriminate Hs | split; reflexivity]. }
      destruct Hc as [-> ->]. rewrite IH.
      destruct (parse_atoms rest); reflexivity.
Qed.

(** The whole-word pattern of a literal always compiles: a boundary, the
    characters, a boundary. *)
Lemma re_compile_whole_word (s : string) (ignorecase : bool) :
  re_compile ("\b" +:+ re_escape s +:+ "\b") ignorecase
  = inr (PAtoms (AWordB :: map AChar (list_ascii_of_string s) ++ [AWordB])
           ignorecase).
Proof.
  unfold re_compile.
  change ("\b" +:+ re_escape s +:+ "\b")
    with (String backslash (String "b" (re_escape s +:+ "\b"))).
  cbn [parse_atoms].
  replace (code backslash =? 92)%N with true by reflexivity.
  replace (code "b" =? 98)%N with true by reflexivity.
  rewrite parse_atoms_escape_app. reflexivity.
Qed.

Lemma match_here_drop_boundary (ignorecase : bool) (atoms : list atom) :
  forall prev s,
    match_here ignorecase (atoms ++ [AWordB]) prev s = true ->
    match_here ignorecase atoms prev s = true.
Proof.
  induction atoms as [|[c|] atoms IH]; intros prev s; cbn; [reflexivity| |].
  - destruct s as [|d s]; [discriminate|].
    intros Hm. apply andb_prop in Hm as [-> Hm]. cbn. apply IH. exact Hm.
  - intros Hm. apply andb_prop in Hm as [-> Hm]. cbn. apply IH. exact Hm.
Qed.

Lemma search_from_drop_boundaries (ignorecase : bool) (atoms : list atom) :
  forall prev s,
    search_from ignorecase (AWordB :: atoms ++ [AWordB]) prev s = true ->
    search_from ignorecase atoms prev s = true.
Proof.
  intros prev s. revert prev.
  induction s as [|d s IH]; intros prev; cbn [search_from].
  - rewrite !orb_false_r. cbn [match_here]. intros Hm.
    apply andb_prop in Hm as [_ Hm]. eapply match_here_drop_boundary. exact Hm.
  - intros Hm. apply orb_prop in Hm as [Hm|Hm].
    + cbn [match_here] in Hm. apply andb_prop in Hm as [_ Hm].
      rewrite (match_here_drop_boundary _ _ _ _ Hm). reflexivity.
    + rewrite (IH _ Hm). apply orb_true_r.
Qed.

(** X1: for a literal pattern the constructor never raises, whatever the
    text.  When letter case counts the matcher is the substring test, for
    every text and every line; when it does not, and the text and the line
    are ASCII, it is the substring test on their lower-case forms. *)
Theorem X1_literal_search_is_substring_test
  (o : Opts) (root : string) (include exclude : list string)
  (text : string) (case : bool) :
  exists self,
    SearchEngine.__init__ root (with_pattern o text case false false)
      include exclude = inr self /\
    forall line,
      case = true \/ (is_ascii_str text = true /\ is_ascii_str line = true) ->
      re_search (SearchEngine.regex self) line = line_contains case text line.
Proof.
  destruct (literal_engine root o include exclude text case)
    as (self & Hinit & _ & _ & _ & _ & Hre).
  exists self. split; assumption.
Qed.

Lemma whole_word_not_unicode_dependent (text : string) (case : bool)
  (line : string) :
  is_ascii_str line = true ->
  case = true \/ is_ascii_str text = true ->
  unicode_dependent
    (AWordB :: map AChar (list_ascii_of_string text) ++ [AWordB]) (negb case)
    line = false.
Proof.
  intros Hl Hc. unfold unicode_dependent. rewrite Hl. cbn [negb].
  rewrite !andb_false_r. cbn [orb]. rewrite orb_false_r.
  destruct Hc as [->|Ht]; [reflexivity|].
  cbn [existsb atom_non_ascii orb]. rewrite existsb_app, (ascii_chars _ Ht).
  cbn. apply andb_false_r.
Qed.

(** X2: with [whole_word] too the constructor never raises, and an ASCII
    line that matches contains the text (up to case when letter case does
    not count and the text is ASCII): on ASCII lines the whole-word search
    finds nothing the literal search does not find. *)
Theorem X2_whole_word_matches_are_literal_matches
  (o : Opts) (root : string) (include exclude : list string)
  (text : string) (case : bool) :
  exists self,
    SearchEngine.__init__ root (with_pattern o text case false true)
      include exclude = inr self /\
    forall line,
      is_ascii_str line = true ->
      case = true \/ is_ascii_str text = true ->
      re_search (SearchEngine.regex self) line = true ->
      line_contains case text line = true.
Proof.
  eexists. split.
  { unfold SearchEngine.__init__, with_pattern. cbn.
    rewrite re_compile_whole_word. reflexivity. }
  cbn [SearchEngine.regex re_search]. intros line Hl Hc.
  rewrite (whole_word_not_unicode_dependent text case line Hl Hc).
  intros Hm. apply search_from_drop_boundaries in Hm.
  rewrite search_from_literal, negb_involutive in Hm. exact Hm.
Qed.

End LiteralAndWholeWord.

Section MatchesOfACandidate.
Context `{PyLib}.
Import SearchEngine.

Lemma search_content_unscanned (self : t) (fs : FS) (p : Path) (a : bool)
  (m : option string) (stop_at : option nat) :
  scanned_lines fs p a m = None ->
  _search_content self fs p a m stop_at = [].
Proof.
  unfold scanned_lines, _search_content, search_body. destruct a.
  - destruct (archive_member_lines fs p m false); [reflexivity|discriminate].
  - unfold stat_size, is_binary_file, open_read.
    destruct (fs !! p) as [f|]; [|reflexivity]. cbn.
    destruct (st_size f >? _)%Z; [reflexivity|].
    destruct (readable f); [|reflexivity]. cbn.
    destruct (existsb is_NUL _); [reflexivity|discriminate].
Qed.

(** What the loop gives, one [Match] at a time. *)
Lemma search_lines_sound (self : t) (p : Path) (a : bool) (m : option string)
  (lines : list string) :
  forall stop_at i mt,
    mt ∈ search_lines self p a m stop_at i lines ->
    exists k line,
      lines !! k = Some line /\
      re_search (regex self) line = true /\
      mt = mk_match p a m (i + k) line.
Proof.
  induction lines as [|l rest IH]; intros stop_at i mt; cbn.
  - intros Hin. inversion Hin.
  - destruct (stop_is_set stop_at); [intros Hin; inversion Hin|].
    rewrite elem_of_app. intros [Hin|Hin].
    + destruct (re_search (regex self) l) eqn:Hl; [|inversion Hin].
      apply list_elem_of_singleton in Hin. subst mt.
      exists 0%nat, l. rewrite Nat.add_0_r. auto.
    + destruct (IH _ _ _ Hin) as (k & line & Hk & Hm & ->).
      exists (S k), line. split; [exact Hk|]. split; [exact Hm|].
      f_equal. lia.
Qed.

Lemma search_lines_ascending (self : t) (p : Path) (a : bool) (m : option string)
  (lines : list string) :
  forall stop_at i j1 j2 m1 m2,
    search_lines self p a m stop_at i lines !! j1 = Some m1 ->
    search_lines self p a m stop_at i lines !! j2 = Some m2 ->
    (j1 < j2)%nat -> (line_no m1 < line_no m2)%nat.
Proof.
  induction lines as [|l rest IH]; intros stop_at i j1 j2 m1 m2; cbn.
  - discriminate.
  - destruct (stop_is_set stop_at); [discriminate|].
    destruct (re_search (regex self) l); cbn.
    + destruct j1 as [|j1], j2 as [|j2]; cbn; try lia.
      * intros [= <-] H2 _.
        apply list_elem_of_lookup_2, search_lines_sound in H2
          as (k & line & _ & _ & ->). cbn. lia.
      * intros H1 H2 Hlt. eapply IH; [exact H1|exact H2|lia].
    + apply IH.
Qed.

Lemma search_lines_complete (self : t) (p : Path) (a : bool) (m : option string)
  (lines : list string) :
  forall i k line,
    lines !! k = Some line ->
    re_search (regex self) line = true ->
    mk_match p a m (i + k) line ∈ search_lines self p a m None i lines.
Proof.
  induction lines as [|l rest IH]; intros i k line; cbn; [discriminate|].
  destruct k as [|k]; cbn.
  - intros [= ->] ->. rewrite Nat.add_0_r. apply list_elem_of_here.
  - intros Hk Hm. apply elem_of_app. right.
    replace (i + S k)%nat with (S i + k)%nat by lia. apply IH; assumption.
Qed.

Lemma search_lines_prefix (self : t) (p : Path) (a : bool) (m : option string)
  (lines : list string) :
  forall stop_at i,
    exists rest,
      search_lines self p a m None i lines
      = search_lines self p a m stop_at i lines ++ rest.
Proof.
  induction lines as [|l rest IH]; intros stop_at i; cbn.
  - exists []. reflexivity.
  - destruct (stop_is_set stop_at); [eexists; reflexivity|].
    destruct (IH (stop_tick stop_at) (S i)) as [r ->].
    exists r. rewrite app_assoc. reflexivity.
Qed.

(** X3: every [Match] a worker returns is for a line its candidate has, the
    line matches the pattern, the line number is the 1-based position of
    the line, the preview is made from that line, and the path, the archive
    flag and the member are those of the candidate. *)
Theorem X3_matches_are_matching_lines
  (self : t) (fs : FS) (p : Path) (a : bool) (m : option string)
  (stop_at : option nat) (mt : Match) :
  mt ∈ _search_content self fs p a m stop_at ->
  exists lines k line,
    scanned_lines fs p a m = Some lines /\
    lines !! k = Some line /\
    re_search (regex self) line = true /\
    line_no mt = S k /\
    (1 <= line_no mt <= length lines)%nat /\
    preview mt = str_take 200 (strip line) /\
    path mt = p /\ is_archive mt = a /\ member mt = m.
Proof.
  intros Hin. destruct (scanned_lines fs p a m) as [lines|] eqn:Hl.
  2:{ rewrite search_content_unscanned in Hin by exact Hl. inversion Hin. }
  rewrite (search_content_scanned _ _ _ _ _ _ _ Hl) in Hin.
  apply search_lines_sound in Hin as (k & line & Hk & Hm & ->).
  exists lines, k, line. cbn. apply lookup_lt_Some in Hk as Hlt.
  repeat split; auto; lia.
Qed.

(** X4: the matches of one candidate are in ascending order of line
    number: no line is reported twice. *)
Theorem X4_matches_in_ascending_line_order
  (self : t) (fs : FS) (p : Path) (a : bool) (m : option string)
  (stop_at : option nat) (j1 j2 : nat) (m1 m2 : Match) :
  _search_content self fs p a m stop_at !! j1 = Some m1 ->
  _search_content self fs p a m stop_at !! j2 = Some m2 ->
  (j1 < j2)%nat ->
  (line_no m1 < line_no m2)%nat.
Proof.
  destruct (scanned_lines fs p a m) as [lines|] eqn:Hl.
  - rewrite (search_content_scanned _ _ _ _ _ _ _ Hl).
    apply search_lines_ascending.
  - rewrite search_content_unscanned by exact Hl. discriminate.
Qed.

(** X5: a worker that never sees the stop event reports every matching
    line of a candidate that is scanned. *)
Theorem X5_every_matching_line_is_reported
  (self : t) (fs : FS) (p : Path) (a : bool) (m : option string)
  (lines : list string) (k : nat) (line : string) :
  scanned_lines fs p a m = Some lines ->
  lines !! k = Some line ->
  re_search (regex self) line = true ->
  mk_match p a m (S k) line ∈ _search_content self fs p a m None.
Proof.
  intros Hl Hk Hm. rewrite (search_content_scanned _ _ _ _ _ _ _ Hl).
  apply (search_lines_complete self p a m lines 1 k line Hk Hm).
Qed.

(** X6: a preview has at most 200 characters, counted as Python counts
    them, and does not start with white space, ASCII or not. *)
Theorem X6_preview_is_short_and_left_trimmed
  (self : t) (fs : FS) (p : Path) (a : bool) (m : option string)
  (stop_at : option nat) (mt : Match) :
  mt ∈ _search_content self fs p a m stop_at ->
  (str_len (preview mt) <= 200)%nat /\
  starts_with_space (preview mt) = false.
Proof.
  intros Hin.
  assert (Hp : exists line, preview mt = str_take 200 (strip line)).
  { destruct (scanned_lines fs p a m) as [lines|] eqn:Hl.
    2:{ rewrite search_content_unscanned in Hin by exact Hl. inversion Hin. }
    rewrite (search_content_scanned _ _ _ _ _ _ _ Hl) in Hin.
    apply search_lines_sound in Hin as (k & line & _ & _ & ->). eauto. }
  destruct Hp as [line ->]. split; [apply str_take_length|].
  destruct (str_take_prefix 200 (strip line)) as [t Ht].
  assert (Hfix : lstrip (str_take 200 (strip line)) = str_take 200 (strip line)).
  { apply (lstrip_fix_prefix _ t). rewrite <- Ht. apply lstrip_strip. }
  cbn [preview mk_match]. rewrite <- Hfix. apply lstrip_not_space.
Qed.

(** X7: what a worker returns when it sees the stop event is the beginning
    of what it returns when it does not. *)
Theorem X7_cancelled_result_is_a_prefix
  (self : t) (fs : FS) (p : Path) (a : bool) (m : option string)
  (stop_at : option nat) :
  exists rest,
    _search_content self fs p a m None
    = _search_content self fs p a m stop_at ++ rest.
Proof.
  destruct (scanned_lines fs p a m) as [lines|] eqn:Hl.
  - rewrite !(search_content_scanned _ _ _ _ _ _ _ Hl). apply search_lines_prefix.
  - rewrite !search_content_unscanned by exact Hl. exists []. reflexivity.
Qed.

End MatchesOfACandidate.

Section SkippedCandidates.
Context `{PyLib}.
Import SearchEngine.

(** X8: a candidate whose file is gone or cannot be opened gives no match,
    and so does an archive candidate whose file is not an archive, or that
    names no member, or whose archive has no member of that name: the
    errors stay inside [_search_content]. *)
Theorem X8_failing_candidates_give_nothing
  (self : t) (fs : FS) (p : Path) (a : bool) (m : option string)
  (stop_at : option nat) :
  fs !! p = None \/
  (exists f, fs !! p = Some f /\ readable f = false) \/
  (a = true /\ exists f, fs !! p = Some f /\ arch f = NoArchive) \/
  (a = true /\ m = None) \/
  (a = true /\ exists f entries mem,
     fs !! p = Some f /\ arch f = Zip entries /\ m = Some mem /\
     get_member entries mem = None) \/
  (a = true /\ exists f entries mem,
     fs !! p = Some f /\ arch f = Tar entries /\ m = Some mem /\
     get_member entries mem = None) ->
  _search_content self fs p a m stop_at = [].
Proof.
  intros Hc.
  assert (Hs : scanned_lines fs p a m = None \/ scanned_lines fs p a m = Some []).
  { unfold scanned_lines, archive_member_lines, zip_open, tar_open, open_read,
      zip_read, tar_extractfile.
    destruct Hc as [Hn|[(f & Hf & Hr)|[(-> & f & Hf & Ha)|[(-> & ->)|
      [(-> & f & es & mem & Hf & Ha & -> & Hg)
      |(-> & f & es & mem & Hf & Ha & -> & Hg)]]]]].
    - rewrite Hn. destruct a; [|auto].
      destruct (String.eqb _ _); [auto|]. destruct (_ || _); auto.
    - rewrite Hf, Hr. destruct a.
      + destruct (String.eqb _ _); [auto|]. destruct (_ || _); auto.
      + destruct (st_size f >? _)%Z; auto.
    - rewrite Hf. destruct (String.eqb _ _).
      + destruct (readable f); cbn; [rewrite Ha|]; auto.
      + destruct (_ || _); [|auto].
        destruct (readable f); cbn; [rewrite Ha|]; auto.
    - destruct (String.eqb _ _).
      + destruct (fs !! p) as [f|]; [|auto].
        destruct (readable f); [|auto]. cbn. destruct (arch f); auto.
      + destruct (_ || _); [|auto].
        destruct (fs !! p) as [f|]; [|auto].
        destruct (readable f); [|auto]. cbn. destruct (arch f); auto.
    - rewrite Hf. destruct (String.eqb _ _).
      + destruct (readable f); [|auto]. cbn. rewrite Ha. cbn.
        rewrite Hg. auto.
      + destruct (_ || _); [|auto].
        destruct (readable f); [|auto]. cbn. rewrite Ha. auto.
    - rewrite Hf. destruct (String.eqb _ _).
      + destruct (readable f); [|auto]. cbn. rewrite Ha. auto.
      + destruct (_ || _); [|auto].
        destruct (readable f); [|auto]. cbn. rewrite Ha. cbn.
        rewrite Hg. auto. }
  destruct Hs as [Hs|Hs].
  - apply search_content_unscanned. exact Hs.
  - rewrite (search_content_scanned _ _ _ _ _ _ _ Hs). reflexivity.
Qed.

End SkippedCandidates.

Section ScanPhase.
Context `{PyLib}.
Import SearchEngine.







End ScanPhase.

Section CountersAndQueue.
Context `{PyLib}.
Import SearchEngine.

Lemma count_if_app {A} (P : A -> bool) (l1 l2 : list A) :
  count_if P (l1 ++ l2) = (count_if P l1 + count_if P l2)%nat.
Proof. induction l1 as [|x l1 IH]; cbn; [reflexivity|]. rewrite IH. lia. Qed.

Lemma count_if_le_length {A} (P : A -> bool) (l : list A) :
  (count_if P l <= length l)%nat.
Proof. induction l as [|x l IH]; cbn; [lia|]. destruct (P x); lia. Qed.

Lemma count_if_insert_more {A} (P : A -> bool) (l : list A) (i : nat) (x y : A) :
  l !! i = Some x -> P x = false -> P y = true ->
  count_if P (<[i := y]> l) = S (count_if P l).
Proof.
  revert i. induction l as [|z l IH]; intros [|i]; cbn; try discriminate.
  - intros [= ->] -> ->. reflexivity.
  - intros Hl Hx Hy. rewrite <- Nat.add_succ_r. f_equal. apply IH; assumption.
Qed.

Lemma count_if_zero {A} (P : A -> bool) (l : list A) (x : A) :
  count_if P l = 0%nat -> x ∈ l -> P x = false.
Proof.
  induction l as [|z l IH]; cbn; [intros _ Hin; inversion Hin|].
  destruct (P z) eqn:Hz; [discriminate|]. intros Hc Hin.
  apply elem_of_cons in Hin as [->|Hin]; [exact Hz|apply IH; assumption].
Qed.

Lemma count_progress_matches (ms : list Match) :
  count_if is_progress (map EvMatch ms) = 0%nat.
Proof. induction ms; [reflexivity|assumption]. Qed.

Lemma count_done_matches (ms : list Match) :
  count_if is_done (map EvMatch ms) = 0%nat.
Proof. induction ms; [reflexivity|assumption]. Qed.

(** The loop body when the stop event is not set and the count is under the
    ceiling. *)
Lemma loop_body_under_ceiling (self : t) (i : nat) (f : future)
  (res : list Match) (s : state) :
  stop_event s = false ->
  (matches_found (stats s) < max_matches_of self)%Z ->
  loop_body self i f res s
  = {| stop_event := false;
       futures := <[i := set_yielded f]> (futures s);
       stats := {| scanned_files := (scanned_files (stats s) + 1)%Z;
                   total_candidates := total_candidates (stats s);
                   matches_found :=
                     (matches_found (stats s) + Z.of_nat (length res))%Z |};
       out_q := (if ((scanned_files (stats s) + 1) mod 50 =? 0)%Z
                 then out_q s ++ [EvProgress] else out_q s)
                ++ map EvMatch res;
       phase_of := Looping |}.
Proof.
  intros Hs Hlt. unfold loop_body. rewrite Hs.
  replace (matches_found (stats s) >=? max_matches_of self)%Z with false
    by (symmetry; rewrite Z.geb_leb; apply Z.leb_gt; exact Hlt).
  f_equal. f_equal. destruct res; [cbn; lia|reflexivity].
Qed.

Lemma progress_every_fifty (n : Z) :
  (0 <= n)%Z ->
  ((n + 1) / 50 = n / 50 + (if (n + 1) mod 50 =? 0 then 1 else 0))%Z.
Proof.
  intros Hn. destruct ((n + 1) mod 50 =? 0)%Z eqn:Hm.
  - apply Z.eqb_eq in Hm. Z.div_mod_to_equations. lia.
  - apply Z.eqb_neq in Hm. Z.div_mod_to_equations. lia.
Qed.

Lemma counters_inv_start (self : t) (fs : FS) (tree : dirtree)
  (scan_stop : option nat) :
  counters_inv self (run_start self fs tree scan_stop).
Proof.
  unfold counters_inv, run_start. cbn.
  split; [reflexivity|]. split.
  { induction (scan self fs tree scan_stop) as [|c cs IH]; [reflexivity|exact IH]. }
  split; [rewrite length_map; reflexivity|].
  split; [reflexivity|]. split; [left; reflexivity|].
  split; [reflexivity|discriminate].
Qed.

Lemma counters_inv_step (self : t) (fs : FS) (a : action) (s s' : state) :
  counters_inv self s -> run_step self fs a s = Some s' -> counters_inv self s'.
Proof.
  intros (Hmf & Hsc & Htot & Hpr & Hw & Hdone & Hlast).
  destruct a as [i cut|i| | |]; cbn.
  - destruct (futures s !! i) as [f|] eqn:Hf; [|discriminate]. cbn.
    destruct (f_result f) eqn:Hr; [discriminate|].
    destruct (_ || _); [|discriminate]. intros [= <-].
    unfold counters_inv. cbn.
    rewrite (count_if_insert_same f_yielded _ _ f) by (exact Hf || reflexivity).
    rewrite length_insert. auto 10.
  - destruct (phase_of s) eqn:Hph; try discriminate.
    destruct (futures s !! i) as [f|] eqn:Hf; [|discriminate]. cbn.
    destruct (f_result f) as [res|] eqn:Hr; [|discriminate]. cbn.
    destruct (f_yielded f) eqn:Hy; [discriminate|]. intros [= <-].
    assert (Hw0 : warn_events (out_q s) = []).
    { destruct Hw as [Hw|(_ & _ & Hne & _)]; [exact Hw|congruence]. }
    destruct (loop_body_cases self i f res s)
      as [[Hs ->]|[(Hs & Hge & ->)|(Hs & Hlt & _)]].
    + unfold counters_inv. cbn.
      repeat (split; [assumption|]). split; [left; exact Hw0|].
      split; [exact Hdone|discriminate].
    + unfold counters_inv. cbn.
      rewrite match_events_app, warn_events_app, !count_if_app, Hw0. cbn.
      rewrite app_nil_r, !Nat.add_0_r.
      repeat (split; [assumption|]).
      split; [right; repeat split; [discriminate|exact Hge]|].
      split; [exact Hdone|discriminate].
    + rewrite (loop_body_under_ceiling self i f res s Hs Hlt).
      unfold counters_inv. cbn.
      rewrite match_events_app, match_events_matches.
      rewrite warn_events_app, warn_events_matches, app_nil_r.
      rewrite !count_if_app, count_progress_matches, count_done_matches.
      rewrite !Nat.add_0_r.
      rewrite (count_if_insert_more f_yielded _ _ f) by (exact Hf || exact Hy || reflexivity).
      rewrite length_insert, length_app.
      assert (Hsc0 : (0 <= scanned_files (stats s))%Z) by lia.
      pose proof (progress_every_fifty _ Hsc0) as Hdiv.
      destruct ((scanned_files (stats s) + 1) mod 50 =? 0)%Z.
      * rewrite match_events_app, warn_events_app, !count_if_app. cbn.
        rewrite !app_nil_r, Hw0.
        split; [lia|]. split; [lia|]. split; [exact Htot|]. split; [lia|].
        split; [left; reflexivity|]. split; [lia|discriminate].
      * split; [lia|]. split; [lia|]. split; [exact Htot|]. split; [lia|].
        split; [left; exact Hw0|]. split; [exact Hdone|discriminate].
  - destruct (phase_of s) eqn:Hph; try discriminate.
    destruct (forallb _ _); [|discriminate]. intros [= <-].
    unfold counters_inv. cbn.
    repeat (split; [assumption|]). split.
    { destruct Hw as [Hw|(_ & _ & Hne & _)]; [left; exact Hw|congruence]. }
    split; [exact Hdone|discriminate].
  - destruct (phase_of s) eqn:Hph; try discriminate.
    destruct (forallb _ _); [|discriminate]. intros [= <-].
    unfold counters_inv. cbn.
    rewrite match_events_app, warn_events_app, !count_if_app. cbn.
    rewrite !app_nil_r, Nat.add_0_r, Hdone.
    repeat (split; [assumption|]). split.
    { destruct Hw as [Hw|(Hw & Hs & Hne & Hge)]; [left; exact Hw|right].
      repeat split; [exact Hw|exact Hs|discriminate|exact Hge]. }
    split; [reflexivity|]. intros _. eauto.
  - intros [= <-]. unfold counters_inv. cbn.
    repeat (split; [assumption|]). split.
    { destruct Hw as [Hw|(Hw & Hs & Hne & Hge)]; [left; exact Hw|right].
      repeat split; assumption. }
    split; assumption.
Qed.

Lemma counters_inv_run (self : t) (fs : FS) (tree : dirtree)
  (scan_stop : option nat) (acts : list action) (s : state) :
  run self fs tree scan_stop acts = Some s -> counters_inv self s.
Proof.
  unfold run. generalize (counters_inv_start self fs tree scan_stop).
  generalize (run_start self fs tree scan_stop). revert s.
  induction acts as [|a acts IH]; intros s s0 Hinv; cbn.
  - intros [= <-]. exact Hinv.
  - destruct (run_step self fs a s0) as [s1|] eqn:Hs; [|discriminate]. cbn.
    apply IH. eapply counters_inv_step; eassumption.
Qed.

End CountersAndQueue.

Section RunAsAWhole.
Context `{PyLib}.
Import SearchEngine.

Lemma total_candidates_step (self : t) (fs : FS) (a : action) (s s' : state) :
  run_step self fs a s = Some s' ->
  total_candidates (stats s') = total_candidates (stats s).
Proof.
  destruct a as [i cut|i| | |]; cbn.
  - destruct (futures s !! i) as [f|]; [|discriminate]. cbn.
    destruct (f_result f); [discriminate|].
    destruct (_ || _); [|discriminate]. intros [= <-]. reflexivity.
  - destruct (phase_of s); try discriminate.
    destruct (futures s !! i) as [f|]; [|discriminate]. cbn.
    destruct (f_result f) as [res|]; [|discriminate]. cbn.
    destruct (f_yielded f); [discriminate|]. intros [= <-].
    destruct (loop_body_cases self i f res s)
      as [[_ ->]|[(_ & _ & ->)|(_ & _ & q1 & _ & _ & ->)]]; reflexivity.
  - destruct (phase_of s); try discriminate.
    destruct (forallb _ _); [|discriminate]. intros [= <-]. reflexivity.
  - destruct (phase_of s); try discriminate.
    destruct (forallb _ _); [|discriminate]. intros [= <-]. reflexivity.
  - intros [= <-]. reflexivity.
Qed.

Lemma total_candidates_steps (self : t) (fs : FS) (acts : list action) :
  forall s s', run_steps self fs acts s = Some s' ->
               total_candidates (stats s') = total_candidates (stats s).
Proof.
  induction acts as [|a acts IH]; intros s s'; cbn.
  - intros [= <-]. reflexivity.
  - destruct (run_step self fs a s) as [s1|] eqn:Hs; [|discriminate]. cbn.
    intros Hr. rewrite (IH _ _ Hr). eapply total_candidates_step. exact Hs.
Qed.

(** X13: in every state of every run the counters say what happened:
    [matches_found] is the number of [match] events put so far,
    [scanned_files] the number of futures the loop body has taken, which is
    at most [total_candidates], the number of candidates of the scan. *)
Theorem X13_counters_agree_with_the_queue
  (self : t) (fs : FS) (tree : dirtree) (scan_stop : option nat)
  (acts : list action) (s : state) :
  run self fs tree scan_stop acts = Some s ->
  matches_found (stats s) = Z.of_nat (length (match_events (out_q s))) /\
  scanned_files (stats s) = Z.of_nat (count_if f_yielded (futures s)) /\
  total_candidates (stats s)
    = Z.of_nat (length (scan self fs tree scan_stop)) /\
  (scanned_files (stats s) <= total_candidates (stats s))%Z.
Proof.
  intros Hrun.
  destruct (counters_inv_run _ _ _ _ _ _ Hrun) as (Hmf & Hsc & Htot & _).
  split; [exact Hmf|]. split; [exact Hsc|]. split.
  - unfold run in Hrun. rewrite (total_candidates_steps _ _ _ _ _ Hrun).
    reflexivity.
  - rewrite Hsc, Htot.
    pose proof (count_if_le_length f_yielded (futures s)). lia.
Qed.

(** X14: the queue holds one [progress] event for the end of the scan and
    one more for every 50 futures the loop body has taken. *)
Theorem X14_progress_every_fifty_files
  (self : t) (fs : FS) (tree : dirtree) (scan_stop : option nat)
  (acts : list action) (s : state) :
  run self fs tree scan_stop acts = Some s ->
  Z.of_nat (count_if is_progress (out_q s))
  = (1 + scanned_files (stats s) / 50)%Z.
Proof.
  intros Hrun.
  destruct (counters_inv_run _ _ _ _ _ _ Hrun) as (_ & _ & _ & Hpr & _).
  exact Hpr.
Qed.

(** X15: [done] is on the queue exactly when the run has finished; it is
    then the last event and the only [done]; and once it is there no step
    puts anything more. *)
Theorem X15_done_once_and_last
  (self : t) (fs : FS) (tree : dirtree) (scan_stop : option nat)
  (acts : list action) (s : state) :
  run self fs tree scan_stop acts = Some s ->
  (phase_of s = Finished <-> EvDone ∈ out_q s) /\
  (phase_of s = Finished ->
   (exists q, out_q s = q ++ [EvDone] /\ EvDone ∉ q) /\
   forall a s', run_step self fs a s = Some s' ->
                out_q s' = out_q s /\ phase_of s' = Finished).
Proof.
  intros Hrun.
  destruct (counters_inv_run _ _ _ _ _ _ Hrun)
    as (_ & _ & _ & _ & _ & Hdone & Hlast).
  split; [split|].
  - intros Hph. destruct (Hlast Hph) as [q ->].
    apply elem_of_app. right. apply list_elem_of_here.
  - intros Hin. destruct (phase_of s); try reflexivity;
      apply (count_if_zero _ _ _ Hdone) in Hin; discriminate.
  - intros Hph. split.
    + destruct (Hlast Hph) as [q Hq]. exists q. split; [exact Hq|].
      rewrite Hph, Hq, count_if_app in Hdone. cbn in Hdone.
      intros Hin. apply (count_if_zero is_done q EvDone) in Hin; [discriminate|lia].
    + intros a s'. destruct a as [i cut|i| | |]; cbn; rewrite ?Hph;
        try discriminate.
      * destruct (futures s !! i) as [f|]; [|discriminate]. cbn.
        destruct (f_result f); [discriminate|].
        destruct (_ || _); [|discriminate]. intros [= <-]. auto.
      * intros [= <-]. auto.
Qed.


Lemma warn_last_step (self : t) (fs : FS) (a : action) (s s' : state) :
  warn_last s -> run_step self fs a s = Some s' -> warn_last s'.
Proof.
  intros Hinv. destruct a as [i cut|i| | |]; cbn.
  - destruct (futures s !! i) as [f|]; [|discriminate]. cbn.
    destruct (f_result f); [discriminate|].
    destruct (_ || _); [|discriminate]. intros [= <-]. exact Hinv.
  - destruct (phase_of s) eqn:Hph; try discriminate.
    destruct (futures s !! i) as [f|]; [|discriminate]. cbn.
    destruct (f_result f) as [res|]; [|discriminate]. cbn.
    destruct (f_yielded f); [discriminate|]. intros [= <-].
    assert (Hw : warn_events (out_q s) = []).
    { destruct Hinv as [Hw|[[Hd _]|[Hd _]]]; [exact Hw|congruence|congruence]. }
    destruct (loop_body_cases self i f res s)
      as [[_ ->]|[(_ & _ & ->)|(_ & _ & q1 & _ & Hq1 & ->)]].
    + left. exact Hw.
    + right. left. split; [reflexivity|]. cbn. eauto.
    + left. cbn. rewrite warn_events_app, warn_events_matches, app_nil_r, Hq1.
      exact Hw.
  - destruct (phase_of s) eqn:Hph; try discriminate.
    destruct (forallb _ _); [|discriminate]. intros [= <-].
    left. destruct Hinv as [Hw|[[Hd _]|[Hd _]]]; [exact Hw|congruence|congruence].
  - destruct (phase_of s) eqn:Hph; try discriminate.
    destruct (forallb _ _); [|discriminate]. intros [= <-].
    destruct Hinv as [Hw|[(_ & q & w & Hq & Hqw)|[Hd _]]]; [| |congruence].
    + left. cbn. rewrite warn_events_app, Hw. reflexivity.
    + right. right. split; [reflexivity|]. exists q, w. cbn.
      rewrite Hq, <- app_assoc. split; [reflexivity|exact Hqw].
  - intros [= <-]. exact Hinv.
Qed.

Lemma warn_last_steps (self : t) (fs : FS) (acts : list action) :
  forall s s', warn_last s -> run_steps self fs acts s = Some s' -> warn_last s'.
Proof.
  induction acts as [|a acts IH]; intros s s' Hinv; cbn.
  - intros [= <-]. exact Hinv.
  - destruct (run_step self fs a s) as [s1|] eqn:Hs1; [|discriminate]. cbn.
    apply IH. eapply warn_last_step; eassumption.
Qed.

(** A queue that ends with [tail] after events that are no warning: a
    warning in it is in [tail]. *)
Lemma warn_in_tail (q tail q1 q2 : list event) (w : string) :
  warn_events q = [] -> q ++ tail = q1 ++ EvWarn w :: q2 ->
  exists t1, tail = t1 ++ EvWarn w :: q2.
Proof.
  revert q1. induction q as [|e q IH]; intros q1 Hw Heq.
  - exists q1. exact Heq.
  - destruct q1 as [|e1 q1].
    + cbn in Heq. injection Heq as -> _. discriminate Hw.
    + cbn in Heq. injection Heq as _ Heq. apply (IH q1); [|exact Heq].
      destruct e; cbn in Hw; first [exact Hw | discriminate Hw].
Qed.

(** X17: the warning, when the run puts it, is the last thing the loop
    reports: whatever the schedule and the stop requests, no [match] and
    no [progress] event comes after it on the queue, only [done]. *)
Theorem X17_warning_is_followed_by_done_only
  (self : t) (fs : FS) (tree : dirtree) (scan_stop : option nat)
  (acts : list action) (s : state) (q1 q2 : list event) (w : string) :
  run self fs tree scan_stop acts = Some s ->
  out_q s = q1 ++ EvWarn w :: q2 ->
  q2 = [] \/ q2 = [EvDone].
Proof.
  intros Hrun Hq.
  assert (Hinv : warn_last s).
  { eapply warn_last_steps; [|exact Hrun]. left. reflexivity. }
  destruct Hinv as [Hw|[(_ & q & w0 & Hq0 & Hqw)|(_ & q & w0 & Hq0 & Hqw)]].
  - rewrite Hq, warn_events_app in Hw. cbn in Hw.
    apply app_eq_nil in Hw as [_ Hw]. discriminate.
  - rewrite Hq0 in Hq.
    destruct (warn_in_tail _ _ _ _ _ Hqw Hq) as [[|e [|e' t1]] Ht];
      cbn in Ht; [injection Ht as _ <-; left; reflexivity|discriminate..].
  - rewrite Hq0 in Hq.
    destruct (warn_in_tail _ _ _ _ _ Hqw Hq) as [[|e [|e' t1]] Ht]; cbn in Ht.
    + injection Ht as _ <-. right. reflexivity.
    + discriminate.
    + injection Ht as _ _ Ht. destruct t1; discriminate.
Qed.

Lemma concat_Permutation {A} (l1 l2 : list (list A)) :
  l1 ≡ₚ l2 -> concat l1 ≡ₚ concat l2.
Proof.
  induction 1 as [|x l1 l2 _ IH|x y l|l1 l2 l3 _ IH1 _ IH2]; cbn.
  - reflexivity.
  - rewrite IH. reflexivity.
  - rewrite !app_assoc. f_equiv. apply Permutation_app_comm.
  - etransitivity; eassumption.
Qed.

Lemma full_result_seq (self : t) (fs : FS) (cs : list candidate) :
  map (full_result self fs cs) (seq 0 (length cs))
  = map (fun c => search_candidate self fs c None) cs.
Proof.
  apply list_eq. intros i.
  change (map (full_result self fs cs)) with (fmap (M:=list) (full_result self fs cs)).
  change (map (fun c => search_candidate self fs c None))
    with (fmap (M:=list) (fun c => search_candidate self fs c None)).
  rewrite !list_lookup_fmap.
  destruct (decide (i < length cs)%nat) as [Hlt|Hge].
  - rewrite lookup_seq_lt by exact Hlt. cbn. unfold full_result.
    destruct (lookup_lt_is_Some_2 cs i Hlt) as [c Hc]. rewrite Hc. reflexivity.
  - rewrite lookup_seq_ge by lia. rewrite lookup_ge_None_2 by lia. reflexivity.
Qed.

(** X18: a run that nobody stops from outside, over candidates that have
    fewer matches than the ceiling, ends without a warning and has put
    every match of every candidate on the queue, each once. *)
Theorem X18_uncut_run_reports_every_match
  (self : t) (fs : FS) (tree : dirtree) (acts : list action) (s : state) :
  forallb is_internal acts = true ->
  run self fs tree None acts = Some s ->
  phase_of s = Finished ->
  (Z.of_nat (length (concat (map (fun c => search_candidate self fs c None)
                               (scan self fs tree None))))
   < max_matches_of self)%Z ->
  warn_events (out_q s) = [] /\
  match_events (out_q s)
  ≡ₚ concat (map (fun c => search_candidate self fs c None)
               (scan self fs tree None)).
Proof.
  intros Hint Hrun Hph Hlt.
  destruct (quiet_inv_steps self fs _ acts Hint _ _ _
              (quiet_inv_start self fs tree) Hrun) as [ys Hinv].
  set (cs := scan self fs tree None) in *.
  pose proof Hinv as
    (Hnd & Hin & Hcs & _ & _ & _ & Hme & _ & _ & _ & _ & _).
  assert (Hlen : length (futures s) = length cs).
  { rewrite <- Hcs, length_map. reflexivity. }
  rewrite Hlen in Hin. rewrite <- full_result_seq in Hlt |- *.
  destruct (quiet_finished _ _ _ _ _ Hinv Hph) as [[_ Hge]|[Hw Hall]].
  - exfalso. rewrite Hme in Hge.
    assert (Hsub : ys ⊆+ seq 0 (length cs)).
    { apply NoDup_submseteq; [exact Hnd|]. intros i Hi.
      apply elem_of_seq. specialize (Hin i Hi). lia. }
    apply submseteq_Permutation in Hsub as [k Hk].
    assert (Hp : concat (map (full_result self fs cs) (seq 0 (length cs)))
                 ≡ₚ concat (map (full_result self fs cs) (ys ++ k))).
    { apply concat_Permutation.
      change (map (full_result self fs cs)) with (fmap (M:=list) (full_result self fs cs)).
      rewrite Hk. reflexivity. }
    apply Permutation_length in Hp.
    rewrite map_app, concat_app, length_app in Hp. lia.
  - split; [exact Hw|]. rewrite Hme. apply concat_Permutation.
    change (map (full_result self fs cs)) with (fmap (M:=list) (full_result self fs cs)).
    f_equiv. apply NoDup_Permutation; [exact Hnd|apply NoDup_seq|].
    intros i. rewrite elem_of_seq. split.
    + intros Hi. specialize (Hin i Hi). lia.
    + intros [_ Hi]. apply Hall. lia.
Qed.

End RunAsAWhole.

(** * Further properties of the replacement *)

Section AtomicWriteEffects.

(** What the [try] block of [atomic_write] does to the files: it touches
    the target, the temporary file and, with [make_backup], the backup, and
    nothing else; when it raises the target is as before, and when it ends
    the target is the file that was the temporary file, or its own old
    self in the one case where the backup took the place of the temporary
    file. *)
Lemma backup_and_rename_effect (env : os_env) (path temp : Path)
  (make_backup : bool) (fs fs' : FS) (r : exn + unit) :
  backup_and_rename env path temp make_backup fs = (fs', r) ->
  (forall q, q <> path -> q <> temp ->
             make_backup = false \/ q <> bak_path path ->
             fs' !! q = fs !! q) /\
  match r with
  | inl _ => fs' !! path = fs !! path
  | inr _ => exists g, fs' !! path = Some g /\
                       (fs !! temp = Some g \/ fs !! path = Some g)
  end.
Proof.
  unfold backup_and_rename, mbind, IO_bind.
  assert (Hrep : forall fs0 fs1 r1,
             os_replace env temp path fs0 = (fs1, r1) ->
             (forall q, q <> path -> q <> temp -> fs1 !! q = fs0 !! q) /\
             match r1 with
             | inl _ => fs1 = fs0
             | inr _ => exists g, fs1 !! path = Some g /\ fs0 !! temp = Some g
             end).
  { intros fs0 fs1 r1. unfold os_replace.
    destruct (replace_fault env); [intros [= <- <-]; auto|].
    destruct (fs0 !! temp) as [g|] eqn:Hg; intros [= <- <-]; [|auto].
    split.
    - intros q Hq Ht. rewrite lookup_insert_ne, lookup_delete_ne by auto.
      reflexivity.
    - exists g. split; [apply lookup_insert_eq|reflexivity]. }
  assert (Hdirect : forall fs1 r1,
             os_replace env temp path fs = (fs1, r1) ->
             (forall q, q <> path -> q <> temp ->
                        make_backup = false \/ q <> bak_path path ->
                        fs1 !! q = fs !! q) /\
             match r1 with
             | inl _ => fs1 !! path = fs !! path
             | inr _ => exists g, fs1 !! path = Some g /\
                                  (fs !! temp = Some g \/ fs !! path = Some g)
             end).
  { intros fs1 r1 Hr. destruct (Hrep _ _ _ Hr) as [Hfr Hres].
    split; [intros q Hq Ht _; apply Hfr; assumption|].
    destruct r1 as [e|u]; [subst fs1; reflexivity|].
    destruct Hres as (g & Hg & Ht). eauto. }
  destruct make_backup; cbn; [|apply Hdirect].
  destruct (bool_decide (is_Some (fs !! path))); cbn; [|apply Hdirect].
  unfold lift. destruct (with_added_suffix path ".bak") as [e'|bak] eqn:Hbak.
  { intros [= <- <-]. auto. }
  apply with_added_suffix_bak in Hbak. subst bak.
  pose proof (bak_path_ne path) as Hbp.
  unfold shutil_copy2. destruct (copy_fault env) as [[e' [partial|]]|].
  - intros [= <- <-]. split.
    + intros q _ _ [Hmb|Hq]; [discriminate|]. apply lookup_insert_ne. auto.
    + apply lookup_insert_ne. exact Hbp.
  - intros [= <- <-]. auto.
  - unfold open_read. destruct (fs !! path) as [f|] eqn:Hp.
    2:{ intros [= <- <-]. auto. }
    destruct (readable f); [|intros [= <- <-]; auto].
    intros Hr. destruct (Hrep _ _ _ Hr) as [Hfr Hres]. split.
    + intros q Hq Ht [Hmb|Hb]; [discriminate|].
      rewrite (Hfr q Hq Ht). apply lookup_insert_ne. auto.
    + destruct r as [e|u].
      * subst fs'. rewrite lookup_insert_ne by exact Hbp. exact Hp.
      * destruct Hres as (g & Hg & Ht). exists g. split; [exact Hg|].
        destruct (decide (bak_path path = temp)) as [<-|Hne].
        -- rewrite lookup_insert_eq in Ht. right. congruence.
        -- rewrite lookup_insert_ne in Ht by exact Hne. left. exact Ht.
Qed.

(** The effect of [atomic_write] whatever fails. *)
Lemma atomic_write_effect (env : os_env) (path : Path) (content : string)
  (make_backup : bool) (fs : FS) :
  temp_path env path <> path ->
  let fs' := (atomic_write env path content make_backup fs).1 in
  (forall q, q <> path -> q <> temp_path env path ->
             make_backup = false \/ q <> bak_path path ->
             fs' !! q = fs !! q) /\
  (fs' !! path = fs !! path \/ fs' !! path = Some (text_file content)).
Proof.
  intros Hne.
  unfold atomic_write, mbind, IO_bind, named_temporary_file, tf_write.
  fold (temp_path env path).
  destruct (create_fault env); [cbn; auto|].
  destruct (fs !! temp_path env path) eqn:Hfresh; [cbn; auto|].
  destruct (write_fault env) as [[e written]|].
  { cbn. split.
    - intros q _ Hq _. rewrite !lookup_insert_ne by auto. reflexivity.
    - left. rewrite !lookup_insert_ne by exact Hne. reflexivity. }
  cbv beta iota. rewrite insert_insert_eq.
  unfold try_except.
  remember (<[temp_path env path := text_file content]> fs) as fs2 eqn:Hfs2.
  assert (H2 : forall q, q <> temp_path env path -> fs2 !! q = fs !! q).
  { intros q Hq. subst fs2. apply lookup_insert_ne. auto. }
  assert (H2t : fs2 !! temp_path env path = Some (text_file content)).
  { subst fs2. apply lookup_insert_eq. }
  clear Hfs2.
  destruct (backup_and_rename env path (temp_path env path) make_backup fs2)
    as [fs3 r] eqn:Hblock.
  destruct (backup_and_rename_effect _ _ _ _ _ _ _ Hblock) as [Hfr Hres].
  destruct r as [e|[]].
  - unfold cleanup_and_reraise, mbind, IO_bind, path_exists, os_remove, raise.
    assert (Hafter : forall fs4,
               (fs4 = fs3 \/ fs4 = delete (temp_path env path) fs3) ->
               (forall q, q <> path -> q <> temp_path env path ->
                          make_backup = false \/ q <> bak_path path ->
                          fs4 !! q = fs !! q) /\
               (fs4 !! path = fs !! path \/
                fs4 !! path = Some (text_file content))).
    { intros fs4 H4. split.
      - intros q Hq Ht Hb. rewrite <- (H2 q Ht), <- (Hfr q Hq Ht Hb).
        destruct H4 as [-> | ->]; [reflexivity|].
        apply lookup_delete_ne. auto.
      - left. rewrite <- (H2 path) by auto. rewrite <- Hres.
        destruct H4 as [-> | ->]; [reflexivity|].
        apply lookup_delete_ne. exact Hne. }
    destruct (bool_decide (is_Some (fs3 !! temp_path env path))); cbn.
    + destruct (remove_fault env); [apply Hafter; auto|].
      destruct (fs3 !! temp_path env path); cbn; apply Hafter; auto.
    + apply Hafter. auto.
  - cbn. split.
    + intros q Hq Ht Hb. rewrite (Hfr q Hq Ht Hb). apply H2. exact Ht.
    + destruct Hres as (g & Hg & [Ht|Hp]).
      * right. congruence.
      * left. rewrite Hg, <- Hp. apply H2. auto.
Qed.

(** X19: whatever fails during [atomic_write], the target ends with the
    bytes it had or with the whole new text, never with a part of it. *)
Theorem X19_target_is_old_or_whole_new
  (env : os_env) (path : Path) (content : string) (make_backup : bool)
  (fs : FS) :
  temp_path env path <> path ->
  (atomic_write env path content make_backup fs).1 !! path = fs !! path \/
  (atomic_write env path content make_backup fs).1 !! path
  = Some (text_file content).
Proof. intros Hne. apply (atomic_write_effect env path content make_backup fs Hne). Qed.

(** X21: a failure of the backup copy or of the rename, the part of
    [atomic_write] inside the [try], removes the temporary file, raises the
    error of that part and leaves the target as it was. *)
Theorem X21_failed_backup_or_rename_is_cleaned_up
  (env : os_env) (path : Path) (content : string) (make_backup : bool)
  (fs : FS) (e : exn) :
  create_fault env = None -> write_fault env = None -> remove_fault env = None ->
  fs !! temp_path env path = None ->
  (backup_and_rename env path (temp_path env path) make_backup
     (<[temp_path env path := text_file content]> fs)).2 = inl e ->
  (atomic_write env path content make_backup fs).2 = inl e /\
  (atomic_write env path content make_backup fs).1 !! temp_path env path = None /\
  (atomic_write env path content make_backup fs).1 !! path = fs !! path.
Proof.
  intros Hc Hw Hrm Hfresh Hblock.
  destruct (backup_and_rename env path (temp_path env path) make_backup
              (<[temp_path env path := text_file content]> fs))
    as [fs1 r] eqn:Hb.
  simpl in Hblock. subst r.
  destruct (atomic_write_guarded_failure env path content make_backup fs fs1 e
              Hc Hw Hrm Hfresh Hb) as (fs' & -> & Ht & Hp).
  auto.
Qed.

(** X22: when nothing fails and the target is there, [atomic_write] ends
    with the new text in the target and no temporary file; with
    [make_backup] the backup is the old file, with its bytes, and without
    it the backup path is as it was. *)
Theorem X22_atomic_write_success
  (env : os_env) (path : Path) (content : string) (make_backup : bool)
  (fs : FS) (f0 : file) :
  no_fault env ->
  fs !! temp_path env path = None ->
  fs !! path = Some f0 -> readable f0 = true ->
  name path <> EmptyString ->
  temp_name env <> name path +:+ ".bak" ->
  (atomic_write env path content make_backup fs).2 = inr () /\
  (atomic_write env path content make_backup fs).1 !! path
    = Some (text_file content) /\
  (atomic_write env path content make_backup fs).1 !! temp_path env path = None /\
  (atomic_write env path content make_backup fs).1 !! bak_path path
    = if make_backup then Some f0 else fs !! bak_path path.
Proof.
  intros (Hc & Hw & Hcp & Hrp & Hrm) Hfresh Hp Hr Hname Hbak.
  assert (Hne : temp_path env path <> path) by congruence.
  assert (Hnb : temp_path env path <> bak_path path).
  { unfold temp_path, bak_path. intros [= Heq]. contradiction. }
  pose proof (bak_path_ne path) as Hbp.
  unfold atomic_write, mbind, IO_bind, named_temporary_file, tf_write.
  rewrite Hc, Hw. fold (temp_path env path). rewrite Hfresh.
  rewrite insert_insert_eq. unfold try_except.
  remember (<[temp_path env path := text_file content]> fs) as fs2 eqn:Hfs2.
  assert (Hp2 : fs2 !! path = Some f0).
  { subst fs2. rewrite lookup_insert_ne by exact Hne. exact Hp. }
  assert (Ht2 : fs2 !! temp_path env path = Some (text_file content)).
  { subst fs2. apply lookup_insert_eq. }
  assert (Hb2 : fs2 !! bak_path path = fs !! bak_path path).
  { subst fs2. apply lookup_insert_ne. exact Hnb. }
  clear Hfs2.
  unfold backup_and_rename, mbind, IO_bind, path_exists, lift.
  destruct make_backup.
  - rewrite Hp2. cbn. unfold with_added_suffix.
    destruct (name path) as [|c n] eqn:Hn; [contradiction|]. rewrite <- Hn.
    fold (bak_path path). unfold shutil_copy2, open_read.
    rewrite Hcp, Hp2, Hr. unfold os_replace. rewrite Hrp.
    rewrite lookup_insert_ne by auto. rewrite Ht2. cbn.
    split; [reflexivity|]. split; [apply lookup_insert_eq|].
    split; [rewrite lookup_insert_ne by auto; apply lookup_delete_eq|].
    rewrite lookup_insert_ne, lookup_delete_ne by auto.
    apply lookup_insert_eq.
  - unfold mret, IO_ret. cbv beta iota. unfold os_replace.
    rewrite Hrp, Ht2. cbn.
    split; [reflexivity|]. split; [apply lookup_insert_eq|].
    split; [rewrite lookup_insert_ne by auto; apply lookup_delete_eq|].
    rewrite lookup_insert_ne, lookup_delete_ne by auto. exact Hb2.
Qed.

End AtomicWriteEffects.

Section ReadingAndPreview.
Context `{PyLib}.
Import SearchEngine.

(** X23: the lines [read_file_lines] gives, joined, are the decoded text of
    the file: for a plain file its bytes decoded, an ill-formed sequence
    becoming U+FFFD, with the newlines translated; for a zip member its
    bytes decoded, whatever line boundaries it has.  The worker's
    [old_text] is that text: the cutting into lines loses nothing of it. *)
Theorem X23_joined_lines_are_the_text
  (fs : FS) (p : Path) (f : file) :
  fs !! p = Some f -> readable f = true ->
  str_join (read_file_lines fs p false None)
  = universal_newlines (decode (data f)) /\
  forall entries mem bytes,
    path_suffix p = ".zip" -> arch f = Zip entries ->
    get_member entries mem = Some bytes ->
    str_join (read_file_lines fs p true (Some mem)) = decode bytes.
Proof.
  intros Hf Hr. split.
  - unfold read_file_lines, open_read. rewrite Hf, Hr. cbn.
    apply str_join_lines_keepends.
  - intros entries mem bytes Hsuf Ha Hg.
    unfold read_file_lines, archive_member_lines, zip_open, open_read, zip_read.
    rewrite Hsuf, Hf, Hr. cbn. rewrite Ha. cbn. rewrite Hg. cbn.
    apply str_join_splitlines_keepends.
Qed.

Lemma archive_member_lines_count (fs : FS) (p : Path) (m : option string)
  (lines : list string) :
  archive_member_lines fs p m false = inr lines ->
  exists lines', archive_member_lines fs p m true = inr lines' /\
                 length lines' = length lines.
Proof.
  unfold archive_member_lines.
  destruct (String.eqb (path_suffix p) ".zip").
  - destruct (zip_open fs p) as [e|z]; [discriminate|]. cbn.
    destruct m as [mem|]; [|discriminate]. cbn.
    destruct (zip_read z mem) as [e|b]; [discriminate|]. cbn.
    intros [= <-]. eexists. split; [reflexivity|apply length_splitlines].
  - destruct (_ || _); [|intros [= <-]; exists []; auto].
    destruct (tar_open fs p) as [e|z]; [discriminate|]. cbn.
    destruct m as [mem|]; [|discriminate]. cbn.
    destruct (tar_extractfile z mem) as [e|[b|]]; [discriminate| |]; cbn.
    + intros [= <-]. eexists. split; [reflexivity|apply length_splitlines].
    + intros [= <-]. exists []. auto.
Qed.

(** The search and [read_file_lines] cut a candidate into the same number
    of lines. *)
Lemma read_file_lines_count (fs : FS) (p : Path) (a : bool) (m : option string)
  (lines : list string) :
  scanned_lines fs p a m = Some lines ->
  length (read_file_lines fs p a m) = length lines.
Proof.
  unfold scanned_lines, read_file_lines. destruct a.
  - destruct (archive_member_lines fs p m false) as [e|ls] eqn:Hl; [discriminate|].
    intros [= <-].
    destruct (archive_member_lines_count _ _ _ _ Hl) as (ls' & -> & Hlen).
    exact Hlen.
  - unfold open_read. destruct (fs !! p) as [f|]; [|discriminate].
    destruct (st_size f >? _)%Z; [discriminate|].
    destruct (readable f); [|discriminate]. cbn.
    destruct (existsb is_NUL _); [discriminate|]. intros [= <-]. reflexivity.
Qed.

Lemma lookup_map_seq {A} (g : nat -> A) (start n j : nat) :
  (j < n)%nat -> map g (seq start n) !! j = Some (g (start + j)%nat).
Proof.
  intros Hj. change (map g) with (fmap (M:=list) g).
  rewrite list_lookup_fmap, lookup_seq_lt by exact Hj. reflexivity.
Qed.

(** X24: for a match the search has just given, [_on_select] fills the
    preview pane with at most ten lines of the candidate, one of which,
    marked [>>], is the line of the match with its number; every other
    line is shown unmarked. *)
Theorem X24_preview_pane_shows_the_matched_line
  (self : t) (fs : FS) (p : Path) (a : bool) (m : option string)
  (stop_at : option nat) (mt : Match) :
  mt ∈ _search_content self fs p a m stop_at ->
  exists entries j line,
    _on_select fs mt = Some entries /\
    (length entries <= 10)%nat /\
    read_file_lines fs p a m !! (line_no mt - 1)%nat = Some line /\
    entries !! j = Some (">> " +:+ pretty (line_no mt) +:+ ": " +:+ line) /\
    forall j' e, j' <> j -> entries !! j' = Some e -> startswith "   " e = true.
Proof.
  intros Hin.
  destruct (scanned_lines fs p a m) as [lines|] eqn:Hl.
  2:{ rewrite search_content_unscanned in Hin by exact Hl. inversion Hin. }
  rewrite (search_content_scanned _ _ _ _ _ _ _ Hl) in Hin.
  apply search_lines_sound in Hin as (k & l0 & Hk & _ & ->).
  apply lookup_lt_Some in Hk as Hlt.
  pose proof (read_file_lines_count _ _ _ _ _ Hl) as Hcount.
  unfold _on_select. cbn [path is_archive member line_no mk_match].
  destruct (read_file_lines fs p a m) as [|r0 rs] eqn:Hread;
    [cbn in Hcount; lia|].
  rewrite <- Hread in *. clear Hread r0 rs.
  set (rl := read_file_lines fs p a m) in *.
  destruct (lookup_lt_is_Some_2 rl k ltac:(lia)) as [line Hline].
  set (start := (1 + k - 5)%nat).
  set (stop := Nat.min (length rl) (1 + k + 5)).
  assert (Hstart : (start <= k)%nat) by (unfold start; lia).
  assert (Hstop : (k < stop)%nat) by (unfold stop; lia).
  eexists. exists (k - start)%nat, line.
  split; [reflexivity|]. split.
  { rewrite length_map, length_seq. unfold stop, start. lia. }
  split.
  { replace (1 + k - 1)%nat with k by lia. exact Hline. }
  split.
  - rewrite lookup_map_seq by lia.
    replace (start + (k - start))%nat with k by lia.
    rewrite Nat.eqb_refl, Hline. reflexivity.
  - intros j' e Hne He.
    assert (Hj' : (j' < stop - start)%nat).
    { apply lookup_lt_Some in He. rewrite length_map, length_seq in He. exact He. }
    rewrite lookup_map_seq in He by exact Hj'. injection He as <-.
    match goal with
    | |- context [if ?b then _ else _] => destruct b eqn:Hb
    end; [apply Nat.eqb_eq in Hb; lia|reflexivity].
Qed.

End ReadingAndPreview.

Section WorkerAsAWhole.
Context `{PyLib}.
Import ReplacementWorker.

Lemma replace_file_absent (fo : FindOpts) (repl : string) (backup : bool)
  (env : os_env) (p : Path) (fs : FS) :
  f_case fo = true ->
  contains (f_text fo) (str_join (read_file_lines fs p false None)) = false ->
  replace_file None fo repl backup env p fs = (fs, inr false).
Proof.
  intros Hcase Habs. unfold replace_file, substitute. rewrite Hcase.
  rewrite (str_replace_absent _ _ _ Habs).
  unfold mbind, IO_bind, lift, mret, exn_ret, IO_ret. cbv beta iota.
  rewrite bool_decide_eq_true_2 by reflexivity. reflexivity.
Qed.

Lemma replace_loop_absent (fo : FindOpts) (repl : string) (backup : bool)
  (envs : nat -> os_env) (fs : FS) (items : list (string * Path)) :
  f_case fo = true ->
  (forall it, it ∈ items ->
     contains (f_text fo) (str_join (read_file_lines fs it.2 false None)) = false) ->
  forall i count q,
    replace_loop None fo repl backup envs i items count q fs
    = (fs, count, q ++ imap (fun k it => RStep (S (i + k)) (name it.2)) items).
Proof.
  intros Hcase. induction items as [|[id p] items IH]; intros Habs i count q.
  - cbn. rewrite app_nil_r. reflexivity.
  - cbn [replace_loop].
    rewrite (replace_file_absent fo repl backup (envs i) p fs Hcase
               (Habs (id, p) ltac:(apply list_elem_of_here))).
    rewrite IH by (intros it Hit; apply Habs; apply list_elem_of_further; exact Hit).
    cbn [imap snd]. rewrite Nat.add_0_r, <- app_assoc. cbn [app].
    do 3 f_equal. apply imap_ext. intros k it _. cbn. do 2 f_equal. lia.
Qed.

(** X25: a case-sensitive literal job over files none of which contains
    the text writes nothing: the file system is as before, no temporary
    file and no backup is made, every file is reported by its [step] event
    and [done] carries 0. *)
Theorem X25_nothing_to_replace_writes_nothing
  (items : list (string * Path)) (fo : FindOpts) (repl : string)
  (backup : bool) (envs : nat -> os_env) (fs : FS) :
  f_regex fo = false -> f_whole fo = false -> f_case fo = true ->
  (forall it, it ∈ items ->
     contains (f_text fo) (str_join (read_file_lines fs it.2 false None)) = false) ->
  run items fo repl backup envs fs
  = (fs, imap (fun k it => RStep (S k) (name it.2)) items ++ [RDone 0]).
Proof.
  intros Hrx Hw Hcase Habs. unfold run, compile_rx. rewrite Hrx, Hw. cbn.
  rewrite (replace_loop_absent fo repl backup envs fs items Hcase Habs).
  reflexivity.
Qed.

Lemma replace_loop_count (rx : option Regex) (fo : FindOpts) (repl : string)
  (backup : bool) (envs : nat -> os_env) (items : list (string * Path)) :
  forall i count q fs fs' c' q',
    replace_loop rx fo repl backup envs i items count q fs = (fs', c', q') ->
    (count <= c' <= count + length items)%nat.
Proof.
  induction items as [|[id p] items IH]; intros i count q fs fs' c' q'; cbn.
  - intros [= <- <- <-]. lia.
  - destruct (replace_file rx fo repl backup (envs i) p fs) as [fs1 [e|[]]];
      intros Hr; apply IH in Hr; lia.
Qed.

(** X26: the events of a job.  When the pattern does not compile there is
    one [fatal] event and no file is touched.  Otherwise every file of the
    job is reported once, in order, by its [step] or by an [error] that
    starts with its name, then comes [done], whose count is at most the
    number of files. *)
Theorem X26_one_event_per_file_then_done
  (items : list (string * Path)) (fo : FindOpts) (repl : string)
  (backup : bool) (envs : nat -> os_env) (fs : FS) :
  match compile_rx fo with
  | inl e => run items fo repl backup envs fs = (fs, [RFatal (exn_str e)])
  | inr _ =>
      exists evs c,
        (run items fo repl backup envs fs).2 = evs ++ [RDone c] /\
        length evs = length items /\
        (c <= length items)%nat /\
        forall k it ev, items !! k = Some it -> evs !! k = Some ev ->
                        reports (S k) it.2 ev
  end.
Proof.
  unfold run. destruct (compile_rx fo) as [e|rx]; [reflexivity|].
  destruct (replace_loop rx fo repl backup envs 0 items 0 [] fs)
    as [[fs' c] q] eqn:Hloop.
  exists q, c. split; [reflexivity|].
  destruct (replace_loop_reports _ _ _ _ _ _ _ _ _ _ _ _ Hloop) as [Hlen Hrep].
  pose proof (replace_loop_count _ _ _ _ _ _ _ _ _ _ _ _ _ Hloop) as Hc.
  split; [exact Hlen|]. split; [lia|]. exact Hrep.
Qed.

(** X27: the text the replace dialog shows as the result is the text the
    worker writes, for the same old text, whenever the whole-word option is
    unset or the pattern is a regular expression. *)
Theorem X27_diff_preview_agrees_with_worker
  (fo : FindOpts) (rx : option Regex) (repl old : string) :
  compile_rx fo = inr rx ->
  f_regex fo = true \/ f_whole fo = false ->
  show_diff_new fo repl old = substitute rx fo repl old.
Proof.
  unfold compile_rx, show_diff_new, substitute.
  destruct (f_regex fo).
  - destruct (re_compile (f_text fo) (negb (f_case fo))) as [e|r]; [discriminate|].
    cbn. intros [= <-] _. reflexivity.
  - intros Hrx [Hf|Hw]; [discriminate|]. rewrite Hw in Hrx.
    injection Hrx as <-. reflexivity.
Qed.

End WorkerAsAWhole.

Section Globs.

(** X28: the patterns [_run_engine] takes from a field are not empty and
    have no white space around them: empty entries between semicolons are
    dropped, and not passed to [fnmatch]. *)
Theorem X28_parsed_globs_are_trimmed_and_not_empty (text g : string) :
  g ∈ parse_globs text ->
  g <> EmptyString /\ strip g = g /\
  exists piece, piece ∈ str_split ";" text /\ g = strip piece.
Proof.
  unfold parse_globs. intros Hin. apply list_elem_of_In, filter_In in Hin.
  destruct Hin as [Hin Hne]. apply in_map_iff in Hin as (piece & <- & Hp).
  split.
  - intros Heq. rewrite Heq in Hne. discriminate.
  - split; [apply strip_idem|]. exists piece.
    split; [apply list_elem_of_In; exact Hp|reflexivity].
Qed.

End Globs.

(** * The further properties on the sample data *)

(** X3 on the second line of the member of [memo.zip], which starts after
    the U+2028. *)
Lemma X3_matches_witness :
  exists lines k line,
    scanned_lines memo_fs memo_zip true (Some "memo.txt") = Some lines /\
    lines !! k = Some line /\
    re_search (SearchEngine.regex x_engine) line = true /\
    line_no (SearchEngine.mk_match memo_zip true (Some "memo.txt") 2
               (NBSP +:+ "x " +:+ E_ACUTE)) = S k /\
    (1 <= line_no (SearchEngine.mk_match memo_zip true (Some "memo.txt") 2
                     (NBSP +:+ "x " +:+ E_ACUTE))
     <= length lines)%nat /\
    preview (SearchEngine.mk_match memo_zip true (Some "memo.txt") 2
               (NBSP +:+ "x " +:+ E_ACUTE))
    = str_take 200 (strip line) /\
    path (SearchEngine.mk_match memo_zip true (Some "memo.txt") 2
            (NBSP +:+ "x " +:+ E_ACUTE)) = memo_zip /\
    is_archive (SearchEngine.mk_match memo_zip true (Some "memo.txt") 2
                  (NBSP +:+ "x " +:+ E_ACUTE)) = true /\
    member (SearchEngine.mk_match memo_zip true (Some "memo.txt") 2
              (NBSP +:+ "x " +:+ E_ACUTE)) = Some "memo.txt".
Proof.
  apply (X3_matches_are_matching_lines x_engine memo_fs memo_zip true
           (Some "memo.txt") None).
  vm_compute. apply list_elem_of_further, list_elem_of_here.
Defined.

(** X4 on the two matches of [a.txt]. *)
Lemma X4_ascending_witness :
  (line_no (SearchEngine.mk_match a_txt false None 1 ("x" +:+ nl))
   < line_no (SearchEngine.mk_match a_txt false None 2 ("x" +:+ nl)))%nat.
Proof.
  apply (X4_matches_in_ascending_line_order x_engine two_files_fs a_txt false
           None None 0 1).
  - vm_compute. reflexivity.
  - vm_compute. reflexivity.
  - lia.
Defined.

(** X5 on the same line. *)
Lemma X5_reported_witness :
  SearchEngine.mk_match memo_zip true (Some "memo.txt") 2
    (NBSP +:+ "x " +:+ E_ACUTE)
  ∈ SearchEngine._search_content x_engine memo_fs memo_zip true
      (Some "memo.txt") None.
Proof.
  apply (X5_every_matching_line_is_reported x_engine memo_fs memo_zip true
           (Some "memo.txt") ["x"; NBSP +:+ "x " +:+ E_ACUTE] 1
           (NBSP +:+ "x " +:+ E_ACUTE)).
  - vm_compute. reflexivity.
  - reflexivity.
  - vm_compute. reflexivity.
Defined.

(** X6 on the same line, which starts with a no-break space. *)
Lemma X6_preview_witness :
  (str_len
     (preview (SearchEngine.mk_match memo_zip true (Some "memo.txt") 2
                 (NBSP +:+ "x " +:+ E_ACUTE))) <= 200)%nat /\
  starts_with_space
    (preview (SearchEngine.mk_match memo_zip true (Some "memo.txt") 2
                (NBSP +:+ "x " +:+ E_ACUTE))) = false.
Proof.
  apply (X6_preview_is_short_and_left_trimmed x_engine memo_fs memo_zip true
           (Some "memo.txt") None).
  vm_compute. apply list_elem_of_further, list_elem_of_here.
Defined.

(** X8 on a path that is not there. *)
Lemma X8_missing_file_witness :
  SearchEngine._search_content x_engine two_files_fs notes_txt false None None
  = [].
Proof.
  apply X8_failing_candidates_give_nothing. left. reflexivity.
Defined.



(** X13 after the loop has taken [a.txt]. *)
Lemma X13_counters_witness :
  exists s,
    SearchEngine.run x_engine two_files_fs two_files_tree None
      [SearchEngine.Complete 0 None; SearchEngine.Yield 0] = Some s /\
    matches_found (SearchEngine.stats s)
    = Z.of_nat (length (match_events (SearchEngine.out_q s))) /\
    scanned_files (SearchEngine.stats s)
    = Z.of_nat (count_if SearchEngine.f_yielded (SearchEngine.futures s)) /\
    total_candidates (SearchEngine.stats s)
    = Z.of_nat (length (SearchEngine.scan x_engine two_files_fs two_files_tree
                          None)) /\
    (scanned_files (SearchEngine.stats s)
     <= total_candidates (SearchEngine.stats s))%Z.
Proof.
  eexists. split; [vm_compute; reflexivity|].
  apply (X13_counters_agree_with_the_queue x_engine two_files_fs two_files_tree
           None [SearchEngine.Complete 0 None; SearchEngine.Yield 0]).
  vm_compute. reflexivity.
Defined.

(** X14 on the finished run over both files. *)
Lemma X14_progress_witness :
  exists s,
    SearchEngine.run wide_engine two_files_fs two_files_tree None
      [SearchEngine.Complete 0 None; SearchEngine.Complete 1 None;
       SearchEngine.Yield 1; SearchEngine.Yield 0; SearchEngine.Exhaust;
       SearchEngine.Shutdown] = Some s /\
    Z.of_nat (count_if is_progress (SearchEngine.out_q s))
    = (1 + scanned_files (SearchEngine.stats s) / 50)%Z.
Proof.
  eexists. split; [vm_compute; reflexivity|].
  apply (X14_progress_every_fifty_files wide_engine two_files_fs two_files_tree
           None
           [SearchEngine.Complete 0 None; SearchEngine.Complete 1 None;
            SearchEngine.Yield 1; SearchEngine.Yield 0; SearchEngine.Exhaust;
            SearchEngine.Shutdown]).
  vm_compute. reflexivity.
Defined.

(** X15 on the run that stops at the ceiling. *)
Lemma X15_done_witness :
  exists s,
    SearchEngine.run x_engine two_files_fs two_files_tree None
      [SearchEngine.Complete 0 None; SearchEngine.Yield 0;
       SearchEngine.Complete 1 None; SearchEngine.Yield 1;
       SearchEngine.Shutdown] = Some s /\
    (SearchEngine.phase_of s = SearchEngine.Finished <->
     EvDone ∈ SearchEngine.out_q s) /\
    (SearchEngine.phase_of s = SearchEngine.Finished ->
     (exists q, SearchEngine.out_q s = q ++ [EvDone] /\ EvDone ∉ q) /\
     forall a s', SearchEngine.run_step x_engine two_files_fs a s = Some s' ->
                  SearchEngine.out_q s' = SearchEngine.out_q s /\
                  SearchEngine.phase_of s' = SearchEngine.Finished).
Proof.
  eexists. split; [vm_compute; reflexivity|].
  apply (X15_done_once_and_last x_engine two_files_fs two_files_tree None
           [SearchEngine.Complete 0 None; SearchEngine.Yield 0;
            SearchEngine.Complete 1 None; SearchEngine.Yield 1;
            SearchEngine.Shutdown]).
  vm_compute. reflexivity.
Defined.


(** X17 on the same run, once the workers are joined: [done] alone
    follows the warning. *)
Lemma X17_warning_witness :
  exists s,
    SearchEngine.run x_engine two_files_fs two_files_tree None
      [SearchEngine.Complete 0 None; SearchEngine.Yield 0;
       SearchEngine.Complete 1 None; SearchEngine.Yield 1;
       SearchEngine.Shutdown] = Some s /\
    SearchEngine.out_q s
    = [EvProgress;
       EvMatch (SearchEngine.mk_match a_txt false None 1 ("x" +:+ nl));
       EvMatch (SearchEngine.mk_match a_txt false None 2 ("x" +:+ nl))]
      ++ EvWarn (SearchEngine.warn_msg 1) :: [EvDone] /\
    ([EvDone] = @nil event \/ [EvDone] = [EvDone]).
Proof.
  eexists. split; [vm_compute; reflexivity|]. split; [vm_compute; reflexivity|].
  eapply (X17_warning_is_followed_by_done_only x_engine two_files_fs
            two_files_tree None
            [SearchEngine.Complete 0 None; SearchEngine.Yield 0;
             SearchEngine.Complete 1 None; SearchEngine.Yield 1;
             SearchEngine.Shutdown] _
            [EvProgress;
             EvMatch (SearchEngine.mk_match a_txt false None 1 ("x" +:+ nl));
             EvMatch (SearchEngine.mk_match a_txt false None 2 ("x" +:+ nl))]
            [EvDone] (SearchEngine.warn_msg 1)).
  - vm_compute. reflexivity.
  - vm_compute. reflexivity.
Defined.

(** X18 on the finished run over both files, three matches under a ceiling
    of 5000. *)
Lemma X18_uncut_run_witness :
  exists s,
    SearchEngine.run wide_engine two_files_fs two_files_tree None
      [SearchEngine.Complete 0 None; SearchEngine.Complete 1 None;
       SearchEngine.Yield 1; SearchEngine.Yield 0; SearchEngine.Exhaust;
       SearchEngine.Shutdown] = Some s /\
    warn_events (SearchEngine.out_q s) = [] /\
    match_events (SearchEngine.out_q s)
    ≡ₚ concat (map (fun c => SearchEngine.search_candidate wide_engine
                               two_files_fs c None)
                 (SearchEngine.scan wide_engine two_files_fs two_files_tree
                    None)).
Proof.
  eexists. split; [vm_compute; reflexivity|].
  apply (X18_uncut_run_reports_every_match wide_engine two_files_fs
           two_files_tree
           [SearchEngine.Complete 0 None; SearchEngine.Complete 1 None;
            SearchEngine.Yield 1; SearchEngine.Yield 0; SearchEngine.Exhaust;
            SearchEngine.Shutdown]).
  - reflexivity.
  - vm_compute. reflexivity.
  - reflexivity.
  - vm_compute. reflexivity.
Defined.

(** X19 when the disk fills up while the temporary file is written. *)
Lemma X19_old_or_new_witness :
  (atomic_write disk_full_env notes_txt "baz bar baz" true notes_fs).1
    !! notes_txt = notes_fs !! notes_txt \/
  (atomic_write disk_full_env notes_txt "baz bar baz" true notes_fs).1
    !! notes_txt = Some (text_file "baz bar baz").
Proof.
  apply X19_target_is_old_or_whole_new. discriminate.
Defined.

(** X21 when the rename fails. *)
Lemma X21_cleaned_up_witness :
  (atomic_write rename_fails_env notes_txt "baz bar baz" true notes_fs).2
  = inl (OSError "Access is denied") /\
  (atomic_write rename_fails_env notes_txt "baz bar baz" true notes_fs).1
    !! temp_path rename_fails_env notes_txt = None /\
  (atomic_write rename_fails_env notes_txt "baz bar baz" true notes_fs).1
    !! notes_txt = notes_fs !! notes_txt.
Proof.
  apply X21_failed_backup_or_rename_is_cleaned_up.
  - reflexivity.
  - reflexivity.
  - reflexivity.
  - reflexivity.
  - vm_compute. reflexivity.
Defined.

(** X22 on [notes.txt], with a backup. *)
Lemma X22_success_witness :
  (atomic_write quiet_env notes_txt "baz bar baz" true notes_fs).2 = inr () /\
  (atomic_write quiet_env notes_txt "baz bar baz" true notes_fs).1 !! notes_txt
  = Some (text_file "baz bar baz") /\
  (atomic_write quiet_env notes_txt "baz bar baz" true notes_fs).1
    !! temp_path quiet_env notes_txt = None /\
  (atomic_write quiet_env notes_txt "baz bar baz" true notes_fs).1
    !! bak_path notes_txt
  = Some (text_file "foo bar foo").
Proof.
  apply (X22_atomic_write_success quiet_env notes_txt "baz bar baz" true
           notes_fs (text_file "foo bar foo")).
  - repeat split.
  - reflexivity.
  - reflexivity.
  - reflexivity.
  - discriminate.
  - discriminate.
Defined.

(** X23 on [r/raw.txt], whose byte FF is read as U+FFFD. *)
Lemma X23_joined_lines_witness :
  str_join (read_file_lines raw_fs raw_txt false None)
  = universal_newlines (decode (data raw_file)) /\
  forall entries mem bytes,
    path_suffix raw_txt = ".zip" -> arch raw_file = Zip entries ->
    get_member entries mem = Some bytes ->
    str_join (read_file_lines raw_fs raw_txt true (Some mem)) = decode bytes.
Proof.
  apply X23_joined_lines_are_the_text.
  - reflexivity.
  - reflexivity.
Defined.

(** X24 on the last match of the member of [docs.zip]. *)
Lemma X24_preview_pane_witness :
  exists entries j line,
    _on_select zip_fs
      (SearchEngine.mk_match docs_zip true (Some "hello.txt") 3
         "last line") = Some entries /\
    (length entries <= 10)%nat /\
    read_file_lines zip_fs docs_zip true (Some "hello.txt")
      !! (line_no (SearchEngine.mk_match docs_zip true (Some "hello.txt") 3
                     "last line") - 1)%nat = Some line /\
    entries !! j
    = Some (">> "
            +:+ pretty (line_no (SearchEngine.mk_match docs_zip true
                                   (Some "hello.txt") 3 "last line"))
            +:+ ": " +:+ line) /\
    forall j' e, j' <> j -> entries !! j' = Some e -> startswith "   " e = true.
Proof.
  apply (X24_preview_pane_shows_the_matched_line zip_engine zip_fs docs_zip
           true (Some "hello.txt") None).
  vm_compute. apply list_elem_of_further, list_elem_of_here.
Defined.

(** X25 on [notes.txt], which has no "qux". *)
Lemma X25_nothing_to_replace_witness :
  ReplacementWorker.run [("I001", notes_txt)] (literal_find "qux") "baz" true
    (fun _ => quiet_env) notes_fs
  = (notes_fs,
     imap (fun k it => RStep (S k) (name it.2)) [("I001", notes_txt)]
     ++ [RDone 0]).
Proof.
  apply X25_nothing_to_replace_writes_nothing.
  - reflexivity.
  - reflexivity.
  - reflexivity.
  - intros it Hit. apply list_elem_of_singleton in Hit. subst it.
    vm_compute. reflexivity.
Defined.

(** X27 on the literal "foo". *)
Lemma X27_diff_preview_witness :
  show_diff_new (literal_find "foo") "baz" "foo bar foo"
  = ReplacementWorker.substitute None (literal_find "foo") "baz" "foo bar foo".
Proof.
  apply X27_diff_preview_agrees_with_worker.
  - reflexivity.
  - right. reflexivity.
Defined.

(** X28 on a field with a no-break space and an empty entry. *)
Lemma X28_parsed_globs_witness :
  "*.py" <> EmptyString /\ strip "*.py" = "*.py" /\
  exists piece,
    piece ∈ str_split ";" (" " +:+ NBSP +:+ "*.py ;;*.txt") /\
    "*.py" = strip piece.
Proof.
  apply X28_parsed_globs_are_trimmed_and_not_empty.
  vm_compute. apply list_elem_of_here.
Defined.

(** X26 on the job of two files in which the rename of the first fails. *)
Lemma X26_events_witness :
  exists evs c,
    (ReplacementWorker.run [("I001", notes_txt); ("I002", todo_txt)]
       (literal_find "foo") "baz" true job_envs job_fs).2
    = evs ++ [RDone c] /\
    length evs = length [("I001", notes_txt); ("I002", todo_txt)] /\
    (c <= length [("I001", notes_txt); ("I002", todo_txt)])%nat /\
    forall k it ev,
      [("I001", notes_txt); ("I002", todo_txt)] !! k = Some it ->
      evs !! k = Some ev -> reports (S k) it.2 ev.
Proof.
  exact (X26_one_event_per_file_then_done
           [("I001", notes_txt); ("I002", todo_txt)] (literal_find "foo") "baz"
           true job_envs job_fs).
Defined.
